(** * claude-agent-sdk-ts: the control-protocol engine, embedded in Rocq

    A shallow embedding of [src/query.ts] and [src/utils/asyncQueue.ts].

    - JavaScript data of type [unknown] is a [value]; data with a declared
      TypeScript type is a record or an inductive type of that shape.
    - A JavaScript [Map] is a [gmap]; a plain object ([Record<string, unknown>])
      is an association list in property order, because
      [Object.entries] enumerates it in that order.
    - An [async] function is cut at its [await]s: the code that runs between two
      suspension points is one function of the state, and what the awaited
      promise settles to is supplied by the caller of the next piece.
    - The server bridge, where several calls are in flight at once, is a
      labelled transition system: one event per continuation that the
      JavaScript job queue may run. *)

From Stdlib Require Import ZArith List Ascii String Bool Lia.
From stdpp Require Import base option list gmap strings pretty.

Open Scope string_scope.
Set Warnings "-register-all".

(** ** JavaScript values *)

Module Js.

(** [VNum n] is the number [n]: the integer-valued numbers only. The numbers
    of JavaScript are the doubles, and beyond [2^53] not every integer is
    one: there [VNum n] stands for the double nearest to [n], as the literal
    [n] does. [VError m] is an instance of [Error] (or of a subclass, whose
    name is not kept) with [message] [m]. *)
Inductive value :=
| VUndefined
| VNull
| VBool (b : bool)
| VNum (n : Z)
| VStr (s : string)
| VArr (items : list value)
| VObj (fields : list (string * value))
| VError (message : string).

(** A plain object, in property order. *)
Abbreviation obj := (list (string * value)).

(** How a promise settles. *)
Inductive settled :=
| Resolved (v : value)
| Rejected (reason : value).

(** The completion of a piece of code: a value, or a [throw]. *)
Inductive completion (A : Type) :=
| Normal (a : A)
| Throw (thrown : value).
Arguments Normal {A} a.
Arguments Throw {A} thrown.

Definition bind {A B} (c : completion A) (k : A -> completion B) : completion B :=
  match c with
  | Normal a => k a
  | Throw e => Throw e
  end.

(** [!!v] *)
Definition truthy (v : value) : bool :=
  match v with
  | VUndefined | VNull => false
  | VBool b => b
  | VNum n => negb (n =? 0)%Z
  | VStr s => negb (String.eqb s "")
  | VArr _ | VObj _ | VError _ => true
  end.

Definition nullish (v : value) : bool :=
  match v with
  | VUndefined | VNull => true
  | _ => false
  end.

(** [a ?? b] *)
Definition coalesce (a b : value) : value :=
  if nullish a then b else a.

(** [v === s] for a string literal [s] *)
Definition is_string (s : string) (v : value) : bool :=
  match v with
  | VStr s' => String.eqb s' s
  | _ => false
  end.

(** [typeof v === "object"] *)
Definition typeof_object (v : value) : bool :=
  match v with
  | VNull | VArr _ | VObj _ | VError _ => true
  | _ => false
  end.

Definition join (sep : string) (parts : list string) : string :=
  match parts with
  | [] => ""
  | p :: ps => fold_left (fun acc s => acc ++ sep ++ s) ps p
  end.

(** *** [String(n)] for a number

    [Number::toString]: the decimal with the fewest significant digits that
    still denotes the double, written in full when it has at most 21 digits
    and with an exponent from 22 digits on. *)

(** The double nearest to [n], for [0 <= n]: below [2^53] every integer is a
    double; above, a double has 53 significant bits, and a tie goes to the
    even one. *)
Definition toDouble (n : Z) : Z :=
  if (n <? 2 ^ 53)%Z then n
  else
    let e := (Z.log2 n - 52)%Z in
    let q := Z.shiftr n e in
    let r := (n - Z.shiftl q e)%Z in
    let half := Z.shiftl 1 (e - 1) in
    let up := (half <? r)%Z || ((r =? half)%Z && Z.odd q) in
    Z.shiftl (if up then q + 1 else q)%Z e.

(** Whether the decimal [c] denotes the double [x >= 2^53]: it is nearer to
    [x] than to the doubles next to [x], or half way and [x] is the even
    one. *)
Definition denotes (x c : Z) : bool :=
  let e := (Z.log2 x - 52)%Z in
  let q := Z.shiftr x e in
  let above := Z.shiftl 1 e in
  let below := if (q =? 2 ^ 52)%Z then Z.shiftl 1 (e - 1) else above in
  let lo := (2 * x - below)%Z in
  let hi := (2 * x + above)%Z in
  ((lo <? 2 * c)%Z && (2 * c <? hi)%Z)
  || (Z.even q && ((2 * c =? lo)%Z || (2 * c =? hi)%Z)).

(** The decimal with the fewest significant digits that denotes the double
    [x >= 2^53], the nearest to [x] of those, the even one of two equally
    near: the multiples of [10^p] next to [x] are tried from [p]
    downwards. *)
Fixpoint shortest (x : Z) (p : nat) : Z :=
  let unit := (10 ^ Z.of_nat p)%Z in
  let c1 := (x / unit * unit)%Z in
  let c2 := (c1 + unit)%Z in
  match denotes x c1, denotes x c2 with
  | true, true =>
      if (x - c1 <? c2 - x)%Z then c1
      else if (c2 - x <? x - c1)%Z then c2
      else if Z.even (x / unit) then c1 else c2
  | true, false => c1
  | false, true => c2
  | false, false =>
      match p with
      | 0 => x
      | S p' => shortest x p'
      end
  end.

Fixpoint dropZeros (reversed : string) : string :=
  match reversed with
  | String "0" rest => dropZeros rest
  | _ => reversed
  end.

(** The integer [0 <= v] as [Number::toString] writes it: its digits up to
    21 of them, and [d.ddde+n] from 22 digits on. *)
Definition printDecimal (v : Z) : string :=
  let digits := pretty v in
  let n := String.length digits in
  if (n <=? 21)%nat then digits
  else
    match String.rev (dropZeros (String.rev digits)) with
    | String d "" => String d ("e+" ++ pretty (n - 1))
    | String d more => String d ("." ++ more ++ "e+" ++ pretty (n - 1))
    | "" => digits
    end.

Definition numberToString (n : Z) : string :=
  let x := toDouble (Z.abs n) in
  let v := if (x <? 2 ^ 53)%Z then x
           else shortest x (String.length (pretty x) - 1) in
  (if (n <? 0)%Z then "-" else "") ++ printDecimal v.

(** [String(v)] *)
Fixpoint toString (v : value) : string :=
  match v with
  | VUndefined => "undefined"
  | VNull => "null"
  | VBool true => "true"
  | VBool false => "false"
  | VNum n => numberToString n
  | VStr s => s
  | VArr items =>
      join "," (map (fun x => if nullish x then "" else toString x) items)
  | VObj _ => "[object Object]"
  | VError m => if String.eqb m "" then "Error" else "Error: " ++ m
  end.

(** [o[k]] on a plain object: the property, or [undefined]. *)
Fixpoint get (k : string) (o : obj) : value :=
  match o with
  | [] => VUndefined
  | (k', v) :: rest => if String.eqb k' k then v else get k rest
  end.

(** Whether [k] is an own property of [o] ([k in o]). *)
Fixpoint has (k : string) (o : obj) : bool :=
  match o with
  | [] => false
  | (k', _) :: rest => if String.eqb k' k then true else has k rest
  end.

(** [o.k = v] for a name [k] written in the code: overwrites in place, or
    adds the property at the end. *)
Fixpoint set (k : string) (v : value) (o : obj) : obj :=
  match o with
  | [] => [(k, v)]
  | (k', v') :: rest =>
      if String.eqb k' k then (k, v) :: rest else (k', v') :: set k v rest
  end.

(** [o[k] = v] for a computed name [k], on an object made by [{}]. The
    name [__proto__] is the accessor of [Object.prototype]: assigning to it
    replaces the prototype of [o] when [v] is an object or [null], does
    nothing otherwise, and in neither case adds a property. The prototype
    is not kept here: the objects built this way are read by
    [Object.keys] and [JSON.stringify], which see own properties only. *)
Definition assign (k : string) (v : value) (o : obj) : obj :=
  if String.eqb k "__proto__" then o else set k v o.

(** [e.message] where [e] was caught: reading a property of [undefined] or
    [null] is a [TypeError]. *)
Definition message_of (e : value) : completion value :=
  match e with
  | VUndefined | VNull =>
      Throw (VError ("Cannot read properties of " ++ toString e
                     ++ " (reading 'message')"))
  | VError m => Normal (VStr m)
  | VObj fields => Normal (get "message" fields)
  | _ => Normal VUndefined
  end.

(** What [JSON.stringify] keeps of a value: a property whose value is
    [undefined] is left out, an [undefined] array element becomes [null],
    an [Error] has no enumerable property. *)
Fixpoint json (v : value) : value :=
  match v with
  | VArr items =>
      VArr (map (fun x => match x with VUndefined => VNull | _ => json x end) items)
  | VObj fields =>
      VObj (flat_map (fun kv =>
              let '(k, x) := kv in
              match x with
              | VUndefined => []
              | _ => [(k, json x)]
              end) fields)
  | VError _ => VObj []
  | _ => v
  end.

End Js.
Import Js.

(** ** [AsyncQueue<T>] (src/utils/asyncQueue.ts) *)

Module AsyncQueue.

(** [IteratorResult<T>] *)
Inductive iter_result (T : Type) :=
| IterValue (v : T)
| IterDone.
Arguments IterValue {T} v.
Arguments IterDone {T}.

(** A waiter is the [{resolve, reject}] pair of a promise that [next] has
    returned unsettled; [W] names those promises. [error] is [undefined]
    until [fail] stores one. *)
Record t (T W : Type) := Build {
  values : list T;
  waiters : list W;
  closed : bool;
  error : value;
}.
Arguments Build {T W}.
Arguments values {T W}.
Arguments waiters {T W}.
Arguments closed {T W}.
Arguments error {T W}.

Definition empty {T W} : t T W :=
  {| values := []; waiters := []; closed := false; error := VUndefined |}.

Definition closed_error : value := VError "Cannot push to a closed AsyncQueue".

(** [push(value)]: on success the new queue and, when a waiter was
    waiting, that waiter with the result it is resolved with. *)
Definition push {T W} (v : T) (q : t T W)
  : completion (t T W * option (W * iter_result T)) :=
  if closed q then Throw closed_error
  else
    match waiters q with
    | w :: ws =>
        Normal ({| values := values q; waiters := ws;
                   closed := closed q; error := error q |},
                Some (w, IterValue v))
    | [] =>
        Normal ({| values := values q ++ [v]; waiters := [];
                   closed := closed q; error := error q |},
                None)
    end.

(** [close()]: the new queue and the waiters resolved with [done]. *)
Definition close {T W} (q : t T W) : t T W * list W :=
  if closed q then (q, [])
  else ({| values := values q; waiters := [];
           closed := true; error := error q |},
        waiters q).

(** [fail(error)]: the new queue and the waiters rejected with [error]. *)
Definition fail {T W} (e : value) (q : t T W) : t T W * list W :=
  if closed q then (q, [])
  else ({| values := values q; waiters := [];
           closed := true; error := e |},
        waiters q).

(** What the promise returned by the iterator's [next()] is. *)
Inductive next_result (T : Type) :=
| NextRejected (e : value)
| NextResolved (r : iter_result T)
| NextPending.
Arguments NextRejected {T} e.
Arguments NextResolved {T} r.
Arguments NextPending {T}.

(** [next()]; [w] names the promise it returns, which becomes a waiter
    when nothing is buffered. *)
Definition next {T W} (w : W) (q : t T W) : t T W * next_result T :=
  if truthy (error q) then (q, NextRejected (error q))
  else
    match values q with
    | v :: vs =>
        ({| values := vs; waiters := waiters q;
            closed := closed q; error := error q |},
         NextResolved (IterValue v))
    | [] =>
        if closed q then (q, NextResolved IterDone)
        else ({| values := []; waiters := waiters q ++ [w];
                 closed := closed q; error := error q |},
              NextPending)
    end.

End AsyncQueue.

(** ** Declared types (src/types.ts) *)

Module Types.

Inductive PermissionMode :=
| ModeDefault | ModeAcceptEdits | ModePlan | ModeBypassPermissions.

Inductive PermissionUpdateDestination :=
| UserSettings | ProjectSettings | LocalSettings | Session.

Inductive PermissionBehavior :=
| BehaviorAllow | BehaviorDeny | BehaviorAsk.

Inductive PermissionUpdateType :=
| AddRules | ReplaceRules | RemoveRules
| SetMode | AddDirectories | RemoveDirectories.

(** [ruleContent?: string | null] is [None] when the property is absent
    and [Some None] when it is [null]. *)
Record PermissionRuleValue := {
  toolName : string;
  ruleContent : option (option string);
}.

(** An optional property is [None] when absent. *)
Record PermissionUpdate := {
  type : PermissionUpdateType;
  rules : option (list PermissionRuleValue);
  behavior : option PermissionBehavior;
  mode : option PermissionMode;
  directories : option (list string);
  destination : option PermissionUpdateDestination;
}.

Record ToolPermissionContext := {
  signal : value;
  suggestions : value;
  blockedPath : value;
}.

(** [PermissionResult]. The leaves the code reads with [??] and
    [!== undefined] are values ([VUndefined] when the property is absent);
    [Unrecognized] is a callback result whose [behavior] is neither
    ["allow"] nor ["deny"]. *)
Inductive PermissionResult :=
| Allow (updatedInput : value)
        (updatedPermissions : option (list PermissionUpdate))
| Deny (message : value) (interrupt : value)
| Unrecognized.

(** The string each literal type stands for. *)
Definition mode_name (m : PermissionMode) : string :=
  match m with
  | ModeDefault => "default"
  | ModeAcceptEdits => "acceptEdits"
  | ModePlan => "plan"
  | ModeBypassPermissions => "bypassPermissions"
  end.

Definition destination_name (d : PermissionUpdateDestination) : string :=
  match d with
  | UserSettings => "userSettings"
  | ProjectSettings => "projectSettings"
  | LocalSettings => "localSettings"
  | Session => "session"
  end.

Definition behavior_name (b : PermissionBehavior) : string :=
  match b with
  | BehaviorAllow => "allow"
  | BehaviorDeny => "deny"
  | BehaviorAsk => "ask"
  end.

Definition type_name (t : PermissionUpdateType) : string :=
  match t with
  | AddRules => "addRules"
  | ReplaceRules => "replaceRules"
  | RemoveRules => "removeRules"
  | SetMode => "setMode"
  | AddDirectories => "addDirectories"
  | RemoveDirectories => "removeDirectories"
  end.

(** The JavaScript value of an optional property, and of one that may be
    [null]. *)
Definition optional {A} (f : A -> value) (o : option A) : value :=
  match o with
  | Some a => f a
  | None => VUndefined
  end.

Definition nullable {A} (f : A -> value) (o : option A) : value :=
  match o with
  | Some a => f a
  | None => VNull
  end.

End Types.
Import Types.

(** ** Wire conversions (src/query.ts, lines 53-108) *)

(** The object literal of line 70. *)
Definition serializeRule (rule : PermissionRuleValue) : value :=
  VObj [("toolName", VStr (toolName rule));
        ("ruleContent", coalesce (optional (nullable VStr) (ruleContent rule)) VNull)].

(** The body of the [updates.map] callback, lines 60-89. An array is truthy,
    so [if (update.rules)] and [if (update.directories)] ask whether the
    property is there. *)
Definition serializePermissionUpdate (update : PermissionUpdate) : obj :=
  let result := [("type", VStr (type_name (type update)))] in
  let destination' := optional (fun d => VStr (destination_name d)) (destination update) in
  let result :=
    if truthy destination' then set "destination" destination' result else result in
  let result :=
    match rules update with
    | Some rs => set "rules" (VArr (map serializeRule rs)) result
    | None => result
    end in
  let behavior' := optional (fun b => VStr (behavior_name b)) (behavior update) in
  let result :=
    if truthy behavior' then set "behavior" behavior' result else result in
  let mode' := optional (fun m => VStr (mode_name m)) (mode update) in
  let result :=
    if truthy mode' then set "mode" mode' result else result in
  let result :=
    match directories update with
    | Some ds => set "directories" (VArr (map VStr ds)) result
    | None => result
    end in
  result.

(** [serializePermissionUpdates]; [None] is [undefined]. *)
Definition serializePermissionUpdates
    (updates : option (list PermissionUpdate)) : option (list obj) :=
  match updates with
  | None => None
  | Some [] => None
  | Some us => Some (map serializePermissionUpdate us)
  end.

(** [convertHookOutputForCli]: the loop over [Object.entries(output)]. *)
Definition convertHookOutputForCli (output : obj) : obj :=
  fold_left
    (fun converted kv =>
       let '(key, value) := kv in
       if String.eqb key "async_" then set "async" value converted
       else if String.eqb key "continue_" then set "continue" value converted
       else assign key value converted)
    output [].

(** ** The in-process bridge (src/query.ts, lines 154-348)

    [InMemoryMcpTransport] and [McpServerBridge], as a transition system.
    A call of [handleRequest] is a task; its program counter says at which
    [await] it is suspended. An event is one continuation that the job queue
    runs, or one action of the wrapped service instance, of a timer or of the
    owner of the bridge. *)

Module Bridge.

(** [JsonRpcMessage] *)
Abbreviation JsonRpcMessage := (list (string * value)).

(** The wrapped [instance: unknown]: a value without methods, or an object
    of which we record whether [connect] and [close] are functions, or the
    member of [Object.prototype] of the given name (a function, or for
    [__proto__] the prototype itself), which is truthy and has neither a
    [connect] nor a [close]. *)
Inductive Instance :=
| Plain (v : value)
| Service (has_connect has_close : bool)
| Builtin (name : string).

(** [!instance] *)
Definition falsy_instance (i : Instance) : bool :=
  match i with
  | Plain v => negb (truthy v)
  | Service _ _ => false
  | Builtin _ => false
  end.

(** [!candidate || typeof candidate.connect !== "function"] *)
Definition lacks_connect (i : Instance) : bool :=
  match i with
  | Plain _ => true
  | Service has_connect _ => negb has_connect
  | Builtin _ => true
  end.

(** [candidate && typeof candidate.close === "function"] *)
Definition has_close (i : Instance) : bool :=
  match i with
  | Plain _ => false
  | Service _ has_close => has_close
  | Builtin _ => false
  end.

(** Where a [handleRequest] call is suspended. *)
Inductive pc :=
  (* line 274, [await this.queue], on the promise [q] *)
| AwaitQueue (q : nat)
  (* line 324, [await candidate.connect(this.transport)] *)
| AwaitConnect
  (* line 292, [await this.ensureConnected()], which has completed *)
| AwaitEnsure (r : completion unit)
  (* line 218, [await this.onmessage(message)]: a [deliver] in progress *)
| AwaitHandler
  (* line 293, [await this.transport.deliver(message)], which has completed *)
| AwaitDeliver (r : completion unit)
  (* line 304, inside [waitWithTimeout]: the timer is armed and
     [waitForResponse] runs as [loop] *)
| AwaitResponse (deadline : Z) (loop : nat)
  (* the promise of [processRequest] has settled *)
| Finished (r : settled).

Record task := Task {
  message : JsonRpcMessage;
  at_pc : pc;
}.

(** A run of [waitForResponse]: what its last [nextMessage()] gave. *)
Inductive loop_state :=
  (* a waiter of the outbound queue *)
| Waiting
| Got (r : AsyncQueue.iter_result JsonRpcMessage)
| Failed (e : value)
| Ended.

Record loop := Loop {
  owner : nat;
  normalizedId : string;
  l_state : loop_state;
}.

Record state := State {
  instance : Instance;
  (** [InMemoryMcpTransport] *)
  onmessage : bool;
  onerror : bool;
  outboundQueue : AsyncQueue.t JsonRpcMessage nat;
  closed : bool;
  (** [McpServerBridge] *)
  connected : bool;
  queue : nat;
  (** the calls made so far and their response loops *)
  tasks : list task;
  loops : list loop;
  (** how often [instance.connect] was invoked; the clock, in ms *)
  connectCalls : nat;
  now : Z;
}.

(** [new McpServerBridge(instance)]. Promise [0] is the initial
    [Promise.resolve()]; promise [S t] is the one that call [t] stores in
    [this.queue]. *)
Definition create (i : Instance) : state :=
  {| instance := i; onmessage := false; onerror := false;
     outboundQueue := AsyncQueue.empty; closed := false;
     connected := false; queue := 0;
     tasks := []; loops := []; connectCalls := 0; now := 0 |}.

Definition with_tasks (ts : list task) (s : state) : state :=
  {| instance := instance s; onmessage := onmessage s; onerror := onerror s;
     outboundQueue := outboundQueue s; closed := closed s;
     connected := connected s; queue := queue s;
     tasks := ts; loops := loops s;
     connectCalls := connectCalls s; now := now s |}.

Definition with_loops (ls : list loop) (s : state) : state :=
  {| instance := instance s; onmessage := onmessage s; onerror := onerror s;
     outboundQueue := outboundQueue s; closed := closed s;
     connected := connected s; queue := queue s;
     tasks := tasks s; loops := ls;
     connectCalls := connectCalls s; now := now s |}.

Definition with_outbound (q : AsyncQueue.t JsonRpcMessage nat) (s : state) : state :=
  {| instance := instance s; onmessage := onmessage s; onerror := onerror s;
     outboundQueue := q; closed := closed s;
     connected := connected s; queue := queue s;
     tasks := tasks s; loops := loops s;
     connectCalls := connectCalls s; now := now s |}.

Definition with_queue (q : nat) (s : state) : state :=
  {| instance := instance s; onmessage := onmessage s; onerror := onerror s;
     outboundQueue := outboundQueue s; closed := closed s;
     connected := connected s; queue := q;
     tasks := tasks s; loops := loops s;
     connectCalls := connectCalls s; now := now s |}.

Definition with_connected (b : bool) (s : state) : state :=
  {| instance := instance s; onmessage := onmessage s; onerror := onerror s;
     outboundQueue := outboundQueue s; closed := closed s;
     connected := b; queue := queue s;
     tasks := tasks s; loops := loops s;
     connectCalls := connectCalls s; now := now s |}.

Definition with_connectCalls (n : nat) (s : state) : state :=
  {| instance := instance s; onmessage := onmessage s; onerror := onerror s;
     outboundQueue := outboundQueue s; closed := closed s;
     connected := connected s; queue := queue s;
     tasks := tasks s; loops := loops s;
     connectCalls := n; now := now s |}.

Definition with_handlers (m e : bool) (s : state) : state :=
  {| instance := instance s; onmessage := m; onerror := e;
     outboundQueue := outboundQueue s; closed := closed s;
     connected := connected s; queue := queue s;
     tasks := tasks s; loops := loops s;
     connectCalls := connectCalls s; now := now s |}.

Definition with_closed (b : bool) (s : state) : state :=
  {| instance := instance s; onmessage := onmessage s; onerror := onerror s;
     outboundQueue := outboundQueue s; closed := b;
     connected := connected s; queue := queue s;
     tasks := tasks s; loops := loops s;
     connectCalls := connectCalls s; now := now s |}.

Definition with_now (t : Z) (s : state) : state :=
  {| instance := instance s; onmessage := onmessage s; onerror := onerror s;
     outboundQueue := outboundQueue s; closed := closed s;
     connected := connected s; queue := queue s;
     tasks := tasks s; loops := loops s;
     connectCalls := connectCalls s; now := t |}.

Definition set_pc (t : nat) (p : pc) (s : state) : state :=
  match tasks s !! t with
  | Some tk => with_tasks (<[t := Task (message tk) p]> (tasks s)) s
  | None => s
  end.

Definition set_loop (l : nat) (st : loop_state) (s : state) : state :=
  match loops s !! l with
  | Some lp => with_loops (<[l := Loop (owner lp) (normalizedId lp) st]> (loops s)) s
  | None => s
  end.

Definition pc_of (t : nat) (s : state) : option pc :=
  at_pc <$> tasks s !! t.

Definition is_finished (p : pc) : bool :=
  match p with
  | Finished _ => true
  | _ => false
  end.

(** Whether the promise [q] that a call awaits at line 274 has settled:
    the initial one has, [S t] has once [processRequest] of call [t] has
    (lines 276-278 turn either outcome into a fulfilment). *)
Definition queue_settled (q : nat) (s : state) : bool :=
  match q with
  | 0 => true
  | S t =>
      match pc_of t s with
      | Some p => is_finished p
      | None => false
      end
  end.

Definition timeoutMs : Z := 60000.

Definition err_deliver_closed : value := VError "MCP 传输已关闭。".
Definition err_no_handler : value := VError "MCP 传输尚未初始化消息处理器。".
Definition err_timeout : value := VError "等待 MCP 响应超时。".
Definition err_no_connect : value := VError "MCP 服务器实例缺少 connect() 方法。".
Definition err_connection_closed : value := VError "MCP 服务器连接已关闭。".

(** Lines 337-340: the identifier of a pulled message. *)
Definition messageId (m : JsonRpcMessage) : option string :=
  let id := get "id" m in
  if nullish id then None else Some (toString id).

(** Lines 297-301: the reply to a message without identifier. *)
Definition notificationReply (m : JsonRpcMessage) : JsonRpcMessage :=
  [("jsonrpc", match get "jsonrpc" m with
               | VStr v => VStr v
               | _ => VStr "2.0"
               end);
   ("id", VNull);
   ("result", VNull)].

(** Line 220: [error instanceof Error ? error : new Error(String(error))] *)
Definition asError (e : value) : value :=
  match e with
  | VError _ => e
  | _ => VError (toString e)
  end.

(** *** Events *)

Inductive event :=
  (* [handleRequest(m)] is called and suspends at line 274 *)
| Call (m : JsonRpcMessage)
  (* call [t] continues after line 274 *)
| Resume (t : nat)
  (* what [connect] returned to call [t] settles (a synchronous throw
     of [connect] is a rejection) and [ensureConnected] continues *)
| ConnectSettles (t : nat) (r : settled)
  (* [processRequest] of call [t] continues after line 292 or 293 *)
| Continue (t : nat)
  (* [onmessage(message)] of call [t] settles and [deliver] continues *)
| HandlerSettles (t : nat) (r : settled)
  (* the instance calls [transport.send(m)]; on a closed transport the
     call throws back to the instance and the bridge is as before *)
| Send (m : JsonRpcMessage)
  (* [waitForResponse] run [l] continues after line 332 *)
| LoopStep (l : nat)
  (* the timer of line 245 fires for call [t] *)
| Timeout (t : nat)
  (* [ms] milliseconds pass *)
| Tick (ms : Z)
  (* the instance assigns or clears [onmessage] and [onerror] *)
| Assign (onmessage onerror : bool)
  (* [close()] of the bridge is called *)
| Close.

(** Lines 311-326, up to the first suspension. *)
Definition ensureConnected (t : nat) (s : state) : state :=
  if connected s then set_pc t (AwaitEnsure (Normal tt)) s
  else if lacks_connect (instance s)
  then set_pc t (AwaitEnsure (Throw err_no_connect)) s
  else with_connectCalls (S (connectCalls s)) (set_pc t AwaitConnect s).

(** Lines 209-218, up to the first suspension. *)
Definition deliver (t : nat) (s : state) : state :=
  if closed s then set_pc t (AwaitDeliver (Throw err_deliver_closed)) s
  else if negb (onmessage s) then set_pc t (AwaitDeliver (Throw err_no_handler)) s
  else set_pc t AwaitHandler s.

Definition loop_state_of
    (r : AsyncQueue.next_result JsonRpcMessage) : loop_state :=
  match r with
  | AsyncQueue.NextRejected e => Failed e
  | AsyncQueue.NextResolved x => Got x
  | AsyncQueue.NextPending => Waiting
  end.

(** Lines 229-235 as called at line 332: loop [l] asks for the next
    outbound message. *)
Definition nextMessage (l : nat) (s : state) : state :=
  let '(q, r) := AsyncQueue.next l (outboundQueue s) in
  set_loop l (loop_state_of r) (with_outbound q s).

(** Lines 295-308: after [deliver], reply at once to a message without
    identifier, or start [waitForResponse], which asks for the next outbound
    message, and arm the timer of [waitWithTimeout]. *)
Definition awaitReply (t : nat) (m : JsonRpcMessage) (s : state) : state :=
  let requestId := coalesce (get "id" m) VNull in
  if nullish requestId
  then set_pc t (Finished (Resolved (VObj (notificationReply m)))) s
  else
    let l := length (loops s) in
    let '(q, r) := AsyncQueue.next l (outboundQueue s) in
    let started := Loop t (toString requestId) (loop_state_of r) in
    set_pc t (AwaitResponse (now s + timeoutMs) l)
           (with_loops (loops s ++ [started]) (with_outbound q s)).

(** Lines 249-262: [waitForResponse] run [l] has settled to [r]; its owner
    takes [r] unless its timer has fired already. *)
Definition settle (l : nat) (r : settled) (s : state) : state :=
  match loops s !! l with
  | Some lp =>
      match pc_of (owner lp) s with
      | Some (AwaitResponse _ l') =>
          if Nat.eqb l' l then set_pc (owner lp) (Finished r) s else s
      | _ => s
      end
  | None => s
  end.

Definition wake_closed (s : state) (l : nat) : state :=
  set_loop l (Got AsyncQueue.IterDone) s.

(** [InMemoryMcpTransport.close()], lines 198-203, up to the call of
    [onclose]: a second call does nothing; the first closes the outbound
    queue, which resolves the waiting [nextMessage()] calls with [done]. *)
Definition closeTransport (s : state) : state :=
  if closed s then s
  else
    let '(q, woken) := AsyncQueue.close (outboundQueue s) in
    fold_left wake_closed woken (with_outbound q (with_closed true s)).

Definition step (e : event) (s : state) : option state :=
  match e with
  | Call m =>
      Some (with_tasks (tasks s ++ [Task m (AwaitQueue (queue s))]) s)
  | Resume t =>
      match pc_of t s with
      | Some (AwaitQueue q) =>
          if queue_settled q s
          then Some (with_queue (S t) (ensureConnected t s))
          else None
      | _ => None
      end
  | ConnectSettles t r =>
      match pc_of t s with
      | Some AwaitConnect =>
          match r with
          | Resolved _ =>
              Some (set_pc t (AwaitEnsure (Normal tt)) (with_connected true s))
          | Rejected e =>
              Some (set_pc t (AwaitEnsure (Throw e)) s)
          end
      | _ => None
      end
  | Continue t =>
      match tasks s !! t with
      | Some (Task m (AwaitEnsure (Normal _))) => Some (deliver t s)
      | Some (Task m (AwaitEnsure (Throw e))) =>
          Some (set_pc t (Finished (Rejected e)) s)
      | Some (Task m (AwaitDeliver (Normal _))) => Some (awaitReply t m s)
      | Some (Task m (AwaitDeliver (Throw e))) =>
          Some (set_pc t (Finished (Rejected e)) s)
      | _ => None
      end
  | HandlerSettles t r =>
      match pc_of t s with
      | Some AwaitHandler =>
          match r with
          | Resolved _ => Some (set_pc t (AwaitDeliver (Normal tt)) s)
          | Rejected e =>
              if onerror s
              then Some (set_pc t (AwaitDeliver (Normal tt)) s)
              else Some (set_pc t (AwaitDeliver (Throw (asError e))) s)
          end
      | _ => None
      end
  | Send m =>
      if closed s then Some s
      else
        match AsyncQueue.push m (outboundQueue s) with
        | Throw _ => Some s
        | Normal (q, None) => Some (with_outbound q s)
        | Normal (q, Some (l, r)) => Some (set_loop l (Got r) (with_outbound q s))
        end
  | LoopStep l =>
      match loops s !! l with
      | Some (Loop _ id (Got (AsyncQueue.IterValue m))) =>
          if decide (messageId m = Some id)
          then Some (settle l (Resolved (VObj m)) (set_loop l Ended s))
          else Some (nextMessage l s)
      | Some (Loop _ _ (Got AsyncQueue.IterDone)) =>
          Some (settle l (Rejected err_connection_closed) (set_loop l Ended s))
      | Some (Loop _ _ (Failed e)) =>
          Some (settle l (Rejected e) (set_loop l Ended s))
      | _ => None
      end
  | Timeout t =>
      match pc_of t s with
      | Some (AwaitResponse deadline _) =>
          if (deadline <=? now s)%Z
          then Some (set_pc t (Finished (Rejected err_timeout)) s)
          else None
      | _ => None
      end
  | Tick ms =>
      if (0 <=? ms)%Z then Some (with_now (now s + ms)%Z s) else None
  | Assign m e => Some (with_handlers m e s)
  | Close => Some (closeTransport s)
  end.

(** A run: the events in order; [None] when one of them cannot happen. *)
Fixpoint run (es : list event) (s : state) : option state :=
  match es with
  | [] => Some s
  | e :: es' =>
      match step e s with
      | Some s' => run es' s'
      | None => None
      end
  end.

(** What the wrapped instance does while the bridge is closed: [onclose] is
    how the call [this.onclose()] of line 205 completes ([Normal] when no
    [onclose] is set), and [instanceClose] is what [candidate.close()] of
    line 287 settles to, [None] when it never settles (a throw of [close]
    is a rejection). *)
Record closing := Closing {
  onclose : completion unit;
  instanceClose : option settled;
}.

(** [McpServerBridge.close()], lines 282-289: the bridge after the call,
    and what the promise of [close()] settles to, [None] when it stays
    pending. The transport is closed first; [onclose] is called only by the
    call that closes it, and when it throws, [close()] rejects before it
    looks at the instance. *)
Definition close (c : closing) (s : state) : state * option settled :=
  let transportClosed := if closed s then Normal tt else onclose c in
  (closeTransport s,
   match transportClosed with
   | Throw e => Some (Rejected e)
   | Normal _ =>
       if has_close (instance s) then instanceClose c
       else Some (Resolved VUndefined)
   end).

(** What [handleRequest] call [t] has settled to, if it has. *)
Definition outcome (t : nat) (s : state) : option settled :=
  match pc_of t s with
  | Some (Finished r) => Some r
  | _ => None
  end.

(** The calls whose [deliver] is in progress: [onmessage] has been invoked
    with their message and has not settled. *)
Definition in_deliver (s : state) (t : nat) : bool :=
  match pc_of t s with
  | Some AwaitHandler => true
  | _ => false
  end.

Definition delivering (s : state) : list nat :=
  List.filter (in_deliver s) (seq 0 (length (tasks s))).

End Bridge.

(** ** The protocol engine (src/query.ts, lines 350-688) *)

(** Lines 558-582 of [handleControlRequest]: the payload for the decision of
    the permission callback, [input] being the request's input. *)
Definition permissionPayload (input : value) (decision : PermissionResult)
  : completion obj :=
  match decision with
  | Allow updatedInput updatedPermissions =>
      let responsePayload :=
        [("behavior", VStr "allow");
         ("updatedInput", coalesce updatedInput input)] in
      match serializePermissionUpdates updatedPermissions with
      | Some permissionUpdates =>
          Normal (set "updatedPermissions" (VArr (map VObj permissionUpdates))
                      responsePayload)
      | None => Normal responsePayload
      end
  | Deny message interrupt =>
      let responsePayload :=
        [("behavior", VStr "deny");
         ("message", coalesce message (VStr ""))] in
      match interrupt with
      | VUndefined => Normal responsePayload
      | _ => Normal (set "interrupt" interrupt responsePayload)
      end
  | Unrecognized =>
      Throw (VError "canUseTool 回调返回了未知的 PermissionResult 类型。")
  end.

Module Query.

Abbreviation SDKMessage := (list (string * value)).

(** [HookMatcher]; a callback is named by a number. *)
Record HookMatcher := {
  matcher : value;
  hooks : option (list nat);
}.

(** The constructor's options, which never change. [canUseTool] says
    whether a permission callback was given. *)
Record options := {
  canUseTool : bool;
  hooksOption : option (list (string * list HookMatcher));
  isStreamingMode : bool;
  sdkMcpServers : gmap string Bridge.Instance;
}.

(** The engine. [bridges] is the store of the [McpServerBridge] objects
    that exist, [sdkMcpBridges] maps a server name to one of them.
    A promise of [sendControlRequest] is named by the value that
    [requestCounter] had when it was made. [written] is the transport: the
    lines written so far, each as the JSON document it carries, and
    [endInputCalls] how often [transport.endInput()] was called. [handed]
    lists the promises of the consumers of [receiveMessages()] that the
    engine has settled, in order, each with what it was settled to. *)
Record t := {
  opts : options;
  sdkMcpBridges : gmap string nat;
  bridges : list Bridge.state;
  messageQueue : AsyncQueue.t SDKMessage nat;
  pendingControlRequests : gmap string nat;
  hookCallbacks : gmap string nat;
  readLoopStarted : bool;
  requestCounter : nat;
  closed : bool;
  initializationResult : value;
  written : list value;
  endInputCalls : nat;
  handed : list (nat * AsyncQueue.next_result SDKMessage);
}.

(** [new Query(options)] *)
Definition create (o : options) : t :=
  {| opts := o; sdkMcpBridges := ∅; bridges := [];
     messageQueue := AsyncQueue.empty; pendingControlRequests := ∅;
     hookCallbacks := ∅; readLoopStarted := false; requestCounter := 0;
     closed := false; initializationResult := VNull; written := [];
     endInputCalls := 0; handed := [] |}.

Definition with_bridges (m : gmap string nat) (bs : list Bridge.state) (q : t) : t :=
  {| opts := opts q; sdkMcpBridges := m; bridges := bs;
     messageQueue := messageQueue q;
     pendingControlRequests := pendingControlRequests q;
     hookCallbacks := hookCallbacks q; readLoopStarted := readLoopStarted q;
     requestCounter := requestCounter q; closed := closed q;
     initializationResult := initializationResult q; written := written q;
     endInputCalls := endInputCalls q; handed := handed q |}.

Definition with_messageQueue (mq : AsyncQueue.t SDKMessage nat) (q : t) : t :=
  {| opts := opts q; sdkMcpBridges := sdkMcpBridges q; bridges := bridges q;
     messageQueue := mq;
     pendingControlRequests := pendingControlRequests q;
     hookCallbacks := hookCallbacks q; readLoopStarted := readLoopStarted q;
     requestCounter := requestCounter q; closed := closed q;
     initializationResult := initializationResult q; written := written q;
     endInputCalls := endInputCalls q; handed := handed q |}.

Definition with_pending (p : gmap string nat) (q : t) : t :=
  {| opts := opts q; sdkMcpBridges := sdkMcpBridges q; bridges := bridges q;
     messageQueue := messageQueue q;
     pendingControlRequests := p;
     hookCallbacks := hookCallbacks q; readLoopStarted := readLoopStarted q;
     requestCounter := requestCounter q; closed := closed q;
     initializationResult := initializationResult q; written := written q;
     endInputCalls := endInputCalls q; handed := handed q |}.

Definition with_hookCallbacks (h : gmap string nat) (q : t) : t :=
  {| opts := opts q; sdkMcpBridges := sdkMcpBridges q; bridges := bridges q;
     messageQueue := messageQueue q;
     pendingControlRequests := pendingControlRequests q;
     hookCallbacks := h; readLoopStarted := readLoopStarted q;
     requestCounter := requestCounter q; closed := closed q;
     initializationResult := initializationResult q; written := written q;
     endInputCalls := endInputCalls q; handed := handed q |}.

Definition with_requestCounter (n : nat) (q : t) : t :=
  {| opts := opts q; sdkMcpBridges := sdkMcpBridges q; bridges := bridges q;
     messageQueue := messageQueue q;
     pendingControlRequests := pendingControlRequests q;
     hookCallbacks := hookCallbacks q; readLoopStarted := readLoopStarted q;
     requestCounter := n; closed := closed q;
     initializationResult := initializationResult q; written := written q;
     endInputCalls := endInputCalls q; handed := handed q |}.

Definition with_initializationResult (v : value) (q : t) : t :=
  {| opts := opts q; sdkMcpBridges := sdkMcpBridges q; bridges := bridges q;
     messageQueue := messageQueue q;
     pendingControlRequests := pendingControlRequests q;
     hookCallbacks := hookCallbacks q; readLoopStarted := readLoopStarted q;
     requestCounter := requestCounter q; closed := closed q;
     initializationResult := v; written := written q;
     endInputCalls := endInputCalls q; handed := handed q |}.

Definition with_readLoopStarted (b : bool) (q : t) : t :=
  {| opts := opts q; sdkMcpBridges := sdkMcpBridges q; bridges := bridges q;
     messageQueue := messageQueue q;
     pendingControlRequests := pendingControlRequests q;
     hookCallbacks := hookCallbacks q; readLoopStarted := b;
     requestCounter := requestCounter q; closed := closed q;
     initializationResult := initializationResult q; written := written q;
     endInputCalls := endInputCalls q; handed := handed q |}.

Definition with_closed (b : bool) (q : t) : t :=
  {| opts := opts q; sdkMcpBridges := sdkMcpBridges q; bridges := bridges q;
     messageQueue := messageQueue q;
     pendingControlRequests := pendingControlRequests q;
     hookCallbacks := hookCallbacks q; readLoopStarted := readLoopStarted q;
     requestCounter := requestCounter q; closed := b;
     initializationResult := initializationResult q; written := written q;
     endInputCalls := endInputCalls q; handed := handed q |}.

Definition with_written (w : list value) (q : t) : t :=
  {| opts := opts q; sdkMcpBridges := sdkMcpBridges q; bridges := bridges q;
     messageQueue := messageQueue q;
     pendingControlRequests := pendingControlRequests q;
     hookCallbacks := hookCallbacks q; readLoopStarted := readLoopStarted q;
     requestCounter := requestCounter q; closed := closed q;
     initializationResult := initializationResult q; written := w;
     endInputCalls := endInputCalls q; handed := handed q |}.

Definition with_endInputCalls (n : nat) (q : t) : t :=
  {| opts := opts q; sdkMcpBridges := sdkMcpBridges q; bridges := bridges q;
     messageQueue := messageQueue q;
     pendingControlRequests := pendingControlRequests q;
     hookCallbacks := hookCallbacks q; readLoopStarted := readLoopStarted q;
     requestCounter := requestCounter q; closed := closed q;
     initializationResult := initializationResult q; written := written q;
     endInputCalls := n; handed := handed q |}.

Definition with_handed (h : list (nat * AsyncQueue.next_result SDKMessage)) (q : t) : t :=
  {| opts := opts q; sdkMcpBridges := sdkMcpBridges q; bridges := bridges q;
     messageQueue := messageQueue q;
     pendingControlRequests := pendingControlRequests q;
     hookCallbacks := hookCallbacks q; readLoopStarted := readLoopStarted q;
     requestCounter := requestCounter q; closed := closed q;
     initializationResult := initializationResult q; written := written q;
     endInputCalls := endInputCalls q; handed := h |}.

(** The message queue becomes [mq], and the consumers [woken] are settled
    with [r]. *)
Definition settleConsumers (mq : AsyncQueue.t SDKMessage nat) (woken : list nat)
    (r : AsyncQueue.next_result SDKMessage) (q : t) : t :=
  with_handed (handed q ++ map (fun w => (w, r)) woken)%list (with_messageQueue mq q).

(** [transport.write(line)]. Whether the transport accepts a line is the
    transport's affair: [accepts line] is [Throw e] when the write rejects
    with [e]. *)
Definition write (accepts : value -> completion unit) (line : value) (q : t)
  : t * completion unit :=
  match accepts line with
  | Normal _ => (with_written (written q ++ [line])%list q, Normal tt)
  | Throw e => (q, Throw e)
  end.

(** [v.k] for a [v] that is not [undefined] or [null]. Only plain objects
    have the properties this code reads. *)
Definition read (k : string) (v : value) : value :=
  match v with
  | VObj fields => get k fields
  | _ => VUndefined
  end.

(** [v.k] for any [v]. *)
Definition prop (k : string) (v : value) : completion value :=
  if nullish v
  then Throw (VError ("Cannot read properties of " ++ toString v
                      ++ " (reading '" ++ k ++ "')"))
  else Normal (read k v).

(** The named properties of a value that is used as a record: an array or
    an [Error] has none of those this code reads. *)
Definition as_record (v : value) : list (string * value) :=
  match v with
  | VObj fields => fields
  | _ => []
  end.

(** Lines 33-51. *)
Definition isControlResponseMessage (message : SDKMessage) : bool :=
  is_string "control_response" (get "type" message).

Definition isControlRequestMessage (message : SDKMessage) : bool :=
  is_string "control_request" (get "type" message).

(** *** [handleControlResponse] (lines 506-523) *)

(** [this.pendingControlRequests.get(requestId)]: the keys are strings. *)
Definition pending_get (requestId : value) (q : t) : option nat :=
  match requestId with
  | VStr id => pendingControlRequests q !! id
  | _ => None
  end.

Definition pending_delete (requestId : value) (q : t) : t :=
  match requestId with
  | VStr id => with_pending (delete id (pendingControlRequests q)) q
  | _ => q
  end.

(** The result: the new engine and, when a pending request matched, its
    promise with what it is settled to. *)
Definition handleControlResponse (message : SDKMessage) (q : t)
  : completion (t * option (nat * settled)) :=
  let response := get "response" message in
  bind (prop "request_id" response) (fun requestId =>
  match pending_get requestId q with
  | None => Normal (q, None)
  | Some pending =>
      let q := pending_delete requestId q in
      if is_string "error" (read "subtype" response)
      then
        Normal (q, Some (pending,
          Rejected (VError (toString
            (coalesce (read "error" response)
                      (VStr "控制通道返回未知错误。"))))))
      else
        Normal (q, Some (pending,
          Resolved (coalesce (read "response" response) (VObj []))))
  end).

(** *** [sendControlRequest] (lines 637-671) *)

Definition err_not_streaming : value := VError "控制请求仅在流式模式下可用。".

(** Line 643; [hex] is [randomBytes(4).toString("hex")]. *)
Definition requestIdOf (counter : nat) (hex : string) : string :=
  "req_" ++ pretty counter ++ "_" ++ hex.

(** Lines 640-659, until the call waits for its response: the request
    identifier and the promise registered under it. *)
Definition sendControlRequest_begin
    (accepts : value -> completion unit) (hex : string)
    (request : list (string * value)) (q : t)
  : t * completion (string * nat) :=
  if negb (isStreamingMode (opts q)) then (q, Throw err_not_streaming)
  else
    let counter := S (requestCounter q) in
    let requestId := requestIdOf counter hex in
    let payload :=
      json (VObj [("type", VStr "control_request");
                  ("request_id", VStr requestId);
                  ("request", VObj request)]) in
    let q := with_requestCounter counter q in
    let q := with_pending (<[requestId := counter]> (pendingControlRequests q)) q in
    match write accepts payload q with
    | (q, Normal _) => (q, Normal (requestId, counter))
    | (q, Throw e) => (q, Throw e)
    end.

(** Lines 661-670: the wait has ended with [r]. *)
Definition sendControlRequest_end (requestId : string) (r : settled) (q : t)
  : t * settled :=
  let q := with_pending (delete requestId (pendingControlRequests q)) q in
  match r with
  | Resolved v => (q, Resolved v)
  | Rejected error =>
      match message_of error with
      | Normal m => (q, Rejected (VError ("控制请求失败：" ++ toString m)))
      | Throw e => (q, Rejected e)
      end
  end.

(** *** [buildHookConfig] (lines 110-152) and [initialize] (lines 396-413) *)

(** Lines 129-133; [rand i] is the [i]-th draw of
    [randomBytes(4).toString("hex")]. The result lists what [register] is
    called with, and gives the number of draws made so far. *)
Fixpoint registerCallbacks (rand : nat -> string) (i : nat) (callbacks : list nat)
  : list (string * nat) * nat :=
  match callbacks with
  | [] => ([], i)
  | callback :: rest =>
      let callbackId := "hook_" ++ rand i in
      let '(registered, j) := registerCallbacks rand (S i) rest in
      ((callbackId, callback) :: registered, j)
  end.

(** Lines 126-140. *)
Fixpoint matcherConfigs (rand : nat -> string) (i : nat) (matchers : list HookMatcher)
  : list value * list (string * nat) * nat :=
  match matchers with
  | [] => ([], [], i)
  | m :: rest =>
      let '(registered, j) :=
        match hooks m with
        | Some callbacks => registerCallbacks rand i callbacks
        | None => ([], i)
        end in
      let config :=
        VObj [("matcher", coalesce (matcher m) VNull);
              ("hookCallbackIds", VArr (map (fun r => VStr (fst r)) registered))] in
      let '(configs, registered', k) := matcherConfigs rand j rest in
      (config :: configs, (registered ++ registered')%list, k)
  end.

(** Lines 120-145. *)
Fixpoint hookEvents (rand : nat -> string) (i : nat)
    (events : list (string * list HookMatcher)) (config : list (string * value))
  : list (string * value) * list (string * nat) * nat :=
  match events with
  | [] => (config, [], i)
  | (event, matchers) :: rest =>
      match matchers with
      | [] => hookEvents rand i rest config
      | _ =>
          let '(configs, registered, j) := matcherConfigs rand i matchers in
          let '(config', registered', k) :=
            hookEvents rand j rest (assign event (VArr configs) config) in
          (config', (registered ++ registered')%list, k)
      end
  end.

(** [buildHookConfig]: the configuration ([None] for [undefined]), the
    calls of [register] in order, and the number of draws. *)
Definition buildHookConfig (rand : nat -> string)
    (hooks : option (list (string * list HookMatcher)))
  : option (list (string * value)) * list (string * nat) * nat :=
  match hooks with
  | None => (None, [], 0)
  | Some events =>
      let '(config, registered, n) := hookEvents rand 0 events [] in
      match config with
      | [] => (None, registered, n)
      | _ => (Some config, registered, n)
      end
  end.

Inductive initializing :=
| InitReturns (result : value)
| InitRejects (e : value)
| InitAwaits (requestId : string) (promise : nat).

(** Lines 397-409. *)
Definition initialize_begin
    (accepts : value -> completion unit) (rand : nat -> string) (q : t)
  : t * initializing :=
  if negb (isStreamingMode (opts q))
  then (with_initializationResult VNull q, InitReturns VNull)
  else
    let '(hookConfig, registered, n) := buildHookConfig rand (hooksOption (opts q)) in
    let q :=
      with_hookCallbacks
        (fold_left (fun m r => <[fst r := snd r]> m) registered (hookCallbacks q)) q in
    let request :=
      [("subtype", VStr "initialize");
       ("hooks", match hookConfig with
                 | Some c => VObj c
                 | None => VNull
                 end)] in
    match sendControlRequest_begin accepts (rand n) request q with
    | (q, Normal (requestId, promise)) => (q, InitAwaits requestId promise)
    | (q, Throw e) => (q, InitRejects e)
    end.

(** Lines 406-412, once the response has settled. *)
Definition initialize_end (requestId : string) (r : settled) (q : t) : t * settled :=
  match sendControlRequest_end requestId r q with
  | (q, Resolved response) => (with_initializationResult response q, Resolved response)
  | (q, Rejected e) => (q, Rejected e)
  end.

(** Lines 449-451. *)
Definition getInitializationResult (q : t) : value :=
  initializationResult q.

(** *** [getOrCreateMcpServerBridge] (lines 673-687) *)

(** The names that a plain object inherits from [Object.prototype]. *)
Definition inheritedNames : list string :=
  ["constructor"; "__defineGetter__"; "__defineSetter__"; "hasOwnProperty";
   "__lookupGetter__"; "__lookupSetter__"; "isPrototypeOf";
   "propertyIsEnumerable"; "toString"; "valueOf"; "__proto__";
   "toLocaleString"].

(** [this.sdkMcpServers[serverName]], line 679. [sdkMcpServers] is a plain
    object (the constructor's default is [{}]): the read finds the
    instance registered under the name, and for a name that is not
    registered the member of [Object.prototype] of that name, if there is
    one. *)
Definition lookupServer (serverName : string) (o : options) : option Bridge.Instance :=
  match sdkMcpServers o !! serverName with
  | Some instance => Some instance
  | None =>
      if existsb (String.eqb serverName) inheritedNames
      then Some (Bridge.Builtin serverName)
      else None
  end.

Definition getOrCreateMcpServerBridge (serverName : string) (q : t)
  : completion (t * nat) :=
  match sdkMcpBridges q !! serverName with
  | Some bridge => Normal (q, bridge)
  | None =>
      match lookupServer serverName (opts q) with
      | Some instance =>
          if Bridge.falsy_instance instance
          then Throw (VError ("未找到名为 " ++ serverName ++ " 的 SDK MCP 服务器实例。"))
          else
            let bridge := length (bridges q) in
            Normal (with_bridges (<[serverName := bridge]> (sdkMcpBridges q))
                                 (bridges q ++ [Bridge.create instance])%list q,
                    bridge)
      | None =>
          Throw (VError ("未找到名为 " ++ serverName ++ " 的 SDK MCP 服务器实例。"))
      end
  end.

(** *** [handleControlRequest] (lines 525-635) *)

(** The promise a handler is suspended on. *)
Inductive suspension :=
  (* line 556, [await this.canUseTool(toolName, input, context)] *)
| OnCanUseTool (toolName : string) (input : value) (context : ToolPermissionContext)
  (* line 589, [await callback(input, toolUseId, { signal: null })] *)
| OnHookCallback (callback : nat) (input : value) (toolUseId : value)
  (* line 607, [await bridge.handleRequest(message)] *)
| OnBridge (bridge : nat) (call : nat).

(** What such a promise is fulfilled with. *)
Definition answer (s : suspension) : Type :=
  match s with
  | OnCanUseTool _ _ _ => PermissionResult
  | OnHookCallback _ _ _ => list (string * value)
  | OnBridge _ _ => value
  end.

(** Line 607: [handleRequest(message)] is called on bridge [b]. *)
Definition callBridge (b : nat) (message : value) (q : t) : t * nat :=
  match bridges q !! b with
  | Some s =>
      match Bridge.step (Bridge.Call (as_record message)) s with
      | Some s' =>
          (with_bridges (sdkMcpBridges q) (<[b := s']> (bridges q)) q,
           length (Bridge.tasks s))
      | None => (q, 0)
      end
  | None => (q, 0)
  end.

(** Lines 533-613, from the [try] to the first [await]. *)
Definition dispatch (subtype requestBody : value) (q : t)
  : completion (t * suspension) :=
  if negb (truthy subtype) then Throw (VError "控制请求缺少 subtype 字段。")
  else if is_string "can_use_tool" subtype then
    if negb (canUseTool (opts q))
    then Throw (VError "未提供 canUseTool 回调，无法处理工具权限请求。")
    else
      let toolName := toString (coalesce (read "tool_name" requestBody) (VStr "")) in
      let input := coalesce (read "input" requestBody) (VObj []) in
      let suggestions :=
        coalesce (read "permission_suggestions" requestBody) (VArr []) in
      let context :=
        {| signal := VNull;
           suggestions := suggestions;
           blockedPath := coalesce (read "blocked_path" requestBody) VNull |} in
      Normal (q, OnCanUseTool toolName input context)
  else if is_string "hook_callback" subtype then
    let callbackId := toString (coalesce (read "callback_id" requestBody) (VStr "")) in
    match hookCallbacks q !! callbackId with
    | None => Throw (VError ("未找到 hook 回调：" ++ callbackId))
    | Some callback =>
        Normal (q, OnHookCallback callback
                     (read "input" requestBody)
                     (coalesce (read "tool_use_id" requestBody) VNull))
    end
  else if is_string "mcp_message" subtype then
    let serverName := toString (coalesce (read "server_name" requestBody) (VStr "")) in
    if String.eqb serverName ""
    then Throw (VError "MCP 控制请求缺少 server_name。")
    else
      let message := read "message" requestBody in
      if negb (truthy message) || negb (typeof_object message)
      then Throw (VError "MCP 控制请求缺少有效的 message 字段。")
      else
        bind (getOrCreateMcpServerBridge serverName q) (fun '(q, bridge) =>
        let '(q, call) := callBridge bridge message q in
        Normal (q, OnBridge bridge call))
  else Throw (VError ("不支持的控制请求子类型：" ++ toString subtype)).

(** The rest of the [try] up to line 613: the payload, once the awaited
    promise has settled to [a]. *)
Definition resume (s : suspension)
  : completion (answer s) -> completion (list (string * value)) :=
  match s with
  | OnCanUseTool _ input _ => fun a => bind a (permissionPayload input)
  | OnHookCallback _ _ _ => fun a => bind a (fun hookOutput =>
      Normal (convertHookOutputForCli hookOutput))
  | OnBridge _ _ => fun a => bind a (fun mcpResponse =>
      Normal [("mcp_response", mcpResponse)])
  end.

(** Lines 615-622 and 625-632: the documents of the two lines. *)
Definition successLine (requestId : value) (responsePayload : list (string * value))
  : value :=
  json (VObj [("type", VStr "control_response");
              ("response", VObj [("subtype", VStr "success");
                                 ("request_id", requestId);
                                 ("response", VObj responsePayload)])]).

Definition failureLine (requestId : value) (error : value) : completion value :=
  bind (message_of error) (fun m =>
  Normal (json (VObj [("type", VStr "control_response");
                      ("response", VObj [("subtype", VStr "error");
                                         ("request_id", requestId);
                                         ("error", m)])]))).

(** Lines 615-634: [r] is how the [try] went up to line 613. *)
Definition respond (accepts : value -> completion unit) (requestId : value)
    (r : completion (list (string * value))) (q : t) : t * completion unit :=
  let '(q, tried) :=
    match r with
    | Normal responsePayload => write accepts (successLine requestId responsePayload) q
    | Throw e => (q, Throw e)
    end in
  match tried with
  | Normal _ => (q, Normal tt)
  | Throw error =>
      match failureLine requestId error with
      | Normal line => write accepts line q
      | Throw e => (q, Throw e)
      end
  end.

(** The handler until it first suspends. *)
Inductive started :=
  (* it threw before the [try]: its promise rejects *)
| Rejects (e : value)
  (* it threw inside the [try] *)
| Caught (e : value)
| Suspended (s : suspension).

(** Lines 528-613, until the handler suspends. *)
Definition handleControlRequest_begin (request : SDKMessage) (q : t) : t * started :=
  let requestBody := get "request" request in
  match prop "subtype" requestBody with
  | Throw e => (q, Rejects e)
  | Normal subtype =>
      match dispatch subtype requestBody q with
      | Throw e => (q, Caught e)
      | Normal (q, s) => (q, Suspended s)
      end
  end.

(** The whole handler. [settles s] is what the promise the handler
    suspends on settles to; the result is how the promise of the handler
    itself settles. *)
Definition handleControlRequest
    (accepts : value -> completion unit)
    (settles : forall s : suspension, completion (answer s))
    (request : SDKMessage) (q : t) : t * completion unit :=
  let requestId := get "request_id" request in
  match handleControlRequest_begin request q with
  | (q, Rejects e) => (q, Throw e)
  | (q, Caught e) => respond accepts requestId (Throw e) q
  | (q, Suspended s) => respond accepts requestId (resume s (settles s)) q
  end.

(** *** The read loop (lines 475-504) *)

Inductive iteration :=
| Break
| Continue
| Throws (e : value).

(** One iteration of the [for await], lines 478-497. A control request
    starts a handler, whose promise the loop drops ([void]); the handler
    is returned as it stands when the loop goes on. *)
Definition readLoop_iteration (message : SDKMessage) (q : t)
  : t * iteration * option started :=
  if closed q then (q, Break, None)
  else if isControlResponseMessage message then
    match handleControlResponse message q with
    | Normal (q, _) => (q, Continue, None)
    | Throw e => (q, Throws e, None)
    end
  else if isControlRequestMessage message then
    let '(q, h) := handleControlRequest_begin message q in
    (q, Continue, Some h)
  else if is_string "control_cancel_request" (get "type" message) then
    (q, Continue, None)
  else
    match AsyncQueue.push message (messageQueue q) with
    | Normal (mq, Some (w, r)) =>
        (settleConsumers mq [w] (AsyncQueue.NextResolved r) q, Continue, None)
    | Normal (mq, None) => (with_messageQueue mq q, Continue, None)
    | Throw e => (q, Throws e, None)
    end.

(** Lines 415-421: [start()] starts the read loop once. *)
Definition start (q : t) : t :=
  if readLoopStarted q then q else with_readLoopStarted true q.

(** The bridges that [sdkMcpBridges] maps to, in the order of
    [Array.from(this.sdkMcpBridges.values())], line 456. A [Map] enumerates
    in insertion order, and a name is inserted together with a bridge newer
    than every bridge there is (lines 684-685), so this is the order of
    the store. *)
Definition mappedBridges (q : t) : list nat :=
  filter (fun b => b ∈ (snd <$> map_to_list (sdkMcpBridges q)))
         (seq 0 (length (bridges q))).

(** Lines 458-464: [await bridge.close()] for each bridge in turn.
    [closings b] is what the instance of bridge [b] does. What a [close()]
    rejects with is dropped; a [close()] that never settles keeps the loop
    waiting, and the bridges after it are not closed. The result says
    whether the loop has ended. *)
Fixpoint closeBridges (closings : nat -> Bridge.closing) (open : list nat)
    (bs : list Bridge.state) : list Bridge.state * bool :=
  match open with
  | [] => (bs, true)
  | b :: rest =>
      match bs !! b with
      | Some s =>
          match Bridge.close (closings b) s with
          | (s', Some _) => closeBridges closings rest (<[b := s']> bs)
          | (s', None) => (<[b := s']> bs, false)
          end
      | None => closeBridges closings rest bs
      end
  end.

(** Lines 453-464 of [close()], in the run in which nothing else happens
    between two bridges: the engine, and whether [close()] has come to
    line 466, where it closes the transport and then waits for the read
    loop. *)
Definition close (closings : nat -> Bridge.closing) (q : t) : t * bool :=
  let q := with_closed true q in
  let '(mq, woken) := AsyncQueue.close (messageQueue q) in
  let q := settleConsumers mq woken (AsyncQueue.NextResolved AsyncQueue.IterDone) q in
  let '(bs, ended) := closeBridges closings (mappedBridges q) (bridges q) in
  (with_bridges ∅ bs q, ended).

(** Lines 499-503: the loop has ended, normally or with [thrown]. *)
Definition readLoop_end (thrown : option value) (q : t) : t :=
  let q :=
    match thrown with
    | Some error =>
        let '(mq, woken) := AsyncQueue.fail error (messageQueue q) in
        settleConsumers mq woken (AsyncQueue.NextRejected error) q
    | None => q
    end in
  let '(mq, woken) := AsyncQueue.close (messageQueue q) in
  settleConsumers mq woken (AsyncQueue.NextResolved AsyncQueue.IterDone) q.

(** *** [streamInput], [interrupt], [setPermissionMode], [setModel] (lines 427-447) *)

Definition err_stream_mode : value := VError "非流式模式不支持 streamInput。".

(** Lines 431-433: one line per message of the stream, until a write
    rejects. *)
Fixpoint writeAll (accepts : value -> completion unit)
    (stream : list (list (string * value))) (q : t) : t * completion unit :=
  match stream with
  | [] => (q, Normal tt)
  | message :: rest =>
      match write accepts (json (VObj message)) q with
      | (q, Normal _) => writeAll accepts rest q
      | (q, Throw e) => (q, Throw e)
      end
  end.

(** [transport.endInput()], line 434: [ends] is what the call settles to,
    which is the transport's affair. *)
Definition endInput (ends : completion unit) (q : t) : t * completion unit :=
  (with_endInputCalls (S (endInputCalls q)) q, ends).

(** [streamInput(stream)] for a stream that yields the messages of [stream]
    and then ends: when every line has been written, [streamInput] awaits
    [transport.endInput()]. *)
Definition streamInput (accepts : value -> completion unit) (ends : completion unit)
    (stream : list (list (string * value))) (q : t) : t * completion unit :=
  if negb (isStreamingMode (opts q)) then (q, Throw err_stream_mode)
  else
    match writeAll accepts stream q with
    | (q, Normal _) => endInput ends q
    | (q, Throw e) => (q, Throw e)
    end.

(** The three operations until they wait for the response. *)
Definition interrupt_begin (accepts : value -> completion unit) (hex : string) (q : t)
  : t * completion (string * nat) :=
  sendControlRequest_begin accepts hex [("subtype", VStr "interrupt")] q.

Definition setPermissionMode_begin (accepts : value -> completion unit)
    (hex : string) (mode : string) (q : t) : t * completion (string * nat) :=
  sendControlRequest_begin accepts hex
    [("subtype", VStr "set_permission_mode"); ("mode", VStr mode)] q.

Definition setModel_begin (accepts : value -> completion unit)
    (hex : string) (model : value) (q : t) : t * completion (string * nat) :=
  sendControlRequest_begin accepts hex
    [("subtype", VStr "set_model"); ("model", model)] q.

(** Lines 423-425: [receiveMessages()] is the message queue. *)
Definition receiveMessages (q : t) : AsyncQueue.t SDKMessage nat :=
  messageQueue q.

(** *** The whole read loop (lines 475-504) *)

(** Lines 477-498 over what [transport.readMessages()] yields: the engine,
    what the loop threw if it did, and the handlers it started. [ending] is
    the error with which the sequence itself ends, if it ends with one. *)
Fixpoint readLoop_messages (messages : list SDKMessage) (ending : option value) (q : t)
  : t * option value * list started :=
  match messages with
  | [] => (q, ending, [])
  | message :: rest =>
      match readLoop_iteration message q with
      | (q, Break, _) => (q, None, [])
      | (q, Throws e, _) => (q, Some e, [])
      | (q, Continue, h) =>
          let '(q, thrown, hs) := readLoop_messages rest ending q in
          (q, thrown, (match h with Some x => [x] | None => [] end ++ hs)%list)
      end
  end.

(** [readLoop()]: the loop, then the [catch] and the [finally]. *)
Definition readLoop (messages : list SDKMessage) (ending : option value) (q : t)
  : t * list started :=
  let '(q, thrown, hs) := readLoop_messages messages ending q in
  (readLoop_end thrown q, hs).

End Query.

(** ** What the specification says, where it differs from the code *)

(** The channel contract of the specification: once failed, [push] is a
    no-op, which neither throws nor enqueues. *)
Definition push_after_fail_is_noop {T W}
    (q : AsyncQueue.t T W) (e : value) (v : T) : Prop :=
  let q' := fst (AsyncQueue.fail e q) in
  AsyncQueue.push v q' = Normal (q', None).

(** The field renaming of the specification: a name ending in an underscore
    loses that underscore. *)
Fixpoint stripTrailingUnderscore (key : string) : string :=
  match key with
  | EmptyString => EmptyString
  | String c EmptyString => if Ascii.eqb c "_"%char then EmptyString else key
  | String c rest => String c (stripTrailingUnderscore rest)
  end.

Definition convertHookOutput_spec (output : obj) : obj :=
  fold_left (fun converted kv => set (stripTrailingUnderscore (fst kv)) (snd kv) converted)
            output [].

Definition renames_every_trailing_underscore (output : obj) : Prop :=
  convertHookOutputForCli output = convertHookOutput_spec output.

(** ** Runs of the correlation registry

    What can happen to [pendingControlRequests], in any order: a call of
    [sendControlRequest] reaches its wait, the read loop hands a control
    response to [handleControlResponse], the wait of a call ends. *)

Inductive correlation_event :=
| Sends (hex : string) (request : obj)
| Receives (message : Query.SDKMessage)
| WaitEnds (requestId : string) (r : settled).

(** One event: the new engine and the promise that the event settled, if
    any. A response on which [handleControlResponse] throws changes
    nothing. *)
Definition correlate (accepts : value -> completion unit)
    (e : correlation_event) (q : Query.t) : Query.t * option (nat * settled) :=
  match e with
  | Sends hex request =>
      (fst (Query.sendControlRequest_begin accepts hex request q), None)
  | Receives message =>
      match Query.handleControlResponse message q with
      | Normal (q', s) => (q', s)
      | Throw _ => (q, None)
      end
  | WaitEnds requestId r =>
      (fst (Query.sendControlRequest_end requestId r q), None)
  end.

(** The promises settled by a run, in order. *)
Fixpoint settlements (accepts : value -> completion unit)
    (es : list correlation_event) (q : Query.t) : list (nat * settled) :=
  match es with
  | [] => []
  | e :: es' =>
      match correlate accepts e q with
      | (q', Some s) => s :: settlements accepts es' q'
      | (q', None) => settlements accepts es' q'
      end
  end.

(** The name under which [convertHookOutputForCli] stores a field. *)
Definition wireKey (key : string) : string :=
  if String.eqb key "async_" then "async"
  else if String.eqb key "continue_" then "continue"
  else key.

(** Whether an optional property is there. *)
Definition present {A} (o : option A) : bool :=
  match o with
  | Some _ => true
  | None => false
  end.

(** Every registered promise was made by a call that [requestCounter] has
    counted, none of them is in [done], and no two identifiers share one. *)
Definition registry_ok (done : list nat) (q : Query.t) : Prop :=
  (forall id p, Query.pendingControlRequests q !! id = Some p ->
                p <= Query.requestCounter q /\ p ∉ done)
  /\ (forall id1 id2 p,
        Query.pendingControlRequests q !! id1 = Some p ->
        Query.pendingControlRequests q !! id2 = Some p -> id1 = id2)
  /\ (forall p, p ∈ done -> p <= Query.requestCounter q).

(** ** Observing the bridges of an engine *)






(** ** Scenarios *)

(** An engine with one local service, registered as ["demo"]. *)
Definition demoEngine : Query.t :=
  Query.create {| Query.canUseTool := false; Query.hooksOption := None;
                  Query.isStreamingMode := true;
                  Query.sdkMcpServers := {["demo" := Bridge.Service true false]} |}.

(** The JSON-RPC request [id] and the reply to it. *)
Definition rpcRequest (id : Z) : Bridge.JsonRpcMessage :=
  [("jsonrpc", VStr "2.0"); ("id", VNum id); ("method", VStr "echo")].

Definition rpcReply (id : Z) : Bridge.JsonRpcMessage :=
  [("jsonrpc", VStr "2.0"); ("id", VNum id); ("result", VObj [])].

(** The control request that carries [rpcRequest id] to ["demo"]. *)
Definition mcpMessage (requestId : string) (id : Z) : Query.SDKMessage :=
  [("type", VStr "control_request"); ("request_id", VStr requestId);
   ("request", VObj [("subtype", VStr "mcp_message");
                     ("server_name", VStr "demo");
                     ("message", VObj (rpcRequest id))])].


(** Two calls of [handleRequest] made one after the other, before the job
    queue runs. Both awaited the initial promise, which is settled, so the
    job queue holds their continuations in the order of the calls: both
    continue from line 274, both call [connect], and, once connected, both
    deliver. *)
Definition twoCallsAtOnce : list Bridge.event :=
  [Bridge.Call (rpcRequest 1); Bridge.Call (rpcRequest 2);
   Bridge.Resume 0; Bridge.Assign true false;
   Bridge.Resume 1; Bridge.Assign true false;
   Bridge.ConnectSettles 0 (Resolved VUndefined);
   Bridge.ConnectSettles 1 (Resolved VUndefined);
   Bridge.Continue 0; Bridge.Continue 1].

(** Three calls, the second and third made while the first is being
    processed. Both read the promise of the first call from [this.queue];
    when the first is answered that promise settles and both continue from
    line 274 and deliver. *)
Definition twoCallsBehindOne : list Bridge.event :=
  [Bridge.Call (rpcRequest 1); Bridge.Resume 0; Bridge.Assign true false;
   Bridge.ConnectSettles 0 (Resolved VUndefined); Bridge.Continue 0;
   Bridge.Call (rpcRequest 2); Bridge.Call (rpcRequest 3);
   Bridge.Send (rpcReply 1); Bridge.HandlerSettles 0 (Resolved VUndefined);
   Bridge.Continue 0; Bridge.LoopStep 0;
   Bridge.Resume 1; Bridge.Resume 2; Bridge.Continue 1; Bridge.Continue 2].

(** A request that connects, is delivered and waits for its reply. *)
Definition firstRequestWaits : list Bridge.event :=
  [Bridge.Call (rpcRequest 1); Bridge.Resume 0; Bridge.Assign true false;
   Bridge.ConnectSettles 0 (Resolved VUndefined); Bridge.Continue 0;
   Bridge.HandlerSettles 0 (Resolved VUndefined); Bridge.Continue 0].

(** Sixty seconds pass without a reply and the timer fires. *)
Definition firstRequestTimesOut : list Bridge.event :=
  (firstRequestWaits ++ [Bridge.Tick 60000; Bridge.Timeout 0])%list.

(** Call [t] is made on a connected bridge; the service replies from its
    handler, the handler returns, and the call looks for the reply. *)
Definition answeredRequest (t : nat) (id : Z) : list Bridge.event :=
  [Bridge.Call (rpcRequest id); Bridge.Resume t; Bridge.Continue t;
   Bridge.Send (rpcReply id)].

Definition looksForReply (t : nat) : list Bridge.event :=
  [Bridge.HandlerSettles t (Resolved VUndefined); Bridge.Continue t].

(** ** Using the async channel *)

(** The operations of a channel, as its users call them. *)
Inductive channel_op (T W : Type) :=
| OpPush (v : T)
| OpClose
| OpFail (e : value)
| OpNext (w : W).
Arguments OpPush {T W} v.
Arguments OpClose {T W}.
Arguments OpFail {T W} e.
Arguments OpNext {T W} w.

(** The channel after an operation; a [push] that throws leaves it as it
    was. *)
Definition channel_after {T W} (q : AsyncQueue.t T W) (o : channel_op T W)
  : AsyncQueue.t T W :=
  match o with
  | OpPush v =>
      match AsyncQueue.push v q with
      | Normal (q', _) => q'
      | Throw _ => q
      end
  | OpClose => fst (AsyncQueue.close q)
  | OpFail e => fst (AsyncQueue.fail e q)
  | OpNext w => fst (AsyncQueue.next w q)
  end.

(** [push] for each of [vs] in turn: the channel and the waiters woken, in
    order, or the first throw. *)
Fixpoint pushes {T W} (vs : list T) (q : AsyncQueue.t T W)
  : completion (AsyncQueue.t T W * list (W * AsyncQueue.iter_result T)) :=
  match vs with
  | [] => Normal (q, [])
  | v :: rest =>
      match AsyncQueue.push v q with
      | Throw e => Throw e
      | Normal (q', woken) =>
          match pushes rest q' with
          | Throw e => Throw e
          | Normal (q'', woken') =>
              Normal (q'', (match woken with Some x => [x] | None => [] end
                            ++ woken')%list)
          end
      end
  end.

(** One [next()] for each consumer of [ws] in turn: the channel and what
    each call returned. *)
Fixpoint nexts {T W} (ws : list W) (q : AsyncQueue.t T W)
  : AsyncQueue.t T W * list (AsyncQueue.next_result T) :=
  match ws with
  | [] => (q, [])
  | w :: rest =>
      let '(q', r) := AsyncQueue.next w q in
      let '(q'', rs) := nexts rest q' in
      (q'', r :: rs)
  end.

(** No consumer waits while a value is buffered or after the channel has
    ended, and a stored error means the channel has ended. *)
Definition channel_ok {T W} (q : AsyncQueue.t T W) : Prop :=
  (AsyncQueue.values q <> [] -> AsyncQueue.waiters q = [])
  /\ (AsyncQueue.closed q = true -> AsyncQueue.waiters q = [])
  /\ (truthy (AsyncQueue.error q) = true -> AsyncQueue.closed q = true).

(** A [next()] that returns a value at once. *)
Definition resolved {T} (v : T) : AsyncQueue.next_result T :=
  AsyncQueue.NextResolved (AsyncQueue.IterValue v).

(** ** Using the engine *)

(** The callbacks of a hook configuration in the order in which
    [buildHookConfig] meets them: events without matchers are skipped. *)
Definition matcherCallbacks (m : Query.HookMatcher) : list nat :=
  match Query.hooks m with
  | Some callbacks => callbacks
  | None => []
  end.

Definition allCallbacks (events : list (string * list Query.HookMatcher)) : list nat :=
  concat (map (fun ev => concat (map matcherCallbacks (snd ev))) events).

(** The operations a caller may try on an engine, each up to its first
    suspension. *)
Inductive operation :=
| Initialize (rand : nat -> string)
| Interrupt (hex : string)
| SetPermissionMode (hex : string) (mode : string)
| SetModel (hex : string) (model : value)
| StreamInput (stream : list (list (string * value))) (ends : completion unit).

Definition perform (accepts : value -> completion unit) (q : Query.t) (o : operation)
  : Query.t :=
  match o with
  | Initialize rand => fst (Query.initialize_begin accepts rand q)
  | Interrupt hex => fst (Query.interrupt_begin accepts hex q)
  | SetPermissionMode hex mode => fst (Query.setPermissionMode_begin accepts hex mode q)
  | SetModel hex model => fst (Query.setModel_begin accepts hex model q)
  | StreamInput stream ends => fst (Query.streamInput accepts ends stream q)
  end.

(** Every pending request was registered under an identifier made from a
    counter value that has been used, with [length] characters of hex. *)
Definition pending_ids_ok (length_hex : nat) (q : Query.t) : Prop :=
  forall id p, Query.pendingControlRequests q !! id = Some p ->
    p <= Query.requestCounter q
    /\ exists hex, String.length hex = length_hex /\ id = Query.requestIdOf p hex.

(** The random suffix of every request sent in a run has [n] characters. *)
Definition hex_length (n : nat) (e : correlation_event) : Prop :=
  match e with
  | Sends hex _ => String.length hex = n
  | _ => True
  end.

(** The callbacks [cs] with the identifiers made from the draws [i],
    [i + 1], ... *)
Definition labelled (rand : nat -> string) (i : nat) (cs : list nat)
  : list (string * nat) :=
  combine (map (fun k => "hook_" ++ rand k) (seq i (length cs))) cs.

(** A message that the read loop takes for neither a control response, nor
    a control request, nor a cancel request. *)
Definition isDataMessage (message : Query.SDKMessage) : bool :=
  negb (Query.isControlResponseMessage message)
  && negb (Query.isControlRequestMessage message)
  && negb (is_string "control_cancel_request" (get "type" message)).

(** A control response has a [response] to read [request_id] from. *)
Definition hasResponse (message : Query.SDKMessage) : Prop :=
  Query.isControlResponseMessage message = true ->
  nullish (get "response" message) = false.

(** The bridges of an engine: every server name that has a bridge has one
    that exists and was made from what [sdkMcpServers[serverName]] reads,
    and no two names share a bridge. *)
Definition bridges_ok (q : Query.t) : Prop :=
  (forall serverName b,
     Query.sdkMcpBridges q !! serverName = Some b ->
     exists s, Query.bridges q !! b = Some s
               /\ Query.lookupServer serverName (Query.opts q)
                  = Some (Bridge.instance s))
  /\ (forall name1 name2 b,
        Query.sdkMcpBridges q !! name1 = Some b ->
        Query.sdkMcpBridges q !! name2 = Some b ->
        name1 = name2).

(** ** The control flow of [handleRequest] *)

(** The moves of one call from one suspension to the next, in state [s]:
    lines 274-308 with [ensureConnected], [deliver] and [waitWithTimeout]. *)
Definition advances (s : Bridge.state) (p0 p : Bridge.pc) : Prop :=
  match p0, p with
  | Bridge.AwaitQueue _, Bridge.AwaitEnsure (Normal _) => Bridge.connected s = true
  | Bridge.AwaitQueue _, Bridge.AwaitEnsure (Throw e) =>
      Bridge.connected s = false
      /\ Bridge.lacks_connect (Bridge.instance s) = true
      /\ e = Bridge.err_no_connect
  | Bridge.AwaitQueue _, Bridge.AwaitConnect =>
      Bridge.connected s = false
      /\ Bridge.lacks_connect (Bridge.instance s) = false
  | Bridge.AwaitConnect, Bridge.AwaitEnsure _ => True
  | Bridge.AwaitEnsure (Normal _), Bridge.AwaitDeliver (Throw e) =>
      (Bridge.closed s = true /\ e = Bridge.err_deliver_closed)
      \/ (Bridge.closed s = false /\ Bridge.onmessage s = false
          /\ e = Bridge.err_no_handler)
  | Bridge.AwaitEnsure (Normal _), Bridge.AwaitHandler =>
      Bridge.closed s = false /\ Bridge.onmessage s = true
  | Bridge.AwaitEnsure (Throw e), Bridge.Finished (Rejected e') => e' = e
  | Bridge.AwaitHandler, Bridge.AwaitDeliver _ => True
  | Bridge.AwaitDeliver (Normal _), Bridge.Finished (Resolved _) => True
  | Bridge.AwaitDeliver (Normal _), Bridge.AwaitResponse _ _ => True
  | Bridge.AwaitDeliver (Throw e), Bridge.Finished (Rejected e') => e' = e
  | Bridge.AwaitResponse _ _, Bridge.Finished _ => True
  | _, _ => False
  end.

(** A call that waits at line 274. *)
Definition at_queue (tk : Bridge.task) : bool :=
  match Bridge.at_pc tk with
  | Bridge.AwaitQueue _ => true
  | _ => false
  end.

(** Some call waits at line 274. *)
Definition waiting (s : Bridge.state) : bool := existsb at_queue (Bridge.tasks s).

(** A run in which [handleRequest] is called only while no earlier call
    still waits at line 274. *)
Fixpoint paced (es : list Bridge.event) (s : Bridge.state) : Prop :=
  match es with
  | [] => True
  | e :: es' =>
      match e with
      | Bridge.Call _ => waiting s = false
      | _ => True
      end
      /\ match Bridge.step e s with
         | Some s' => paced es' s'
         | None => True
         end
  end.

(** Where a call can be on a bridge whose instance has no [connect]. *)
Definition without_connect (p : Bridge.pc) : Prop :=
  match p with
  | Bridge.AwaitQueue _ => True
  | Bridge.AwaitEnsure (Throw e) => e = Bridge.err_no_connect
  | Bridge.Finished (Rejected e) => e = Bridge.err_no_connect
  | _ => False
  end.

(** Where a call made on a closed bridge can be. *)
Definition after_close (p : Bridge.pc) : Prop :=
  match p with
  | Bridge.AwaitQueue _ | Bridge.AwaitConnect | Bridge.AwaitEnsure _ => True
  | Bridge.AwaitDeliver (Throw _) => True
  | Bridge.Finished (Rejected _) => True
  | _ => False
  end.

(** Call [t] is past line 274 and its processing has not settled. *)
Definition processing (p : Bridge.pc) : bool :=
  match p with
  | Bridge.AwaitQueue _ | Bridge.Finished _ => false
  | _ => true
  end.

(** What one event does to the calls of a bridge: nothing, or a new call
    that waits at line 274, or one call moves along [advances]. *)
Definition moved (e : Bridge.event) (s s' : Bridge.state) : Prop :=
  (Bridge.tasks s' = Bridge.tasks s /\ Bridge.queue s' = Bridge.queue s)
  \/ (exists m, e = Bridge.Call m
        /\ Bridge.tasks s'
           = (Bridge.tasks s ++ [Bridge.Task m (Bridge.AwaitQueue (Bridge.queue s))])%list
        /\ Bridge.queue s' = Bridge.queue s)
  \/ (exists t tk p,
        Bridge.tasks s !! t = Some tk
        /\ advances s (Bridge.at_pc tk) p
        /\ Bridge.tasks s' = <[t := Bridge.Task (Bridge.message tk) p]> (Bridge.tasks s)
        /\ match Bridge.at_pc tk with
           | Bridge.AwaitQueue q =>
               Bridge.queue s' = S t /\ Bridge.queue_settled q s = true
           | _ => Bridge.queue s' = Bridge.queue s
           end).


(** The calls of a bridge are in line: a call that waits at line 274 waits
    for the promise now in [this.queue], and it is the only one that waits;
    a call that is being processed is the one whose promise is in
    [this.queue]. *)
Definition in_line (s : Bridge.state) : Prop :=
  (forall t tk, Bridge.tasks s !! t = Some tk ->
     match Bridge.at_pc tk with
     | Bridge.AwaitQueue q => q = Bridge.queue s
     | Bridge.Finished _ => True
     | _ => Bridge.queue s = S t
     end)
  /\ (forall t1 t2 tk1 tk2,
        Bridge.tasks s !! t1 = Some tk1 -> Bridge.tasks s !! t2 = Some tk2 ->
        at_queue tk1 = true -> at_queue tk2 = true -> t1 = t2).

(** ** Properties *)

Section ObjectLemmas.

Lemma get_set_eq k v (o : obj) : get k (set k v o) = v.
Proof.
  induction o as [|[k' v'] o IH]; simpl.
  - now rewrite String.eqb_refl.
  - destruct (String.eqb k' k) eqn:E; simpl; rewrite ?String.eqb_refl, ?E; auto.
Qed.

Lemma get_set_ne k k' v (o : obj) : k' <> k -> get k (set k' v o) = get k o.
Proof.
  intros Hne. induction o as [|[k0 v0] o IH]; simpl.
  - destruct (String.eqb_spec k' k); congruence.
  - destruct (String.eqb_spec k0 k'); simpl.
    + subst k0. destruct (String.eqb_spec k' k); congruence.
    + destruct (String.eqb_spec k0 k); auto.
Qed.

Lemma has_set_eq k v (o : obj) : has k (set k v o) = true.
Proof.
  induction o as [|[k' v'] o IH]; simpl.
  - now rewrite String.eqb_refl.
  - destruct (String.eqb k' k) eqn:E; simpl; rewrite ?String.eqb_refl, ?E; auto.
Qed.

Lemma has_set_ne k k' v (o : obj) : k' <> k -> has k (set k' v o) = has k o.
Proof.
  intros Hne. induction o as [|[k0 v0] o IH]; simpl.
  - destruct (String.eqb_spec k' k); congruence.
  - destruct (String.eqb_spec k0 k'); simpl.
    + subst k0. destruct (String.eqb_spec k' k); congruence.
    + destruct (String.eqb_spec k0 k); auto.
Qed.

Lemma get_absent k (o : obj) : has k o = false -> get k o = VUndefined.
Proof.
  induction o as [|[k' v'] o IH]; simpl; auto.
  destruct (String.eqb k' k); [discriminate | auto].
Qed.

Lemma has_app k (o1 o2 : obj) : has k (o1 ++ o2)%list = has k o1 || has k o2.
Proof.
  induction o1 as [|[k' v'] o1 IH]; simpl; auto.
  destruct (String.eqb k' k); auto.
Qed.

Lemma get_app k (o1 o2 : obj) :
  get k (o1 ++ o2)%list = if has k o1 then get k o1 else get k o2.
Proof.
  induction o1 as [|[k' v'] o1 IH]; simpl; auto.
  destruct (String.eqb k' k); auto.
Qed.

Lemma has_keys k (o : obj) : has k o = true <-> In k (map fst o).
Proof.
  induction o as [|[k' v'] o IH]; simpl.
  - split; [discriminate | tauto].
  - destruct (String.eqb_spec k' k) as [->|Hne].
    + split; auto.
    + rewrite IH. split; [auto | intros [H|H]; [congruence | auto]].
Qed.

End ObjectLemmas.

(** [String(n)] on some numbers: in full up to 21 digits, with as few
    digits as denote the double, and with an exponent beyond. *)
Lemma toString_numbers :
  toString (VNum 1) = "1"
  /\ toString (VNum (-42)) = "-42"
  /\ toString (VNum (2 ^ 53)) = "9007199254740992"
  /\ toString (VNum (2 ^ 64)) = "18446744073709552000"
  /\ toString (VNum (10 ^ 21)) = "1e+21"
  /\ toString (VNum (2 ^ 70)) = "1.1805916207174113e+21".
Proof. repeat split; vm_compute; reflexivity. Qed.

(** *** The async channel after [fail] *)

Lemma fail_closes {T W} (e : value) (q : AsyncQueue.t T W) :
  AsyncQueue.closed (fst (AsyncQueue.fail e q)) = true.
Proof.
  unfold AsyncQueue.fail. destruct (AsyncQueue.closed q) eqn:E; simpl; auto.
Qed.

(** C8, as the code has it: on a channel on which [fail(error)] has been
    called, a later [push(value)] throws "Cannot push to a closed
    AsyncQueue"; the channel stays closed and nothing is enqueued, because a
    throwing [push] leaves the channel as it was. *)
Theorem push_after_fail_throws {T W} (q : AsyncQueue.t T W) (e : value) (v : T) :
  AsyncQueue.push v (fst (AsyncQueue.fail e q)) = Throw AsyncQueue.closed_error.
Proof.
  unfold AsyncQueue.push. now rewrite fail_closes.
Qed.

(** C8 as stated fails: on a fresh channel, [fail] then [push] is not a
    no-op, it throws. *)
Lemma push_after_fail_not_noop :
  ~ push_after_fail_is_noop (AsyncQueue.empty : AsyncQueue.t value nat)
      (VError "boom") (VNum 1).
Proof.
  unfold push_after_fail_is_noop. simpl. discriminate.
Qed.

(** *** The hook output conversion *)

Lemma assign_other k v (o : obj) : k <> "__proto__" -> assign k v o = set k v o.
Proof.
  intros H. unfold assign. destruct (String.eqb_spec k "__proto__"); congruence.
Qed.

Lemma wireKey_other key :
  key <> "async_" -> key <> "continue_" -> wireKey key = key.
Proof.
  intros H1 H2. unfold wireKey.
  destruct (String.eqb_spec key "async_"); [congruence|].
  destruct (String.eqb_spec key "continue_"); congruence.
Qed.

Lemma wireKey_cases key :
  (key = "async_" /\ wireKey key = "async")
  \/ (key = "continue_" /\ wireKey key = "continue")
  \/ (key <> "async_" /\ key <> "continue_" /\ wireKey key = key).
Proof.
  unfold wireKey.
  destruct (String.eqb_spec key "async_"); [now left|].
  destruct (String.eqb_spec key "continue_"); [now right; left|].
  now right; right.
Qed.

Lemma wireKey_proto key : wireKey key = "__proto__" <-> key = "__proto__".
Proof.
  destruct (wireKey_cases key) as [[-> H]|[[-> H]|(_ & _ & H)]]; rewrite H;
    split; intros E; try discriminate E; auto.
Qed.

Lemma convert_snoc (output : obj) key v :
  convertHookOutputForCli (output ++ [(key, v)])%list
  = assign (wireKey key) v (convertHookOutputForCli output).
Proof.
  unfold convertHookOutputForCli, wireKey. rewrite fold_left_app. simpl.
  destruct (String.eqb key "async_"); [reflexivity|].
  destruct (String.eqb key "continue_"); reflexivity.
Qed.

(** A converted field comes from a field of the output, and never from one
    named [__proto__]. *)
Lemma convert_has_source (output : obj) k :
  has k (convertHookOutputForCli output) = true ->
  exists key, In key (map fst output) /\ key <> "__proto__" /\ wireKey key = k.
Proof.
  induction output as [|[key v] output IH] using rev_ind.
  - discriminate.
  - rewrite convert_snoc, List.map_app. intros H.
    assert (Hold : has k (convertHookOutputForCli output) = true ->
                   exists key', In key' (map fst output ++ map fst [(key, v)])%list
                                /\ key' <> "__proto__" /\ wireKey key' = k).
    { intros H'. destruct (IH H') as (key' & Hin & Hk). exists key'.
      rewrite in_app_iff. auto. }
    destruct (String.eqb_spec key "__proto__") as [->|Hp].
    { apply Hold. exact H. }
    rewrite assign_other in H by (now rewrite wireKey_proto).
    destruct (String.eqb_spec (wireKey key) k) as [E|E].
    + exists key. rewrite in_app_iff. simpl. auto.
    + rewrite has_set_ne in H by exact E. now apply Hold.
Qed.

(** The fields after the last one stored under [k] do not change what is
    under [k]. *)
Lemma convert_app_other (before after : obj) k :
  (forall key, In key (map fst after) -> key <> "__proto__" -> wireKey key <> k) ->
  get k (convertHookOutputForCli (before ++ after))
  = get k (convertHookOutputForCli before)
  /\ has k (convertHookOutputForCli (before ++ after))
     = has k (convertHookOutputForCli before).
Proof.
  induction after as [|[key v] after IH] using rev_ind; intros H.
  - now rewrite app_nil_r.
  - rewrite app_assoc, convert_snoc.
    assert (IH' := IH (fun key' Hin => H key' ltac:(rewrite List.map_app, in_app_iff; auto))).
    destruct (String.eqb_spec key "__proto__") as [->|Hp]; [exact IH'|].
    rewrite assign_other by (now rewrite wireKey_proto).
    rewrite get_set_ne, has_set_ne; [exact IH'| |];
      apply H; auto; rewrite List.map_app, in_app_iff; cbn; auto.
Qed.

(** The field enumerated last among those stored under one name gives the
    value under that name. *)
Lemma convert_last (before after : obj) key v :
  key <> "__proto__" ->
  (forall key', In key' (map fst after) -> key' <> "__proto__" ->
                wireKey key' <> wireKey key) ->
  get (wireKey key) (convertHookOutputForCli (before ++ (key, v) :: after)) = v
  /\ has (wireKey key) (convertHookOutputForCli (before ++ (key, v) :: after)) = true.
Proof.
  intros Hp H.
  change (before ++ (key, v) :: after)%list
    with (before ++ ([(key, v)] ++ after))%list.
  rewrite app_assoc.
  destruct (convert_app_other (before ++ [(key, v)]) after (wireKey key) H) as [-> ->].
  rewrite convert_snoc, assign_other by (now rewrite wireKey_proto).
  split; [apply get_set_eq|apply has_set_eq].
Qed.

(** C3, as the code has it: the conversion stores the field [async_] under
    [async] and the field [continue_] under [continue], and every other
    field under its own name, with its value as it is: also another field
    whose name ends in an underscore, and a field that is itself named
    [async] or [continue]. Where several fields are stored under one name,
    as [async_] and [async] are, the one enumerated last gives the value.
    The converted record has nothing else: every field of it comes from a
    field of the output, it has no field [async_] or [continue_], and a
    field named [__proto__] is not copied. The record
    [{async_: true, continue_: false, extra: "value"}] becomes
    [{async: true, continue: false, extra: "value"}]. *)
Theorem convertHookOutputForCli_renames (output : obj) :
  has "async_" (convertHookOutputForCli output) = false
  /\ has "continue_" (convertHookOutputForCli output) = false
  /\ has "__proto__" (convertHookOutputForCli output) = false
  /\ (forall before key v after,
        output = (before ++ (key, v) :: after)%list ->
        key <> "__proto__" ->
        (forall key', In key' (map fst after) -> wireKey key' <> wireKey key) ->
        has (wireKey key) (convertHookOutputForCli output) = true
        /\ get (wireKey key) (convertHookOutputForCli output) = v)
  /\ (forall k,
        has k (convertHookOutputForCli output) = true ->
        exists key, In key (map fst output) /\ key <> "__proto__" /\ wireKey key = k)
  /\ wireKey "async_" = "async" /\ wireKey "continue_" = "continue"
  /\ (forall key, key <> "async_" -> key <> "continue_" -> wireKey key = key)
  /\ convertHookOutputForCli
       [("async_", VBool true); ("continue_", VBool false); ("extra", VStr "value")]
     = [("async", VBool true); ("continue", VBool false); ("extra", VStr "value")].
Proof.
  assert (Hsrc : forall k,
    (forall key, key <> "__proto__" -> wireKey key <> k) ->
    has k (convertHookOutputForCli output) = false).
  { intros k Hk. destruct (has k (convertHookOutputForCli output)) eqn:E; auto.
    apply convert_has_source in E as (key & _ & Hp & E). now apply Hk in E. }
  split; [|split; [|split; [|split; [|split; [|split; [|split; [|split]]]]]]].
  - apply Hsrc. intros key _.
    destruct (wireKey_cases key) as [[_ H]|[[_ H]|(H1 & _ & H)]]; congruence.
  - apply Hsrc. intros key _.
    destruct (wireKey_cases key) as [[_ H]|[[_ H]|(_ & H2 & H)]]; congruence.
  - apply Hsrc. intros key Hp. now rewrite wireKey_proto.
  - intros before key v after -> Hp Hlast.
    destruct (convert_last before after key v Hp) as [Hg Hh]; auto.
  - intros k. apply convert_has_source.
  - reflexivity.
  - reflexivity.
  - exact wireKey_other.
  - reflexivity.
Qed.

Lemma convertHookOutputForCli_renames_witness :
  has "retry_"
    (convertHookOutputForCli
       [("async_", VBool true); ("retry_", VNum 3); ("async", VStr "kept")]) = true
  /\ get "retry_"
       (convertHookOutputForCli
          [("async_", VBool true); ("retry_", VNum 3); ("async", VStr "kept")]) = VNum 3.
Proof.
  apply (proj1 (proj2 (proj2 (proj2 (convertHookOutputForCli_renames
           [("async_", VBool true); ("retry_", VNum 3); ("async", VStr "kept")]))))
           [("async_", VBool true)] "retry_" (VNum 3) [("async", VStr "kept")]).
  - reflexivity.
  - discriminate.
  - intros key' [<-|[]]. discriminate.
Defined.

(** C3 as stated fails: a field named [retry_] keeps its underscore. *)
Lemma convertHookOutputForCli_keeps_other_underscores :
  ~ renames_every_trailing_underscore [("retry_", VBool true)].
Proof.
  unfold renames_every_trailing_underscore. vm_compute. discriminate.
Qed.

(** *** Permission updates on the wire *)

Lemma json_strings (l : list string) : json (VArr (map VStr l)) = VArr (map VStr l).
Proof.
  simpl. f_equal. rewrite List.map_map. apply List.map_ext. reflexivity.
Qed.

Lemma json_serializeRule (rule : PermissionRuleValue) :
  json (serializeRule rule) = serializeRule rule.
Proof.
  destruct rule as [name [[content|]|]]; reflexivity.
Qed.

Lemma json_rules (l : list PermissionRuleValue) :
  json (VArr (map serializeRule l)) = VArr (map serializeRule l).
Proof.
  simpl. f_equal. rewrite List.map_map. apply List.map_ext.
  intros rule. now rewrite <- (json_serializeRule rule) at 2.
Qed.

Lemma json_serializePermissionUpdate (update : PermissionUpdate) :
  json (VObj (serializePermissionUpdate update)) = VObj (serializePermissionUpdate update).
Proof.
  destruct update as [ty rs b m ds d].
  pose proof (json_rules (match rs with Some l => l | None => [] end)) as Hr.
  pose proof (json_strings (match ds with Some l => l | None => [] end)) as Hd.
  unfold serializePermissionUpdate.
  destruct d as [[]|], rs as [rs|], b as [[]|], m as [[]|], ds as [ds|];
    cbn [destination rules behavior mode directories type optional truthy
         destination_name behavior_name mode_name String.eqb Ascii.eqb Bool.eqb
         negb set json flat_map app fst snd] in *;
    rewrite ?Hr, ?Hd; reflexivity.
Qed.

Lemma json_serialized (updates : list PermissionUpdate) :
  json (VArr (map VObj (map serializePermissionUpdate updates)))
  = VArr (map VObj (map serializePermissionUpdate updates)).
Proof.
  cbn [json]. f_equal. rewrite !List.map_map. apply List.map_ext.
  intros update. apply json_serializePermissionUpdate.
Qed.

Lemma serializePermissionUpdate_fields (u : PermissionUpdate) :
  let o := serializePermissionUpdate u in
  get "type" o = VStr (type_name (type u))
  /\ get "destination" o = optional (fun d => VStr (destination_name d)) (destination u)
  /\ has "destination" o = present (destination u)
  /\ get "rules" o = optional (fun rs => VArr (map serializeRule rs)) (rules u)
  /\ has "rules" o = present (rules u)
  /\ get "behavior" o = optional (fun b => VStr (behavior_name b)) (behavior u)
  /\ has "behavior" o = present (behavior u)
  /\ get "mode" o = optional (fun m => VStr (mode_name m)) (mode u)
  /\ has "mode" o = present (mode u)
  /\ get "directories" o = optional (fun ds => VArr (map VStr ds)) (directories u)
  /\ has "directories" o = present (directories u).
Proof.
  destruct u as [ty rs b m ds d].
  destruct d as [[]|], rs as [rs|], b as [[]|], m as [[]|], ds as [ds|];
    cbv [serializePermissionUpdate destination rules behavior mode directories
         type optional truthy destination_name behavior_name mode_name present
         String.eqb Ascii.eqb Bool.eqb negb set get has];
    repeat split; reflexivity.
Qed.

(** C7: an Allow decision with permission updates yields a payload whose
    [updatedPermissions], as written to the wire, is the list of the
    serialized updates in order; the serialized object of an update has its
    [type], has each of [destination], [rules], [behavior], [mode] and
    [directories] exactly when the update has it, with the update's value,
    and reaches the wire as it is, so that an absent field is left out and
    not written as [null]; a rule is written with its [toolName] and with
    [ruleContent] set to [null] when the rule has none. *)
Theorem allow_serializes_permission_updates
    (input updatedInput : value) (update : PermissionUpdate)
    (rest : list PermissionUpdate) :
  (exists payload,
     permissionPayload input (Allow updatedInput (Some (update :: rest)))
     = Normal payload
     /\ get "updatedPermissions" payload
        = VArr (map (fun u => VObj (serializePermissionUpdate u)) (update :: rest))
     /\ Query.read "updatedPermissions" (json (VObj payload))
        = VArr (map (fun u => VObj (serializePermissionUpdate u)) (update :: rest)))
  /\ (forall u : PermissionUpdate,
        let o := serializePermissionUpdate u in
        json (VObj o) = VObj o
        /\ get "type" o = VStr (type_name (type u))
        /\ get "destination" o
           = optional (fun d => VStr (destination_name d)) (destination u)
        /\ has "destination" o = present (destination u)
        /\ get "rules" o = optional (fun rs => VArr (map serializeRule rs)) (rules u)
        /\ has "rules" o = present (rules u)
        /\ get "behavior" o = optional (fun b => VStr (behavior_name b)) (behavior u)
        /\ has "behavior" o = present (behavior u)
        /\ get "mode" o = optional (fun m => VStr (mode_name m)) (mode u)
        /\ has "mode" o = present (mode u)
        /\ get "directories" o = optional (fun ds => VArr (map VStr ds)) (directories u)
        /\ has "directories" o = present (directories u))
  /\ (forall rule : PermissionRuleValue,
        serializeRule rule
        = VObj [("toolName", VStr (toolName rule));
                ("ruleContent", match ruleContent rule with
                                | Some (Some content) => VStr content
                                | _ => VNull
                                end)]).
Proof.
  split; [|split].
  - eexists. split; [reflexivity|]. split.
    + cbn [set String.eqb Ascii.eqb Bool.eqb get]. now rewrite List.map_map.
    + pose proof (json_serialized (update :: rest)) as Hj.
      cbn [set String.eqb Ascii.eqb Bool.eqb].
      remember (VArr (map VObj (map serializePermissionUpdate (update :: rest)))) as a.
      destruct (coalesce updatedInput input);
        destruct a; try discriminate;
        cbn [json flat_map app Query.read get String.eqb Ascii.eqb Bool.eqb];
        cbn [json] in Hj; rewrite Hj; inversion Heqa; now rewrite List.map_map.
  - intros u. split; [apply json_serializePermissionUpdate|].
    apply serializePermissionUpdate_fields.
  - intros [name [[content|]|]]; reflexivity.
Qed.

(** *** [initialize] outside streaming mode *)

(** C9: an engine in non-streaming mode returns [null] from [initialize()]
    without touching the transport: nothing is written, whatever the
    transport would have accepted, no request is registered, and
    [getInitializationResult()] then returns the same [null]. *)
Theorem initialize_non_streaming
    (accepts : value -> completion unit) (rand : nat -> string) (q : Query.t) :
  Query.isStreamingMode (Query.opts q) = false ->
  exists q',
    Query.initialize_begin accepts rand q = (q', Query.InitReturns VNull)
    /\ Query.written q' = Query.written q
    /\ Query.pendingControlRequests q' = Query.pendingControlRequests q
    /\ Query.getInitializationResult q' = VNull
    /\ forall accepts' rand',
         Query.initialize_begin accepts' rand' q = (q', Query.InitReturns VNull).
Proof.
  intros Hmode. unfold Query.initialize_begin. rewrite Hmode. simpl.
  eexists. repeat split; reflexivity.
Qed.

Lemma initialize_non_streaming_witness :
  exists q',
    Query.initialize_begin (fun _ => Throw (VError "closed")) (fun _ => "00000000")
      (Query.create {| Query.canUseTool := false; Query.hooksOption := None;
                       Query.isStreamingMode := false;
                       Query.sdkMcpServers := ∅ |})
    = (q', Query.InitReturns VNull)
    /\ Query.written q' = []
    /\ Query.getInitializationResult q' = VNull.
Proof.
  destruct (initialize_non_streaming
              (fun _ => Throw (VError "closed")) (fun _ => "00000000")
              (Query.create {| Query.canUseTool := false; Query.hooksOption := None;
                               Query.isStreamingMode := false;
                               Query.sdkMcpServers := ∅ |}))
    as (q' & H1 & H2 & _ & H4 & _); [reflexivity|].
  exists q'. auto.
Defined.


(** *** The payload of an Allow decision *)

Lemma begin_canUseTool (request : Query.SDKMessage) (q q' : Query.t)
    toolName input context :
  Query.handleControlRequest_begin request q
  = (q', Query.Suspended (Query.OnCanUseTool toolName input context)) ->
  q' = q
  /\ input = coalesce (Query.read "input" (get "request" request)) (VObj [])
  /\ blockedPath context
     = coalesce (Query.read "blocked_path" (get "request" request)) VNull.
Proof.
  unfold Query.handleControlRequest_begin, Query.prop.
  destruct (nullish (get "request" request)); [discriminate|].
  unfold Query.dispatch.
  destruct (negb (truthy _)); [discriminate|].
  destruct (is_string "can_use_tool" _).
  { destruct (negb (Query.canUseTool _)); [discriminate|].
    intros H. inversion H; subst. auto. }
  destruct (is_string "hook_callback" _).
  { destruct (Query.hookCallbacks q !! _); discriminate. }
  destruct (is_string "mcp_message" _); [|discriminate].
  destruct (String.eqb _ ""); [discriminate|].
  destruct (negb _ || negb _); [discriminate|].
  destruct (Query.getOrCreateMcpServerBridge _ q) as [[q1 b]|e]; [|discriminate].
  simpl. destruct (Query.callBridge b _ q1). discriminate.
Qed.

Lemma coalesce_defined (a b : value) : nullish b = false -> nullish (coalesce a b) = false.
Proof. unfold coalesce. destruct (nullish a) eqn:E; auto. Qed.

(** The document of a success line, as the peer reads it. *)
Lemma successLine_fields (requestId : value) (responsePayload : list (string * value)) :
  let line := Query.successLine requestId responsePayload in
  Query.read "type" line = VStr "control_response"
  /\ Query.read "subtype" (Query.read "response" line) = VStr "success"
  /\ Query.read "request_id" (Query.read "response" line) = json requestId
  /\ Query.read "response" (Query.read "response" line) = json (VObj responsePayload).
Proof.
  unfold Query.successLine.
  destruct requestId; cbn [json flat_map app Query.read get String.eqb Ascii.eqb Bool.eqb];
    repeat split; reflexivity.
Qed.

(** The document of an error line, as the peer reads it. *)
Lemma failureLine_fields (requestId error line : value) :
  Query.failureLine requestId error = Normal line ->
  Query.read "type" line = VStr "control_response"
  /\ Query.read "subtype" (Query.read "response" line) = VStr "error"
  /\ Query.read "request_id" (Query.read "response" line) = json requestId
  /\ exists m, message_of error = Normal m
               /\ Query.read "error" (Query.read "response" line) = json m.
Proof.
  unfold Query.failureLine. destruct (message_of error) as [m|e]; [|discriminate].
  cbn [bind]. intros [= <-].
  destruct requestId, m;
    cbn [json flat_map app Query.read get String.eqb Ascii.eqb Bool.eqb];
    repeat split; eauto.
Qed.

(** The payload of an Allow decision, as [JSON.stringify] writes it. *)
Lemma allow_wire (input updatedInput : value) updatedPermissions payload :
  permissionPayload input (Allow updatedInput updatedPermissions) = Normal payload ->
  nullish input = false ->
  Query.read "behavior" (json (VObj payload)) = VStr "allow"
  /\ has "updatedInput" (Query.as_record (json (VObj payload))) = true
  /\ Query.read "updatedInput" (json (VObj payload)) = json (coalesce updatedInput input).
Proof.
  unfold permissionPayload.
  destruct (serializePermissionUpdates updatedPermissions) as [us|];
    intros H; inversion H; subst; clear H;
    cbn [set get has String.eqb Ascii.eqb Bool.eqb];
    intros Hin; apply (coalesce_defined updatedInput) in Hin;
    destruct (coalesce updatedInput input); try discriminate;
    cbn [json flat_map app Query.read Query.as_record get has
         String.eqb Ascii.eqb Bool.eqb]; auto.
Qed.

(** C10: when a [can_use_tool] request reaches the permission callback and
    the callback answers with an Allow decision, the handler writes one
    line, which is a [control_response] of subtype [success] with the
    [request_id] of the request, and whose payload has [behavior] ["allow"]
    and always an [updatedInput]: the decision's [updatedInput] when it has
    one, and else the request's [input], or the empty object when the
    request has no input. *)
Theorem allow_defaults_updatedInput
    (accepts : value -> completion unit)
    (settles : forall s : Query.suspension, completion (Query.answer s))
    (request : Query.SDKMessage) (q q' : Query.t)
    toolName input context updatedInput updatedPermissions :
  Query.handleControlRequest_begin request q
  = (q', Query.Suspended (Query.OnCanUseTool toolName input context)) ->
  settles (Query.OnCanUseTool toolName input context)
  = Normal (Allow updatedInput updatedPermissions) ->
  (forall line, accepts line = Normal tt) ->
  input = coalesce (Query.read "input" (get "request" request)) (VObj [])
  /\ exists line,
       Query.handleControlRequest accepts settles request q
       = (Query.with_written (Query.written q' ++ [line])%list q', Normal tt)
       /\ Query.read "type" line = VStr "control_response"
       /\ Query.read "subtype" (Query.read "response" line) = VStr "success"
       /\ Query.read "request_id" (Query.read "response" line)
          = json (get "request_id" request)
       /\ (let payload := Query.read "response" (Query.read "response" line) in
           Query.read "behavior" payload = VStr "allow"
           /\ has "updatedInput" (Query.as_record payload) = true
           /\ Query.read "updatedInput" payload = json (coalesce updatedInput input)
           /\ (nullish updatedInput = true ->
               Query.read "updatedInput" payload = json input)).
Proof.
  intros Hbegin Hsettles Haccepts.
  destruct (begin_canUseTool _ _ _ _ _ _ Hbegin) as (-> & Hinput & _).
  assert (Hdef : nullish input = false).
  { subst input. now apply coalesce_defined. }
  split; [exact Hinput|].
  unfold Query.handleControlRequest. rewrite Hbegin.
  cbn [Query.resume]. rewrite Hsettles. cbn [bind].
  destruct (permissionPayload input (Allow updatedInput updatedPermissions))
    as [payload|e] eqn:Hp.
  - exists (Query.successLine (get "request_id" request) payload).
    unfold Query.respond, Query.write. rewrite Haccepts.
    destruct (successLine_fields (get "request_id" request) payload)
      as (Ht & Hs & Hid & Hpayload).
    destruct (allow_wire _ _ _ _ Hp Hdef) as (Hb & Hh & Hu).
    split; [reflexivity|]. split; [exact Ht|]. split; [exact Hs|].
    split; [exact Hid|]. cbv zeta. rewrite Hpayload.
    split; [exact Hb|]. split; [exact Hh|]. split; [exact Hu|].
    intros Hnull. rewrite Hu. unfold coalesce. now rewrite Hnull.
  - unfold permissionPayload in Hp.
    destruct (serializePermissionUpdates updatedPermissions); discriminate.
Qed.

Lemma allow_defaults_updatedInput_witness :
  let q := Query.create {| Query.canUseTool := true; Query.hooksOption := None;
                           Query.isStreamingMode := true;
                           Query.sdkMcpServers := ∅ |} in
  let request :=
    [("type", VStr "control_request"); ("request_id", VStr "req_tool");
     ("request", VObj [("subtype", VStr "can_use_tool"); ("tool_name", VStr "Bash");
                       ("input", VObj [("value", VNum 1)]);
                       ("permission_suggestions", VArr []);
                       ("blocked_path", VStr "/tmp/test")])] in
  let settles := fun s : Query.suspension =>
    match s return completion (Query.answer s) with
    | Query.OnCanUseTool _ _ _ => Normal (Allow VUndefined None)
    | Query.OnHookCallback _ _ _ => Normal []
    | Query.OnBridge _ _ => Normal VNull
    end in
  exists line,
    Query.handleControlRequest (fun _ => Normal tt) settles request q
    = (Query.with_written [line] q, Normal tt)
    /\ Query.read "request_id" (Query.read "response" line) = VStr "req_tool"
    /\ Query.read "updatedInput" (Query.read "response" (Query.read "response" line))
       = VObj [("value", VNum 1)].
Proof.
  intros q request settles.
  destruct (allow_defaults_updatedInput (fun _ => Normal tt) settles request q q
              "Bash" (VObj [("value", VNum 1)])
              {| signal := VNull; suggestions := VArr [];
                 blockedPath := VStr "/tmp/test" |} VUndefined None)
    as (_ & line & H1 & _ & _ & H4 & _ & _ & _ & H8); try reflexivity.
  exists line. split; [exact H1|]. split; [exact H4|]. now apply H8.
Defined.


(** *** Pending correlations *)

Section Correlations.

Variable accepts : value -> completion unit.

Lemma send_effect hex request q :
  let q' := fst (Query.sendControlRequest_begin accepts hex request q) in
  q' = q
  \/ (Query.requestCounter q' = S (Query.requestCounter q)
      /\ Query.pendingControlRequests q'
         = <[Query.requestIdOf (S (Query.requestCounter q)) hex
             := S (Query.requestCounter q)]> (Query.pendingControlRequests q)).
Proof.
  unfold Query.sendControlRequest_begin.
  destruct (negb _); [now left|]. right.
  unfold Query.write. destruct (accepts _); simpl; auto.
Qed.

Lemma receive_effect message q q' s :
  Query.handleControlResponse message q = Normal (q', s) ->
  Query.requestCounter q' = Query.requestCounter q
  /\ ((s = None /\ q' = q)
      \/ exists id p r,
           s = Some (p, r)
           /\ Query.prop "request_id" (get "response" message) = Normal (VStr id)
           /\ Query.pendingControlRequests q !! id = Some p
           /\ Query.pendingControlRequests q' = delete id (Query.pendingControlRequests q)).
Proof.
  unfold Query.handleControlResponse.
  destruct (Query.prop "request_id" _) as [requestId|e]; [|discriminate].
  cbn [bind]. destruct (Query.pending_get requestId q) as [p|] eqn:Hp.
  - destruct requestId; try discriminate. simpl in Hp.
    destruct (is_string "error" _); intros H; inversion H; subst; clear H;
      (split; [reflexivity|]); right; eauto 10.
  - intros H; inversion H; subst. auto.
Qed.

Lemma end_effect requestId r q :
  let q' := fst (Query.sendControlRequest_end requestId r q) in
  Query.requestCounter q' = Query.requestCounter q
  /\ Query.pendingControlRequests q'
     = delete requestId (Query.pendingControlRequests q).
Proof.
  unfold Query.sendControlRequest_end.
  destruct r as [v|e]; [auto|]. destruct (message_of e); auto.
Qed.

Lemma registry_ok_delete done q q' id :
  registry_ok done q ->
  Query.requestCounter q' = Query.requestCounter q ->
  Query.pendingControlRequests q' = delete id (Query.pendingControlRequests q) ->
  registry_ok done q'.
Proof.
  intros (H1 & H2 & H3) Hc Hp. unfold registry_ok. rewrite Hc, Hp.
  repeat split.
  - apply lookup_delete_Some in H as [_ H]. now apply (H1 id0).
  - apply lookup_delete_Some in H as [_ H]. now apply (H1 id0).
  - intros id1 id2 p Ha Hb.
    apply lookup_delete_Some in Ha as [_ Ha].
    apply lookup_delete_Some in Hb as [_ Hb]. eauto.
  - auto.
Qed.

Lemma settlements_fresh es : forall q done,
  registry_ok done q -> NoDup done ->
  NoDup (map fst (settlements accepts es q) ++ done)%list.
Proof.
  induction es as [|e es IH]; intros q done Hok Hnd; [exact Hnd|].
  cbn [settlements].
  destruct e as [hex request|message|requestId r]; cbn [correlate].
  - (* a request is sent *)
    apply IH; [|exact Hnd].
    destruct (send_effect hex request q) as [->|[Hc Hp]]; [exact Hok|].
    destruct Hok as (H1 & H2 & H3). unfold registry_ok. rewrite Hc, Hp.
    repeat split.
    + apply lookup_insert_Some in H as [[_ <-]|[_ H]]; [lia|].
      apply H1 in H. lia.
    + apply lookup_insert_Some in H as [[_ <-]|[_ H]].
      * intros Hin. apply H3 in Hin. lia.
      * now apply (H1 id).
    + intros id1 id2 p Ha Hb.
      apply lookup_insert_Some in Ha as [[<- <-]|[Hn1 Ha]];
        apply lookup_insert_Some in Hb as [[<- Hb]|[Hn2 Hb]]; auto.
      * apply H1 in Hb. lia.
      * apply H1 in Ha. lia.
      * eauto.
    + intros p Hin. apply H3 in Hin. lia.
  - (* a control response is received *)
    destruct (Query.handleControlResponse message q) as [[q' s]|e] eqn:Hr;
      [|now apply IH].
    apply receive_effect in Hr as [Hc [[-> ->]|(id & p & r & -> & _ & Hq & Hp)]];
      [now apply IH|].
    cbn [map fst app].
    assert (Hok' : registry_ok (p :: done) q').
    { destruct Hok as (H1 & H2 & H3). unfold registry_ok. rewrite Hc, Hp.
      repeat split.
      - apply lookup_delete_Some in H as [_ H]. now apply (H1 id0).
      - apply lookup_delete_Some in H as [Hne H].
        rewrite not_elem_of_cons. split; [|now apply (H1 id0)].
        intros ->. apply Hne. eauto.
      - intros id1 id2 p' Ha Hb.
        apply lookup_delete_Some in Ha as [_ Ha].
        apply lookup_delete_Some in Hb as [_ Hb]. eauto.
      - intros p' [->|Hin]%elem_of_cons; [now apply (H1 id)|auto]. }
    assert (Hnd' : NoDup (p :: done)).
    { constructor; [|exact Hnd]. now apply (proj1 Hok id). }
    specialize (IH q' (p :: done) Hok' Hnd').
    apply NoDup_app in IH as (Ha & Hb & _).
    constructor.
    + rewrite not_elem_of_app. split.
      * intros Hin. apply (Hb p Hin). constructor.
      * now apply (proj1 Hok id).
    + apply NoDup_app. repeat split; [exact Ha| |exact Hnd].
      intros x Hin Hd. apply (Hb x Hin). now constructor.
  - (* a wait ends *)
    apply IH; [|exact Hnd].
    destruct (end_effect requestId r q) as [Hc Hp].
    eapply registry_ok_delete; eauto.
Qed.

End Correlations.

Lemma registry_ok_create (o : Query.options) : registry_ok [] (Query.create o).
Proof.
  unfold registry_ok. cbn [Query.create Query.pendingControlRequests].
  repeat split; intros *; rewrite ?lookup_empty, ?elem_of_nil; try discriminate; tauto.
Qed.

(** What holds of the correlation registry: a control response that names
    a pending request removes its entry and settles its promise, so that
    the same response delivered again finds nothing and changes nothing; a
    response that names an identifier with no entry returns normally and
    changes nothing; over any sequence of requests sent, responses received
    and waits ended, from a new engine, no promise of [sendControlRequest]
    is settled twice; and when the wait for the response ends by failure,
    the [finally] has removed the entry and the caller gets a failure. *)
Lemma pending_correlation_settled_once
    (accepts : value -> completion unit) :
  (forall (message : Query.SDKMessage) (q : Query.t) id promise,
     Query.prop "request_id" (get "response" message) = Normal (VStr id) ->
     Query.pendingControlRequests q !! id = Some promise ->
     exists q' r,
       Query.handleControlResponse message q = Normal (q', Some (promise, r))
       /\ Query.pendingControlRequests q' = delete id (Query.pendingControlRequests q)
       /\ Query.pendingControlRequests q' !! id = None
       /\ Query.handleControlResponse message q' = Normal (q', None))
  /\ (forall (message : Query.SDKMessage) (q : Query.t) requestId,
        Query.prop "request_id" (get "response" message) = Normal requestId ->
        Query.pending_get requestId q = None ->
        Query.handleControlResponse message q = Normal (q, None))
  /\ (forall (o : Query.options) (es : list correlation_event),
        NoDup (map fst (settlements accepts es (Query.create o))))
  /\ (forall requestId e (q : Query.t),
        exists q' e',
          Query.sendControlRequest_end requestId (Rejected e) q = (q', Rejected e')
          /\ Query.pendingControlRequests q' !! requestId = None).
Proof.
  split; [|split; [|split]].
  - intros message q id promise Hid Hp.
    assert (Hstep : forall q0, Query.pendingControlRequests q0 !! id = None ->
              Query.handleControlResponse message q0 = Normal (q0, None)).
    { intros q0 H0. unfold Query.handleControlResponse. rewrite Hid.
      cbn [bind Query.pending_get]. now rewrite H0. }
    exists (Query.with_pending (delete id (Query.pendingControlRequests q)) q).
    assert (Hfirst : exists r,
              Query.handleControlResponse message q
              = Normal (Query.with_pending (delete id (Query.pendingControlRequests q)) q,
                        Some (promise, r))).
    { unfold Query.handleControlResponse. rewrite Hid.
      cbn [bind Query.pending_get Query.pending_delete]. rewrite Hp.
      destruct (is_string "error" _); eexists; reflexivity. }
    destruct Hfirst as [r Hfirst]. exists r.
    split; [exact Hfirst|]. split; [reflexivity|].
    split; [apply lookup_delete_eq|]. apply Hstep. apply lookup_delete_eq.
  - intros message q requestId Hid Hp.
    unfold Query.handleControlResponse. rewrite Hid. cbn [bind]. now rewrite Hp.
  - intros o es.
    pose proof (settlements_fresh accepts es (Query.create o) []
                  (registry_ok_create o) (NoDup_nil_2)) as H.
    now rewrite app_nil_r in H.
  - intros requestId e q. unfold Query.sendControlRequest_end.
    destruct (message_of e); eexists _, _; (split; [reflexivity|]);
      cbn [Query.pendingControlRequests Query.with_pending]; apply lookup_delete_eq.
Qed.

Lemma pending_correlation_settled_once_witness :
  let q :=
    fst (Query.sendControlRequest_begin (fun _ => Normal tt) "deadbeef"
           [("subtype", VStr "interrupt")]
           (Query.create {| Query.canUseTool := false; Query.hooksOption := None;
                            Query.isStreamingMode := true;
                            Query.sdkMcpServers := ∅ |})) in
  let message :=
    [("type", VStr "control_response");
     ("response", VObj [("subtype", VStr "success");
                        ("request_id", VStr "req_1_deadbeef");
                        ("response", VObj [])])] in
  exists q' r,
    Query.handleControlResponse message q = Normal (q', Some (1, r))
    /\ Query.handleControlResponse message q' = Normal (q', None).
Proof.
  intros q message.
  destruct (proj1 (pending_correlation_settled_once (fun _ => Normal tt))
              message q "req_1_deadbeef" 1)
    as (q' & r & H1 & _ & _ & H4); [reflexivity | vm_compute; reflexivity |].
  exists q', r. split; [exact H1 | exact H4].
Defined.

(** C1 fails where the transport rejects the write of the request: the
    call of [sendControlRequest] rejects with the transport's error, so
    the caller's wait has ended by failure, but the entry that was
    registered before the write stays in [pendingControlRequests], because
    the write of line 659 is outside the [try] whose [finally] removes the
    entry. The entry is live: a control response that names the identifier
    later finds it and settles the promise, which nobody awaits. *)
Theorem pending_entry_outlives_rejected_write :
  let q := Query.create {| Query.canUseTool := false; Query.hooksOption := None;
                           Query.isStreamingMode := true;
                           Query.sdkMcpServers := ∅ |} in
  let refuses := fun _ : value => (Throw (VError "write EPIPE") : completion unit) in
  let q1 := fst (Query.interrupt_begin refuses "deadbeef" q) in
  let message :=
    [("type", VStr "control_response");
     ("response", VObj [("subtype", VStr "error");
                        ("request_id", VStr "req_1_deadbeef");
                        ("error", VStr "interrupted")])] in
  snd (Query.interrupt_begin refuses "deadbeef" q) = Throw (VError "write EPIPE")
  /\ Query.written q1 = []
  /\ Query.pendingControlRequests q1 !! "req_1_deadbeef" = Some 1
  /\ exists q2,
       Query.handleControlResponse message q1
       = Normal (q2, Some (1, Rejected (VError "interrupted")))
       /\ Query.pendingControlRequests q2 !! "req_1_deadbeef" = None.
Proof.
  split; [reflexivity|]. split; [reflexivity|]. split; [vm_compute; reflexivity|].
  eexists. split; [vm_compute; reflexivity|]. vm_compute. reflexivity.
Qed.


(** *** The response to a control request *)

Lemma getOrCreate_throws serverName q e :
  Query.getOrCreateMcpServerBridge serverName q = Throw e -> nullish e = false.
Proof.
  unfold Query.getOrCreateMcpServerBridge.
  destruct (Query.sdkMcpBridges q !! serverName); [discriminate|].
  destruct (Query.lookupServer serverName _) as [i|].
  - destruct (Bridge.falsy_instance i); [|discriminate].
    intros H; inversion H; reflexivity.
  - intros H; inversion H; reflexivity.
Qed.

(** What the handler throws by itself is an [Error]. *)
Lemma dispatch_throws subtype requestBody q e :
  Query.dispatch subtype requestBody q = Throw e -> nullish e = false.
Proof.
  unfold Query.dispatch.
  destruct (negb (truthy subtype)); [intros H; inversion H; reflexivity|].
  destruct (is_string "can_use_tool" subtype).
  { destruct (negb _); [intros H; inversion H; reflexivity | discriminate]. }
  destruct (is_string "hook_callback" subtype).
  { destruct (Query.hookCallbacks q !! _); [discriminate|].
    intros H; inversion H; reflexivity. }
  destruct (is_string "mcp_message" subtype);
    [|intros H; inversion H; reflexivity].
  destruct (String.eqb _ ""); [intros H; inversion H; reflexivity|].
  destruct (negb _ || negb _); [intros H; inversion H; reflexivity|].
  destruct (Query.getOrCreateMcpServerBridge _ q) as [[q1 b]|e'] eqn:Hg.
  - simpl. destruct (Query.callBridge b _ q1). discriminate.
  - simpl. intros H; inversion H; subst. now apply getOrCreate_throws in Hg.
Qed.

Lemma resume_throws (s : Query.suspension) (a : completion (Query.answer s)) e :
  (forall e', a = Throw e' -> nullish e' = false) ->
  Query.resume s a = Throw e -> nullish e = false.
Proof.
  intros Ha. destruct s; cbn [Query.resume]; destruct a as [x|e']; cbn [bind];
    try discriminate; try (intros H; inversion H; subst; now apply Ha).
  destruct x as [ui ups|m i|]; cbn [permissionPayload].
  - destruct (serializePermissionUpdates ups); discriminate.
  - destruct i; discriminate.
  - intros H; inversion H; reflexivity.
Qed.

Lemma failureLine_defined requestId e :
  nullish e = false -> exists line, Query.failureLine requestId e = Normal line.
Proof.
  intros He. unfold Query.failureLine.
  destruct e; try discriminate; cbn [message_of bind]; eauto.
Qed.

(** Where the claim of C2 holds: the request has a body, every rejection of
    a callback or of the bridge carries a value other than [undefined] and
    [null], and the transport accepts what is written. Then the handler
    writes exactly one line and its promise is fulfilled: the success line
    with the payload when the [try] went through, else the error line with
    the message of what was thrown. *)
Lemma handleControlRequest_one_line
    (accepts : value -> completion unit)
    (settles : forall s : Query.suspension, completion (Query.answer s))
    (request : Query.SDKMessage) (q : Query.t) :
  (forall line, accepts line = Normal tt) ->
  nullish (get "request" request) = false ->
  (forall s e, settles s = Throw e -> nullish e = false) ->
  exists line,
    Query.handleControlRequest accepts settles request q
    = (Query.with_written
         (Query.written (fst (Query.handleControlRequest_begin request q))
          ++ [line])%list
         (fst (Query.handleControlRequest_begin request q)),
       Normal tt)
    /\ match snd (Query.handleControlRequest_begin request q) with
       | Query.Suspended s =>
           match Query.resume s (settles s) with
           | Normal payload =>
               line = Query.successLine (get "request_id" request) payload
           | Throw e =>
               Query.failureLine (get "request_id" request) e = Normal line
           end
       | Query.Caught e =>
           Query.failureLine (get "request_id" request) e = Normal line
       | Query.Rejects _ => False
       end.
Proof.
  intros Haccepts Hbody Hsettles.
  unfold Query.handleControlRequest.
  destruct (Query.handleControlRequest_begin request q) as [q0 st] eqn:Hb.
  cbn [fst snd]. unfold Query.handleControlRequest_begin, Query.prop in Hb.
  rewrite Hbody in Hb.
  destruct (Query.dispatch _ _ q) as [[q1 s]|e] eqn:Hd; inversion Hb; subst; clear Hb.
  - destruct (Query.resume s (settles s)) as [payload|e] eqn:Hr.
    + eexists. unfold Query.respond, Query.write. rewrite Haccepts. eauto.
    + apply resume_throws in Hr; [|apply Hsettles].
      destruct (failureLine_defined (get "request_id" request) e Hr) as [line Hl].
      exists line. unfold Query.respond, Query.write. rewrite Hl, Haccepts. eauto.
  - apply dispatch_throws in Hd.
    destruct (failureLine_defined (get "request_id" request) e Hd) as [line Hl].
    exists line. unfold Query.respond, Query.write. rewrite Hl, Haccepts. eauto.
Qed.

(** The read loop goes on after a control request, whatever becomes of the
    handler. *)
Lemma readLoop_drops_handler (message : Query.SDKMessage) (q : Query.t) :
  Query.closed q = false ->
  Query.isControlResponseMessage message = false ->
  Query.isControlRequestMessage message = true ->
  snd (fst (Query.readLoop_iteration message q)) = Query.Continue.
Proof.
  intros Hc Hr Hq. unfold Query.readLoop_iteration. rewrite Hc, Hr, Hq.
  now destruct (Query.handleControlRequest_begin message q).
Qed.

(** C2 fails where the permission callback rejects with [undefined] (as
    [Promise.reject()] does): the [catch] block reads [.message] of
    [undefined], which throws, so no line is written and the promise of the
    handler rejects with that [TypeError]. *)
Theorem handler_writes_nothing_on_undefined_rejection :
  let q := Query.create {| Query.canUseTool := true; Query.hooksOption := None;
                           Query.isStreamingMode := true;
                           Query.sdkMcpServers := ∅ |} in
  let request :=
    [("type", VStr "control_request"); ("request_id", VStr "req_tool");
     ("request", VObj [("subtype", VStr "can_use_tool"); ("tool_name", VStr "Bash");
                       ("input", VObj [("value", VNum 1)])])] in
  let settles := fun s : Query.suspension =>
    (Throw VUndefined : completion (Query.answer s)) in
  Query.handleControlRequest (fun _ => Normal tt) settles request q
  = (q, Throw (VError "Cannot read properties of undefined (reading 'message')"))
  /\ Query.written q = [].
Proof.
  split; reflexivity.
Qed.


(** *** The bridge: connecting *)

Section BridgeFrames.

Import Bridge.







End BridgeFrames.

Section BridgeConnecting.

Import Bridge.







End BridgeConnecting.









(** *** The bridge: overlapping calls *)

(** C4 fails on two calls of [handleRequest] made before either continues:
    both await the same settled promise at line 274, so the second starts
    [processRequest] while the first is still in it, and [onmessage] is
    invoked with the second message while the invocation with the first has
    not settled. The same happens to the second and third of three calls
    when both are made while the first is being processed. *)
Theorem deliveries_overlap :
  (exists s,
     Bridge.run twoCallsAtOnce (Bridge.create (Bridge.Service true false)) = Some s
     /\ Bridge.delivering s = [0; 1]
     /\ Bridge.outcome 0 s = None /\ Bridge.outcome 1 s = None)
  /\ (exists s,
        Bridge.run twoCallsBehindOne (Bridge.create (Bridge.Service true false)) = Some s
        /\ Bridge.delivering s = [1; 2]
        /\ Bridge.outcome 1 s = None /\ Bridge.outcome 2 s = None).
Proof.
  split; eexists; (split; [vm_compute; reflexivity|]); repeat split; reflexivity.
Qed.

(** *** The bridge: the timeout *)

(** The timer of a waiting call fires no earlier than its deadline and then
    fails that call with the timeout error; the deadline is set sixty
    seconds after the call starts to wait. *)
Lemma timeout_at_deadline (t : nat) (s : Bridge.state) deadline l :
  Bridge.pc_of t s = Some (Bridge.AwaitResponse deadline l) ->
  Bridge.step (Bridge.Timeout t) s
  = if (deadline <=? Bridge.now s)%Z
    then Some (Bridge.set_pc t (Bridge.Finished (Rejected Bridge.err_timeout)) s)
    else None.
Proof. intros H. cbn [Bridge.step]. now rewrite H. Qed.


(** C6 holds in its first half and fails in its second. A request whose
    reply never comes fails with the timeout error once sixty seconds have
    passed, and not a millisecond earlier. But its [waitForResponse] loop
    stays a waiter of the outbound queue: the reply that the service then
    sends to the next request goes to that loop, which drops it, so the
    next request finds nothing and times out as well, although the same
    request on a new bridge is answered. *)
Theorem reply_lost_after_timeout :
  let bridge := Bridge.create (Bridge.Service true false) in
  (exists s,
     Bridge.run firstRequestTimesOut bridge = Some s
     /\ Bridge.outcome 0 s = Some (Rejected Bridge.err_timeout)
     /\ Bridge.now s = Bridge.timeoutMs)
  /\ Bridge.run (firstRequestWaits ++ [Bridge.Tick 59999; Bridge.Timeout 0])%list
                bridge = None
  /\ (exists s,
        Bridge.run (firstRequestTimesOut ++ answeredRequest 1 2
                    ++ [Bridge.LoopStep 0] ++ looksForReply 1)%list bridge = Some s
        /\ Bridge.outcome 1 s = None
        /\ AsyncQueue.values (Bridge.outboundQueue s) = []
        /\ AsyncQueue.waiters (Bridge.outboundQueue s) = [0; 1])
  /\ (exists s,
        Bridge.run (firstRequestTimesOut ++ answeredRequest 1 2
                    ++ [Bridge.LoopStep 0] ++ looksForReply 1
                    ++ [Bridge.Tick 60000; Bridge.Timeout 1])%list bridge = Some s
        /\ Bridge.outcome 1 s = Some (Rejected Bridge.err_timeout))
  /\ (exists s,
        Bridge.run ([Bridge.Call (rpcRequest 2); Bridge.Resume 0;
                     Bridge.Assign true false;
                     Bridge.ConnectSettles 0 (Resolved VUndefined);
                     Bridge.Continue 0; Bridge.Send (rpcReply 2)]
                    ++ looksForReply 0 ++ [Bridge.LoopStep 0])%list bridge = Some s
        /\ Bridge.outcome 0 s = Some (Resolved (VObj (rpcReply 2)))).
Proof.
  intros bridge.
  split; [|split; [vm_compute; reflexivity|split; [|split]]];
    eexists; (split; [vm_compute; reflexivity|]); repeat split; reflexivity.
Qed.



(** ** Further properties of the code *)

(** *** The async channel *)

Section Channel.

Context {T W : Type}.
Implicit Types (q : AsyncQueue.t T W) (v : T) (w : W) (e : value).

Lemma channel_ok_step q (o : channel_op T W) :
  channel_ok q -> channel_ok (channel_after q o).
Proof.
  intros H.
  destruct o as [v| |e|w]; cbn [channel_after];
    unfold AsyncQueue.push, AsyncQueue.close, AsyncQueue.fail, AsyncQueue.next;
    repeat case_match; simplify_eq; try exact H;
    destruct H as (Hv & Hc & He); unfold channel_ok; cbn in *;
    intuition congruence.
Qed.

(** X1: whatever sequence of [push], [close], [fail] and [next] calls a new
    channel receives, no consumer is left waiting while a value is buffered
    or after the channel has been closed or failed, and an error is stored
    only in a closed channel. *)
Theorem channel_never_strands_a_consumer (ops : list (channel_op T W)) :
  channel_ok (fold_left channel_after ops AsyncQueue.empty).
Proof.
  assert (H : forall q, channel_ok q -> channel_ok (fold_left channel_after ops q)).
  { induction ops as [|o ops IH]; intros q Hq; [exact Hq|].
    cbn [fold_left]. apply IH. now apply channel_ok_step. }
  apply H. repeat split; cbn; auto; discriminate.
Qed.

(** Buffered values come out in the order they went in. *)
Lemma pushes_buffer vs : forall q,
  AsyncQueue.closed q = false -> AsyncQueue.waiters q = [] ->
  pushes vs q
  = Normal ({| AsyncQueue.values := AsyncQueue.values q ++ vs;
               AsyncQueue.waiters := [];
               AsyncQueue.closed := false;
               AsyncQueue.error := AsyncQueue.error q |}, []).
Proof.
  induction vs as [|v vs IH]; intros q Hc Hw; cbn [pushes].
  - rewrite app_nil_r. destruct q; cbn in *; now subst.
  - unfold AsyncQueue.push. rewrite Hc, Hw.
    rewrite IH by reflexivity. cbn. now rewrite <- app_assoc.
Qed.

Lemma nexts_buffered ws : forall q,
  truthy (AsyncQueue.error q) = false ->
  length ws <= length (AsyncQueue.values q) ->
  nexts ws q
  = ({| AsyncQueue.values := drop (length ws) (AsyncQueue.values q);
        AsyncQueue.waiters := AsyncQueue.waiters q;
        AsyncQueue.closed := AsyncQueue.closed q;
        AsyncQueue.error := AsyncQueue.error q |},
     map resolved
         (take (length ws) (AsyncQueue.values q))).
Proof.
  induction ws as [|w ws IH]; intros q He Hl; cbn [nexts length].
  - cbn. destruct q; reflexivity.
  - unfold AsyncQueue.next. rewrite He.
    destruct (AsyncQueue.values q) as [|v vs] eqn:Ev; [cbn in Hl; lia|].
    rewrite IH; cbn in *; [reflexivity|assumption|lia].
Qed.

(** X2: on an open channel on which nobody waits, the values pushed are
    returned by as many later [next()] calls in the order they were pushed,
    after the values that were buffered already. *)
Theorem channel_is_fifo q (vs : list T) (ws : list W) :
  AsyncQueue.closed q = false ->
  AsyncQueue.waiters q = [] ->
  truthy (AsyncQueue.error q) = false ->
  length ws = length (AsyncQueue.values q ++ vs) ->
  exists q1 q2,
    pushes vs q = Normal (q1, [])
    /\ nexts ws q1 = (q2, map resolved
                              (AsyncQueue.values q ++ vs))
    /\ AsyncQueue.values q2 = [].
Proof.
  intros Hc Hw He Hl. eexists _, _. split; [now apply pushes_buffer|].
  rewrite nexts_buffered; cbn [AsyncQueue.values AsyncQueue.error]; [|assumption|lia].
  rewrite Hl, firstn_all, drop_all. split; reflexivity.
Qed.

End Channel.

Lemma channel_is_fifo_witness :
  exists q1 q2,
    pushes [1; 2; 3] (AsyncQueue.empty : AsyncQueue.t nat nat) = Normal (q1, [])
    /\ nexts [10; 11; 12] q1
       = (q2, map resolved [1; 2; 3]).
Proof.
  destruct (channel_is_fifo (T:=nat) (W:=nat) AsyncQueue.empty [1; 2; 3] [10; 11; 12])
    as (q1 & q2 & H1 & H2 & _); try reflexivity.
  exists q1, q2. split; assumption.
Defined.

Section ChannelEnd.

Context {T W : Type}.
Implicit Types (q : AsyncQueue.t T W) (v : T) (w : W) (e : value).

(** X3: values pushed while consumers wait go to the consumers in the order
    in which these began to wait, one value each; values beyond the number
    of waiting consumers are buffered, consumers beyond the number of values
    keep waiting. *)
Theorem waiters_served_in_order (vs : list T) : forall (ws : list W) q,
  AsyncQueue.closed q = false ->
  AsyncQueue.values q = [] ->
  AsyncQueue.waiters q = ws ->
  pushes vs q
  = Normal ({| AsyncQueue.values := drop (length ws) vs;
               AsyncQueue.waiters := drop (length vs) ws;
               AsyncQueue.closed := false;
               AsyncQueue.error := AsyncQueue.error q |},
            map (fun p => (fst p, AsyncQueue.IterValue (snd p))) (combine ws vs)).
Proof.
  induction vs as [|v vs IH]; intros ws q Hc Hv Hw.
  - cbn [pushes]. rewrite combine_nil, drop_nil. cbn.
    destruct q; cbn in *; now subst.
  - destruct ws as [|w ws].
    + rewrite pushes_buffer by assumption. rewrite Hv. reflexivity.
    + cbn [pushes]. unfold AsyncQueue.push. rewrite Hc, Hw.
      rewrite (IH ws) by (cbn; auto). reflexivity.
Qed.

Lemma nexts_ended ws : forall q,
  AsyncQueue.closed q = true ->
  truthy (AsyncQueue.error q) = false ->
  nexts ws q
  = ({| AsyncQueue.values := drop (length ws) (AsyncQueue.values q);
        AsyncQueue.waiters := AsyncQueue.waiters q;
        AsyncQueue.closed := true;
        AsyncQueue.error := AsyncQueue.error q |},
     (map resolved (take (length ws) (AsyncQueue.values q))
      ++ replicate (length ws - length (AsyncQueue.values q))
                   (AsyncQueue.NextResolved AsyncQueue.IterDone))%list).
Proof.
  induction ws as [|w ws IH]; intros q Hc He; cbn [nexts length].
  - cbn. destruct q; cbn in *; now subst.
  - unfold AsyncQueue.next. rewrite He.
    destruct (AsyncQueue.values q) as [|v vs] eqn:Ev.
    + rewrite Hc, IH by assumption. rewrite Ev. cbn.
      rewrite drop_nil, take_nil, Nat.sub_0_r. reflexivity.
    + rewrite IH by assumption. reflexivity.
Qed.

(** X4: [close()] lets the buffer drain: on a channel that has not failed,
    the [next()] calls that follow a [close()] return the buffered values in
    order and then the end of the sequence, and none of them is left
    waiting. *)
Theorem close_drains q (ws : list W) :
  truthy (AsyncQueue.error q) = false ->
  snd (nexts ws (fst (AsyncQueue.close q)))
  = (map resolved (take (length ws) (AsyncQueue.values q))
     ++ replicate (length ws - length (AsyncQueue.values q))
                  (AsyncQueue.NextResolved AsyncQueue.IterDone))%list.
Proof.
  intros He. unfold AsyncQueue.close.
  destruct (AsyncQueue.closed q) eqn:Hc; cbn [fst]; now rewrite nexts_ended.
Qed.

Lemma nexts_failed ws : forall q,
  truthy (AsyncQueue.error q) = true ->
  nexts ws q = (q, replicate (length ws) (AsyncQueue.NextRejected (AsyncQueue.error q))).
Proof.
  induction ws as [|w ws IH]; intros q He; cbn [nexts length replicate]; [reflexivity|].
  unfold AsyncQueue.next at 1. rewrite He, IH by assumption. reflexivity.
Qed.

(** X5: [fail(error)] on an open channel, with an error that is truthy,
    rejects every waiting consumer and makes every later [next()] reject with
    that error; the values still buffered are never delivered. *)
Theorem fail_rejects_at_once q e (ws : list W) :
  AsyncQueue.closed q = false ->
  truthy e = true ->
  snd (AsyncQueue.fail e q) = AsyncQueue.waiters q
  /\ nexts ws (fst (AsyncQueue.fail e q))
     = (fst (AsyncQueue.fail e q), replicate (length ws) (AsyncQueue.NextRejected e))
  /\ AsyncQueue.values (fst (AsyncQueue.fail e q)) = AsyncQueue.values q.
Proof.
  intros Hc He. unfold AsyncQueue.fail. rewrite Hc. cbn [fst snd].
  split; [reflexivity|]. split; [|reflexivity].
  now rewrite nexts_failed.
Qed.

(** X6: [fail(error)] with an error that is falsy ([undefined], [null],
    [0], [""], [false]) stores nothing that [next()] sees: later consumers
    are served as after [close()], the buffer first and then the end of the
    sequence, and no error reaches them. *)
Theorem fail_with_falsy_error_is_close q e (ws : list W) :
  truthy (AsyncQueue.error q) = false ->
  truthy e = false ->
  snd (nexts ws (fst (AsyncQueue.fail e q)))
  = snd (nexts ws (fst (AsyncQueue.close q))).
Proof.
  intros Hq He. rewrite close_drains by assumption.
  unfold AsyncQueue.fail. destruct (AsyncQueue.closed q) eqn:Hc; cbn [fst];
    now rewrite nexts_ended.
Qed.

(** X7: of [close()] and [fail(error)] the first call decides: after either
    of them a further [close()] or [fail(error')] changes nothing and wakes
    nobody, so a stored error is never replaced. *)
Theorem channel_ends_once q e e' :
  let failed := fst (AsyncQueue.fail e q) in
  let closed := fst (AsyncQueue.close q) in
  AsyncQueue.fail e' failed = (failed, [])
  /\ AsyncQueue.close failed = (failed, [])
  /\ AsyncQueue.fail e' closed = (closed, [])
  /\ AsyncQueue.close closed = (closed, []).
Proof.
  cbn zeta.
  assert (Hf : AsyncQueue.closed (fst (AsyncQueue.fail e q)) = true).
  { unfold AsyncQueue.fail. now destruct (AsyncQueue.closed q) eqn:E. }
  assert (Hc : AsyncQueue.closed (fst (AsyncQueue.close q)) = true).
  { unfold AsyncQueue.close. now destruct (AsyncQueue.closed q) eqn:E. }
  repeat split.
  - unfold AsyncQueue.fail at 1. now rewrite Hf.
  - unfold AsyncQueue.close at 1. now rewrite Hf.
  - unfold AsyncQueue.fail at 1. now rewrite Hc.
  - unfold AsyncQueue.close at 1. now rewrite Hc.
Qed.

End ChannelEnd.

Lemma waiters_served_in_order_witness :
  pushes [1; 2]
    {| AsyncQueue.values := []; AsyncQueue.waiters := [7; 8; 9];
       AsyncQueue.closed := false; AsyncQueue.error := VUndefined |}
  = Normal ({| AsyncQueue.values := []; AsyncQueue.waiters := [9];
               AsyncQueue.closed := false; AsyncQueue.error := VUndefined |},
            [(7, AsyncQueue.IterValue 1); (8, AsyncQueue.IterValue 2)]).
Proof.
  apply (waiters_served_in_order [1; 2] [7; 8; 9]); reflexivity.
Defined.

Lemma close_drains_witness :
  snd (nexts [0; 1; 2]
         (fst (AsyncQueue.close
                 {| AsyncQueue.values := [5; 6]; AsyncQueue.waiters := [];
                    AsyncQueue.closed := false; AsyncQueue.error := VUndefined |})))
  = [resolved 5; resolved 6; AsyncQueue.NextResolved AsyncQueue.IterDone].
Proof.
  apply (close_drains
           {| AsyncQueue.values := [5; 6]; AsyncQueue.waiters := [];
              AsyncQueue.closed := false; AsyncQueue.error := VUndefined |}
           [0; 1; 2]).
  reflexivity.
Defined.

Lemma fail_rejects_at_once_witness :
  let q := {| AsyncQueue.values := [5; 6]; AsyncQueue.waiters := @nil nat;
              AsyncQueue.closed := false; AsyncQueue.error := VUndefined |} in
  nexts [0; 1] (fst (AsyncQueue.fail (VError "lost") q))
  = (fst (AsyncQueue.fail (VError "lost") q),
     [AsyncQueue.NextRejected (VError "lost"); AsyncQueue.NextRejected (VError "lost")]).
Proof.
  intros q.
  apply (fail_rejects_at_once q (VError "lost") [0; 1]); reflexivity.
Defined.

Lemma fail_with_falsy_error_is_close_witness :
  let q := {| AsyncQueue.values := [5]; AsyncQueue.waiters := @nil nat;
              AsyncQueue.closed := false; AsyncQueue.error := VUndefined |} in
  snd (nexts [0; 1] (fst (AsyncQueue.fail VUndefined q)))
  = snd (nexts [0; 1] (fst (AsyncQueue.close q))).
Proof.
  intros q.
  apply (fail_with_falsy_error_is_close q VUndefined [0; 1]); reflexivity.
Defined.


(** *** Wire conversions *)

Lemma keys_set k v (o : obj) :
  map fst (set k v o) = if has k o then map fst o else (map fst o ++ [k])%list.
Proof.
  induction o as [|[k' v'] o IH]; cbn [set has map fst app]; [reflexivity|].
  destruct (String.eqb_spec k' k) as [->|Hne]; [reflexivity|].
  cbn [map fst]. rewrite IH. now destruct (has k o).
Qed.

Lemma set_NoDup k v (o : obj) : NoDup (map fst o) -> NoDup (map fst (set k v o)).
Proof.
  intros H. rewrite keys_set. destruct (has k o) eqn:E; [exact H|].
  apply NoDup_app. repeat split; [exact H| |apply NoDup_singleton].
  intros x Hx Hk. apply list_elem_of_singleton in Hk. subst x.
  apply list_elem_of_In, has_keys in Hx. congruence.
Qed.

(** X8: whatever the hook output, the converted record has no name twice,
    also when the output has both [async_] and [async]. *)
Theorem convertHookOutputForCli_unique_keys (output : obj) :
  NoDup (map fst (convertHookOutputForCli output)).
Proof.
  induction output as [|[key v] output IH] using rev_ind; [constructor|].
  rewrite convert_snoc. unfold assign.
  destruct (String.eqb (wireKey key) "__proto__"); [exact IH|now apply set_NoDup].
Qed.

Lemma fold_set_fresh (l : obj) : forall acc : obj,
  NoDup (map fst (acc ++ l)) ->
  fold_left (fun converted kv => set (fst kv) (snd kv) converted) l acc = (acc ++ l)%list.
Proof.
  induction l as [|[k v] l IH]; intros acc Hnd; cbn [fold_left fst snd].
  - now rewrite app_nil_r.
  - assert (Hset : set k v acc = (acc ++ [(k, v)])%list).
    { rewrite List.map_app in Hnd. apply NoDup_app in Hnd as (_ & Hfresh & _).
      assert (Hk : ~ In k (map fst acc)).
      { intros Hin. apply (Hfresh k); [now apply list_elem_of_In|]. cbn. constructor. }
      clear - Hk. induction acc as [|[k' v'] acc IH]; cbn [set app]; [reflexivity|].
      destruct (String.eqb_spec k' k) as [->|Hne].
      - exfalso. apply Hk. cbn. auto.
      - rewrite IH; [reflexivity|]. intros Hin. apply Hk. cbn. auto. }
    rewrite Hset, IH; rewrite <- app_assoc; [reflexivity|exact Hnd].
Qed.

Lemma fold_left_agree {A B} (f g : A -> B -> A) (l : list B) :
  (forall a x, In x l -> f a x = g a x) ->
  forall a, fold_left f l a = fold_left g l a.
Proof.
  induction l as [|x l IH]; intros H a; cbn [fold_left]; [reflexivity|].
  rewrite H by (cbn; auto). apply IH. intros a' x' Hin. apply H. cbn. auto.
Qed.

(** X9: converting twice is converting once: the converted record has
    neither [async_] nor [continue_] left and is rebuilt field by field. *)
Theorem convertHookOutputForCli_idempotent (output : obj) :
  convertHookOutputForCli (convertHookOutputForCli output)
  = convertHookOutputForCli output.
Proof.
  set (c := convertHookOutputForCli output).
  assert (Hkeys : forall kv, In kv c -> wireKey (fst kv) = fst kv /\ fst kv <> "__proto__").
  { intros [k v] Hin. cbn [fst].
    assert (Hhas : has k c = true) by (apply has_keys, in_map_iff; exists (k, v); auto).
    apply convert_has_source in Hhas as (key & _ & Hp & Hk). split.
    - destruct (wireKey_cases k) as [[-> _]|[[-> _]|(_ & _ & H)]]; [| |exact H];
        destruct (wireKey_cases key) as [[_ H]|[[_ H]|(H1 & H2 & H)]]; congruence.
    - intros ->. exact (Hp (proj1 (wireKey_proto key) Hk)). }
  unfold convertHookOutputForCli at 1. fold c.
  rewrite (fold_left_agree _ (fun converted kv => set (fst kv) (snd kv) converted)).
  - apply (fold_set_fresh c []). apply convertHookOutputForCli_unique_keys.
  - intros converted [k v] Hin. destruct (Hkeys _ Hin) as [Hw Hp]. cbn [fst snd] in *.
    unfold wireKey in Hw.
    destruct (String.eqb k "async_"); [now rewrite Hw|].
    destruct (String.eqb k "continue_"); [now rewrite Hw|now apply assign_other].
Qed.

(** X10: when the output has several fields stored under one wire name, as
    [async_] and [async] are, the one enumerated last gives the value; and
    a field named [__proto__] is left out: the conversion is the conversion
    of the output without it. *)
Theorem convertHookOutputForCli_last_wins (before after : obj) key v :
  (key <> "__proto__" ->
   (forall key', In key' (map fst after) -> wireKey key' <> wireKey key) ->
   get (wireKey key) (convertHookOutputForCli (before ++ (key, v) :: after)) = v)
  /\ convertHookOutputForCli (before ++ ("__proto__", v) :: after)
     = convertHookOutputForCli (before ++ after).
Proof.
  split.
  - intros Hp H. apply convert_last; auto.
  - unfold convertHookOutputForCli. rewrite !fold_left_app. reflexivity.
Qed.

Lemma convertHookOutputForCli_last_wins_witness :
  get "async"
    (convertHookOutputForCli
       [("async_", VBool true); ("async", VBool false); ("extra", VNum 1)])
  = VBool false
  /\ get "async"
       (convertHookOutputForCli
          [("async", VBool false); ("async_", VBool true); ("extra", VNum 1)])
     = VBool true.
Proof.
  split.
  - apply (proj1 (convertHookOutputForCli_last_wins
             [("async_", VBool true)] [("extra", VNum 1)] "async" (VBool false))).
    + discriminate.
    + intros key' [<-|[]]. discriminate.
  - apply (proj1 (convertHookOutputForCli_last_wins
             [("async", VBool false)] [("extra", VNum 1)] "async_" (VBool true))).
    + discriminate.
    + intros key' [<-|[]]. discriminate.
Defined.

(** X11: the object written for a permission update has its fields in the
    fixed order [type], [destination], [rules], [behavior], [mode],
    [directories], each at most once and [type] always; it never has a
    field of another name. *)
Theorem serializePermissionUpdate_shape (update : PermissionUpdate) :
  sublist (map fst (serializePermissionUpdate update))
          ["type"; "destination"; "rules"; "behavior"; "mode"; "directories"]
  /\ head (map fst (serializePermissionUpdate update)) = Some "type".
Proof.
  destruct update as [ty rs b m ds d].
  destruct d as [[]|], rs as [rs|], b as [[]|], m as [[]|], ds as [ds|];
    cbv [serializePermissionUpdate destination rules behavior mode directories
         type optional truthy destination_name behavior_name mode_name
         String.eqb Ascii.eqb Bool.eqb negb set map fst head];
    (split; [repeat constructor | reflexivity]).
Qed.


(** *** Hook registration *)

Lemma labelled_app rand (c1 c2 : list nat) : forall i,
  labelled rand i (c1 ++ c2)
  = (labelled rand i c1 ++ labelled rand (i + length c1) c2)%list.
Proof.
  unfold labelled. induction c1 as [|c c1 IH]; intros i; cbn [app length].
  - now rewrite Nat.add_0_r.
  - cbn [seq map combine app]. rewrite IH.
    replace (i + S (length c1)) with (S i + length c1) by lia. reflexivity.
Qed.

Lemma registerCallbacks_labelled rand (cs : list nat) : forall i,
  Query.registerCallbacks rand i cs = (labelled rand i cs, i + length cs).
Proof.
  unfold labelled. induction cs as [|c cs IH]; intros i; cbn [Query.registerCallbacks].
  - cbn. now rewrite Nat.add_0_r.
  - rewrite IH. cbn [length seq map combine]. f_equal. lia.
Qed.

Lemma matcherConfigs_labelled rand (ms : list Query.HookMatcher) : forall i,
  snd (fst (Query.matcherConfigs rand i ms))
  = labelled rand i (concat (map matcherCallbacks ms))
  /\ snd (Query.matcherConfigs rand i ms)
     = i + length (concat (map matcherCallbacks ms)).
Proof.
  induction ms as [|m ms IH]; intros i; cbn [Query.matcherConfigs map concat].
  - cbn. split; [reflexivity|lia].
  - assert (Hr : match Query.hooks m with
                 | Some callbacks => Query.registerCallbacks rand i callbacks
                 | None => ([], i)
                 end = (labelled rand i (matcherCallbacks m),
                        i + length (matcherCallbacks m))).
    { unfold matcherCallbacks. destruct (Query.hooks m);
        [apply registerCallbacks_labelled|]. cbn. now rewrite Nat.add_0_r. }
    rewrite Hr.
    destruct (IH (i + length (matcherCallbacks m))) as [IH1 IH2].
    destruct (Query.matcherConfigs rand (i + length (matcherCallbacks m)) ms)
      as [[configs regs] k].
    cbn [fst snd] in *. subst. rewrite labelled_app, length_app. split; [reflexivity|lia].
Qed.

Lemma hookEvents_labelled rand events : forall i config,
  snd (fst (Query.hookEvents rand i events config)) = labelled rand i (allCallbacks events)
  /\ snd (Query.hookEvents rand i events config) = i + length (allCallbacks events).
Proof.
  unfold allCallbacks.
  induction events as [|[event matchers] events IH]; intros i config;
    cbn [Query.hookEvents map concat snd].
  - cbn. split; [reflexivity|lia].
  - destruct matchers as [|m ms].
    + cbn [map concat app]. apply IH.
    + destruct (matcherConfigs_labelled rand (m :: ms) i) as [H1 H2].
      destruct (Query.matcherConfigs rand i (m :: ms)) as [[configs regs] j].
      cbn [fst snd] in H1, H2. subst.
      match goal with |- context [Query.hookEvents rand ?j events ?c] =>
        destruct (IH j c) as [IH1 IH2];
        destruct (Query.hookEvents rand j events c) as [[config' regs'] k] end.
      cbn [fst snd] in *. subst.
      rewrite labelled_app, length_app. split; [reflexivity|lia].
Qed.

Lemma labelled_callbacks rand (cs : list nat) : forall i,
  map snd (labelled rand i cs) = cs.
Proof.
  unfold labelled. induction cs as [|c cs IH]; intros i; [reflexivity|].
  cbn [length seq map combine snd]. now rewrite IH.
Qed.

(** X12: [buildHookConfig] calls [register] once for every callback of
    every matcher of every event, in that order, each under ["hook_"]
    followed by a new draw of random hex, and makes no other draw. *)
Theorem buildHookConfig_registers_each_callback
    (rand : nat -> string) (events : list (string * list Query.HookMatcher)) :
  snd (fst (Query.buildHookConfig rand (Some events)))
  = labelled rand 0 (allCallbacks events)
  /\ snd (Query.buildHookConfig rand (Some events)) = length (allCallbacks events)
  /\ map snd (snd (fst (Query.buildHookConfig rand (Some events))))
     = allCallbacks events.
Proof.
  unfold Query.buildHookConfig.
  destruct (hookEvents_labelled rand events 0 []) as [H1 H2].
  destruct (Query.hookEvents rand 0 events []) as [[config regs] n].
  cbn [fst snd] in *. subst.
  pose proof (labelled_callbacks rand (allCallbacks events) 0) as H.
  destruct config; cbn [fst snd]; auto.
Qed.

Lemma labelled_ids rand (cs : list nat) : forall i,
  map fst (labelled rand i cs) = map (fun k => "hook_" ++ rand k) (seq i (length cs)).
Proof.
  unfold labelled. induction cs as [|c cs IH]; intros i; [reflexivity|].
  cbn [length seq map combine fst]. now rewrite IH.
Qed.

Lemma distinct_ids rand n : forall i,
  (forall a b, i <= a < i + n -> i <= b < i + n -> rand a = rand b -> a = b) ->
  NoDup (map (fun k => "hook_" ++ rand k) (seq i n)).
Proof.
  induction n as [|n IH]; intros i Hinj; cbn [seq map]; constructor.
  - intros Hin. apply list_elem_of_In, in_map_iff in Hin as (k & Hk & Hin).
    apply in_seq in Hin. cbn in Hk. injection Hk as Hk.
    apply Hinj in Hk; lia.
  - apply IH. intros a b Ha Hb. apply Hinj; lia.
Qed.

Lemma registered_lookup (l : list (string * nat)) : forall (m : gmap string nat) id cb,
  NoDup (map fst l) -> In (id, cb) l ->
  fold_left (fun m r => <[fst r := snd r]> m) l m !! id = Some cb.
Proof.
  induction l as [|[k c] l IH]; intros m id cb Hnd Hin; [destruct Hin|].
  cbn [fold_left fst snd]. cbn [map fst] in Hnd. apply NoDup_cons in Hnd as [Hk Hnd].
  destruct Hin as [Heq|Hin].
  - inversion Heq; subst. clear IH Hnd.
    revert m. induction l as [|[k' c'] l IH]; intros m; cbn [fold_left fst snd].
    + apply lookup_insert_eq.
    + cbn [map fst] in Hk. apply not_elem_of_cons in Hk as [Hne Hk].
      rewrite insert_insert_ne by congruence. now apply IH.
  - now apply IH.
Qed.

(** X13: when the draws of random hex are pairwise different, every hook
    callback of the options is in [hookCallbacks] under its identifier once
    [initialize()] has sent its request, and a [hook_callback] request that
    names the identifier reaches that callback, with the request's input
    and with [null] for a missing tool use id. *)
Theorem initialize_registers_hooks
    (accepts : value -> completion unit) (rand : nat -> string) (q q' : Query.t)
    (events : list (string * list Query.HookMatcher)) r id callback requestBody :
  Query.isStreamingMode (Query.opts q) = true ->
  Query.hooksOption (Query.opts q) = Some events ->
  (forall a b, a < length (allCallbacks events) -> b < length (allCallbacks events) ->
               rand a = rand b -> a = b) ->
  Query.initialize_begin accepts rand q = (q', r) ->
  In (id, callback) (labelled rand 0 (allCallbacks events)) ->
  Query.read "callback_id" requestBody = VStr id ->
  Query.hookCallbacks q' !! id = Some callback
  /\ Query.dispatch (VStr "hook_callback") requestBody q'
     = Normal (q', Query.OnHookCallback callback
                     (Query.read "input" requestBody)
                     (coalesce (Query.read "tool_use_id" requestBody) VNull)).
Proof.
  intros Hmode Hhooks Hinj Hinit Hin Hid.
  assert (Hlookup : Query.hookCallbacks q' !! id = Some callback).
  { unfold Query.initialize_begin in Hinit. rewrite Hmode, Hhooks in Hinit.
    cbn [negb] in Hinit.
    assert (Hreg : snd (fst (Query.buildHookConfig rand (Some events)))
                   = labelled rand 0 (allCallbacks events)).
    { unfold Query.buildHookConfig.
      destruct (hookEvents_labelled rand events 0 []) as [H1 _].
      destruct (Query.hookEvents rand 0 events []) as [[[|] regs] n]; exact H1. }
    destruct (Query.buildHookConfig rand (Some events)) as [[config regs] n].
    cbn [fst snd] in Hreg. subst regs.
    unfold Query.sendControlRequest_begin, Query.write in Hinit.
    cbn [Query.opts Query.with_hookCallbacks] in Hinit.
    rewrite Hmode in Hinit. cbn [negb] in Hinit.
    destruct (accepts _); inversion Hinit; subst; clear Hinit;
      cbn [Query.hookCallbacks Query.with_written Query.with_pending
           Query.with_requestCounter Query.with_hookCallbacks];
      (apply registered_lookup; [|exact Hin]);
      rewrite labelled_ids; apply distinct_ids; intros i j Ha Hb; apply Hinj; lia. }
  split; [exact Hlookup|].
  unfold Query.dispatch. cbn [truthy is_string negb String.eqb Ascii.eqb Bool.eqb].
  rewrite Hid. cbn [coalesce nullish toString]. now rewrite Hlookup.
Qed.

Lemma initialize_registers_hooks_witness :
  let rand := fun i : nat => match i with 0 => "0000000a" | _ => "0000000b" end in
  let events := [("PreToolUse", [{| Query.matcher := VNull; Query.hooks := Some [0; 1] |}])] in
  let q := Query.create {| Query.canUseTool := false; Query.hooksOption := Some events;
                           Query.isStreamingMode := true;
                           Query.sdkMcpServers := ∅ |} in
  Query.hookCallbacks (fst (Query.initialize_begin (fun _ => Normal tt) rand q))
    !! "hook_0000000b" = Some 1.
Proof.
  intros rand events q.
  destruct (Query.initialize_begin (fun _ => Normal tt) rand q) as [q' r] eqn:E.
  destruct (initialize_registers_hooks (fun _ => Normal tt) rand q q' events r
              "hook_0000000b" 1 (VObj [("callback_id", VStr "hook_0000000b")]))
    as [H _]; try reflexivity; try exact E.
  - intros [|[|a]] [|[|b]]; cbn; intros; try lia; try discriminate; reflexivity.
  - cbn. auto.
  - exact H.
Defined.


(** *** Requests of the engine *)

Lemma perform_non_streaming accepts (q : Query.t) (o : operation) :
  Query.isStreamingMode (Query.opts q) = false ->
  Query.isStreamingMode (Query.opts (perform accepts q o)) = false
  /\ Query.written (perform accepts q o) = Query.written q
  /\ Query.pendingControlRequests (perform accepts q o) = Query.pendingControlRequests q
  /\ Query.requestCounter (perform accepts q o) = Query.requestCounter q
  /\ Query.hookCallbacks (perform accepts q o) = Query.hookCallbacks q
  /\ Query.endInputCalls (perform accepts q o) = Query.endInputCalls q.
Proof.
  intros Hmode.
  destruct o; cbn [perform];
    unfold Query.initialize_begin, Query.interrupt_begin, Query.setPermissionMode_begin,
      Query.setModel_begin, Query.streamInput, Query.sendControlRequest_begin;
    rewrite Hmode; cbn; auto 10.
Qed.

(** X14: an engine outside streaming mode never writes to its transport,
    never ends its input and never registers a request, whatever sequence
    of [initialize], [interrupt], [setPermissionMode], [setModel] and
    [streamInput] calls it receives; [interrupt], [setPermissionMode] and
    [setModel] reject with the error of [sendControlRequest] and
    [streamInput] with its own. *)
Theorem non_streaming_engine_is_silent
    (accepts : value -> completion unit) (q : Query.t) (ops : list operation) :
  Query.isStreamingMode (Query.opts q) = false ->
  (Query.written (fold_left (perform accepts) ops q) = Query.written q
   /\ Query.pendingControlRequests (fold_left (perform accepts) ops q)
      = Query.pendingControlRequests q
   /\ Query.requestCounter (fold_left (perform accepts) ops q) = Query.requestCounter q
   /\ Query.endInputCalls (fold_left (perform accepts) ops q) = Query.endInputCalls q)
  /\ (forall hex mode model stream ends,
        snd (Query.interrupt_begin accepts hex q) = Throw Query.err_not_streaming
        /\ snd (Query.setPermissionMode_begin accepts hex mode q)
           = Throw Query.err_not_streaming
        /\ snd (Query.setModel_begin accepts hex model q) = Throw Query.err_not_streaming
        /\ snd (Query.streamInput accepts ends stream q) = Throw Query.err_stream_mode).
Proof.
  intros Hmode. split.
  - revert q Hmode. induction ops as [|o ops IH]; intros q Hmode; [auto|].
    cbn [fold_left].
    destruct (perform_non_streaming accepts q o Hmode) as (H0 & H1 & H2 & H3 & _ & H5).
    destruct (IH _ H0) as (I1 & I2 & I3 & I4). repeat split; congruence.
  - intros hex mode model stream ends.
    unfold Query.interrupt_begin, Query.setPermissionMode_begin, Query.setModel_begin,
      Query.streamInput, Query.sendControlRequest_begin.
    rewrite Hmode. cbn. auto.
Qed.

Lemma non_streaming_engine_is_silent_witness :
  Query.written
    (fold_left (perform (fun _ => Normal tt))
       [Interrupt "00000000"; StreamInput [[("type", VStr "user")]] (Normal tt);
        SetModel "00000001" VNull]
       (Query.create {| Query.canUseTool := false; Query.hooksOption := None;
                        Query.isStreamingMode := false;
                        Query.sdkMcpServers := ∅ |}))
  = [].
Proof.
  apply (non_streaming_engine_is_silent (fun _ => Normal tt)
           (Query.create {| Query.canUseTool := false; Query.hooksOption := None;
                            Query.isStreamingMode := false;
                            Query.sdkMcpServers := ∅ |})).
  reflexivity.
Defined.

Lemma length_append (a b : string) :
  String.length (a ++ b) = String.length a + String.length b.
Proof.
  induction a as [|c a IH]; [reflexivity|].
  change (String c a ++ b) with (String c (a ++ b)).
  cbn [String.length Nat.add]. now rewrite IH.
Qed.

Lemma append_inj_suffix (a a' b b' : string) :
  String.length b = String.length b' -> a ++ b = a' ++ b' -> a = a' /\ b = b'.
Proof.
  revert a'. induction a as [|c a IH]; intros [|c' a'] Hlen H.
  - auto.
  - change (b = String c' (a' ++ b')) in H. subst b.
    cbn [String.length] in Hlen. rewrite length_append in Hlen. lia.
  - change (String c (a ++ b) = b') in H. subst b'.
    cbn [String.length] in Hlen. rewrite length_append in Hlen. lia.
  - change (String c (a ++ b) = String c' (a' ++ b')) in H.
    injection H as -> H. destruct (IH a' Hlen H) as [-> ->]. auto.
Qed.

Lemma requestIdOf_inj n n' hex hex' :
  String.length hex = String.length hex' ->
  Query.requestIdOf n hex = Query.requestIdOf n' hex' -> n = n' /\ hex = hex'.
Proof.
  intros Hlen H. unfold Query.requestIdOf in H.
  apply (String.app_inj "req_") in H.
  apply append_inj_suffix in H as [Hn Hh]; [|rewrite !length_append; congruence].
  apply pretty_nat_inj in Hn. apply (String.app_inj "_") in Hh. auto.
Qed.

Lemma pending_ids_ok_step accepts L e (q : Query.t) :
  hex_length L e -> pending_ids_ok L q -> pending_ids_ok L (fst (correlate accepts e q)).
Proof.
  intros He Hok. destruct e as [hex request|message|requestId r]; cbn [correlate fst].
  - cbn in He. destruct (send_effect accepts hex request q) as [->|[Hc Hp]]; [exact Hok|].
    unfold pending_ids_ok. rewrite Hc, Hp. intros id p Hl.
    apply lookup_insert_Some in Hl as [[<- <-]|[_ Hl]].
    + split; [lia|eauto].
    + destruct (Hok id p Hl) as [Hle Hex]. split; [lia|exact Hex].
  - destruct (Query.handleControlResponse message q) as [[q' s]|e] eqn:Hr; [|exact Hok].
    apply receive_effect in Hr as [Hc [[_ ->]|(id & p & r & _ & _ & _ & Hp)]]; [exact Hok|].
    cbn [fst]. unfold pending_ids_ok. rewrite Hc, Hp. intros id' p' Hl.
    apply lookup_delete_Some in Hl as [_ Hl]. now apply Hok.
  - destruct (end_effect requestId r q) as [Hc Hp].
    unfold pending_ids_ok. rewrite Hc, Hp. intros id' p' Hl.
    apply lookup_delete_Some in Hl as [_ Hl]. now apply Hok.
Qed.

(** X15: request identifiers are never reused while pending. Over any run
    of requests sent, responses received and waits ended from a new engine,
    with random suffixes of one length (eight characters, for four random
    bytes in hex), the identifier that the next request gets is not the
    identifier of a pending request, so registering it replaces none. *)
Theorem next_request_id_is_fresh
    (accepts : value -> completion unit) (o : Query.options)
    (es : list correlation_event) (L : nat) (hex : string) :
  Forall (hex_length L) es ->
  String.length hex = L ->
  let q := fold_left (fun q e => fst (correlate accepts e q)) es (Query.create o) in
  Query.pendingControlRequests q
    !! Query.requestIdOf (S (Query.requestCounter q)) hex = None.
Proof.
  intros Hes Hhex q.
  assert (Hok : pending_ids_ok L q).
  { subst q. assert (H0 : pending_ids_ok L (Query.create o)).
    { intros id p. cbn. rewrite lookup_empty. discriminate. }
    revert H0. generalize (Query.create o).
    induction Hes as [|e es He Hes IH]; intros q0 H0; [exact H0|].
    cbn [fold_left]. apply IH. now apply pending_ids_ok_step. }
  destruct (Query.pendingControlRequests q !! _) as [p|] eqn:Hl; [|reflexivity].
  destruct (Hok _ _ Hl) as [Hle (hex' & Hlen & Heq)].
  apply requestIdOf_inj in Heq as [Hn _]; [lia|congruence].
Qed.

Lemma next_request_id_is_fresh_witness :
  let q := fold_left (fun q e => fst (correlate (fun _ => Normal tt) e q))
             [Sends "0000000a" [("subtype", VStr "interrupt")];
              Sends "0000000a" [("subtype", VStr "interrupt")]]
             (Query.create {| Query.canUseTool := false; Query.hooksOption := None;
                              Query.isStreamingMode := true;
                              Query.sdkMcpServers := ∅ |}) in
  Query.pendingControlRequests q !! Query.requestIdOf (S (Query.requestCounter q)) "0000000a"
  = None.
Proof.
  apply (next_request_id_is_fresh (fun _ => Normal tt) _ _ 8 "0000000a");
    [repeat constructor | reflexivity].
Defined.

(** X16: when the transport rejects the write of a request,
    [sendControlRequest] rejects with the transport's error, nothing is
    written, and the request stays registered in [pendingControlRequests]:
    the [finally] that removes it guards only the wait for the response. *)
Theorem rejected_write_leaves_request_pending
    (accepts : value -> completion unit) (hex : string)
    (request : list (string * value)) (q : Query.t) e :
  Query.isStreamingMode (Query.opts q) = true ->
  (forall line, accepts line = Throw e) ->
  exists q',
    Query.sendControlRequest_begin accepts hex request q = (q', Throw e)
    /\ Query.written q' = Query.written q
    /\ Query.pendingControlRequests q'
       !! Query.requestIdOf (S (Query.requestCounter q)) hex
       = Some (S (Query.requestCounter q)).
Proof.
  intros Hmode Hacc. unfold Query.sendControlRequest_begin, Query.write.
  rewrite Hmode, Hacc. cbn [negb]. eexists. split; [reflexivity|].
  cbn [Query.written Query.pendingControlRequests Query.with_pending
       Query.with_requestCounter].
  split; [reflexivity|apply lookup_insert_eq].
Qed.

Lemma rejected_write_leaves_request_pending_witness :
  exists q',
    Query.interrupt_begin (fun _ => Throw (VError "EPIPE")) "0000000a"
      (Query.create {| Query.canUseTool := false; Query.hooksOption := None;
                       Query.isStreamingMode := true;
                       Query.sdkMcpServers := ∅ |})
    = (q', Throw (VError "EPIPE"))
    /\ Query.pendingControlRequests q' !! "req_1_0000000a" = Some 1.
Proof.
  destruct (rejected_write_leaves_request_pending
              (fun _ => Throw (VError "EPIPE")) "0000000a"
              [("subtype", VStr "interrupt")]
              (Query.create {| Query.canUseTool := false; Query.hooksOption := None;
                               Query.isStreamingMode := true;
                               Query.sdkMcpServers := ∅ |}) (VError "EPIPE"))
    as (q' & H1 & _ & H3); [reflexivity | reflexivity |].
  exists q'. split; [exact H1 | exact H3].
Defined.

(** X17: a request and its response. With a transport that accepts the
    write, [sendControlRequest] writes one [control_request] line with a new
    identifier and waits; the control response that names the identifier
    settles exactly that wait, with the response's payload (the empty object
    when it has none) or, for subtype ["error"], with an error carrying the
    peer's message; the caller then gets the payload, or a
    [CLIConnectionError] whose message is that message behind
    "控制请求失败：", and [pendingControlRequests] is as before the call. *)
Theorem request_response_round_trip
    (accepts : value -> completion unit) (hex : string)
    (request : list (string * value)) (q : Query.t) (message : Query.SDKMessage) :
  let id := Query.requestIdOf (S (Query.requestCounter q)) hex in
  let response := get "response" message in
  Query.isStreamingMode (Query.opts q) = true ->
  (forall line, accepts line = Normal tt) ->
  Query.pendingControlRequests q !! id = None ->
  Query.prop "request_id" response = Normal (VStr id) ->
  exists q1 q2 q3 r,
    Query.sendControlRequest_begin accepts hex request q
    = (q1, Normal (id, S (Query.requestCounter q)))
    /\ Query.written q1
       = (Query.written q
          ++ [json (VObj [("type", VStr "control_request");
                          ("request_id", VStr id);
                          ("request", VObj request)])])%list
    /\ Query.handleControlResponse message q1
       = Normal (q2, Some (S (Query.requestCounter q), r))
    /\ r = (if is_string "error" (Query.read "subtype" response)
            then Rejected (VError (toString
                   (coalesce (Query.read "error" response)
                             (VStr "控制通道返回未知错误。"))))
            else Resolved (coalesce (Query.read "response" response) (VObj [])))
    /\ Query.sendControlRequest_end id r q2
       = (q3, match r with
              | Resolved v => Resolved v
              | Rejected error =>
                  Rejected (VError ("控制请求失败：" ++ toString
                    (coalesce (Query.read "error" response)
                              (VStr "控制通道返回未知错误。"))))
              end)
    /\ Query.pendingControlRequests q3 = Query.pendingControlRequests q.
Proof.
  intros id response Hmode Hacc Hfresh Hid.
  set (n := S (Query.requestCounter q)).
  set (line := json (VObj [("type", VStr "control_request");
                           ("request_id", VStr id); ("request", VObj request)])).
  set (q1 := Query.with_written (Query.written q ++ [line])%list
               (Query.with_pending (<[id := n]> (Query.pendingControlRequests q))
                  (Query.with_requestCounter n q))).
  set (q2 := Query.with_pending (delete id (Query.pendingControlRequests q1)) q1).
  assert (Hpending : delete id (Query.pendingControlRequests q2)
                     = Query.pendingControlRequests q).
  { cbn [q2 q1 Query.pendingControlRequests Query.with_written Query.with_pending].
    rewrite delete_insert_eq.
    now rewrite !(delete_id (Query.pendingControlRequests q)) by exact Hfresh. }
  assert (Hbegin : Query.sendControlRequest_begin accepts hex request q
                   = (q1, Normal (id, n))).
  { unfold Query.sendControlRequest_begin, Query.write.
    rewrite Hmode, Hacc. reflexivity. }
  assert (Hlookup : Query.pendingControlRequests q1 !! id = Some n)
    by apply lookup_insert_eq.
  exists q1, q2, (Query.with_pending (delete id (Query.pendingControlRequests q2)) q2).
  unfold Query.handleControlResponse. fold response. rewrite Hid.
  cbn [bind Query.pending_get Query.pending_delete]. rewrite Hlookup. fold q2.
  destruct (is_string "error" (Query.read "subtype" response));
    eexists; (split; [exact Hbegin|]); (split; [reflexivity|]);
    (split; [reflexivity|]); (split; [reflexivity|]);
    (split; [reflexivity|exact Hpending]).
Qed.

Lemma request_response_round_trip_witness :
  let q := Query.create {| Query.canUseTool := false; Query.hooksOption := None;
                           Query.isStreamingMode := true;
                           Query.sdkMcpServers := ∅ |} in
  let message :=
    [("type", VStr "control_response");
     ("response", VObj [("subtype", VStr "success");
                        ("request_id", VStr "req_1_0000000a");
                        ("response", VObj [("ok", VBool true)])])] in
  exists q1 q2 q3,
    Query.sendControlRequest_begin (fun _ => Normal tt) "0000000a"
      [("subtype", VStr "interrupt")] q = (q1, Normal ("req_1_0000000a", 1))
    /\ Query.handleControlResponse message q1
       = Normal (q2, Some (1, Resolved (VObj [("ok", VBool true)])))
    /\ Query.sendControlRequest_end "req_1_0000000a"
         (Resolved (VObj [("ok", VBool true)])) q2
       = (q3, Resolved (VObj [("ok", VBool true)]))
    /\ Query.pendingControlRequests q3 = ∅.
Proof.
  intros q message.
  destruct (request_response_round_trip (fun _ => Normal tt) "0000000a"
              [("subtype", VStr "interrupt")] q message)
    as (q1 & q2 & q3 & r & H1 & _ & H3 & H4 & H5 & H6);
    [reflexivity | reflexivity | reflexivity | reflexivity |].
  cbv zeta in H4. change (r = Resolved (VObj [("ok", VBool true)])) in H4. subst r.
  exists q1, q2, q3. repeat split; assumption.
Defined.


(** *** The read loop *)

Lemma handleControlResponse_frame (message : Query.SDKMessage) (q q' : Query.t) s :
  Query.handleControlResponse message q = Normal (q', s) ->
  Query.messageQueue q' = Query.messageQueue q
  /\ Query.closed q' = Query.closed q
  /\ Query.written q' = Query.written q
  /\ Query.bridges q' = Query.bridges q
  /\ Query.sdkMcpBridges q' = Query.sdkMcpBridges q
  /\ Query.handed q' = Query.handed q.
Proof.
  unfold Query.handleControlResponse.
  destruct (Query.prop "request_id" _) as [requestId|e]; [|discriminate].
  cbn [bind]. destruct (Query.pending_get requestId q) as [p|].
  - destruct requestId; cbn [Query.pending_delete];
      destruct (is_string "error" _); intros H; inversion H; subst; auto 10.
  - intros H; inversion H; subst; auto 10.
Qed.

Lemma handleControlRequest_begin_frame (request : Query.SDKMessage) (q : Query.t) :
  let q' := fst (Query.handleControlRequest_begin request q) in
  Query.messageQueue q' = Query.messageQueue q
  /\ Query.closed q' = Query.closed q
  /\ Query.written q' = Query.written q
  /\ Query.pendingControlRequests q' = Query.pendingControlRequests q
  /\ Query.hookCallbacks q' = Query.hookCallbacks q
  /\ Query.requestCounter q' = Query.requestCounter q
  /\ Query.initializationResult q' = Query.initializationResult q
  /\ Query.handed q' = Query.handed q.
Proof.
  unfold Query.handleControlRequest_begin.
  destruct (Query.prop "subtype" _) as [subtype|e]; [|cbn; auto 10].
  unfold Query.dispatch.
  destruct (negb (truthy subtype)); [cbn; auto 10|].
  destruct (is_string "can_use_tool" subtype).
  { destruct (negb _); cbn; auto 10. }
  destruct (is_string "hook_callback" subtype).
  { destruct (Query.hookCallbacks q !! _); cbn; auto 10. }
  destruct (is_string "mcp_message" subtype); [|cbn; auto 10].
  destruct (String.eqb _ ""); [cbn; auto 10|].
  destruct (negb _ || negb _); [cbn; auto 10|].
  unfold Query.getOrCreateMcpServerBridge, Query.callBridge.
  destruct (Query.sdkMcpBridges q !! _) as [b|].
  - cbn [bind]. destruct (Query.bridges q !! b) as [s|]; cbn; auto 10.
  - destruct (Query.lookupServer _ _) as [i|]; [|cbn; auto 10].
    destruct (Bridge.falsy_instance i); [cbn; auto 10|].
    cbn [bind Query.bridges Query.with_bridges].
    destruct ((Query.bridges q ++ [Bridge.create i])%list !! length (Query.bridges q));
      cbn; auto 10.
Qed.

(** X18: a control response without a [response] object ends the read
    loop. Reading its [request_id] throws; the loop catches the error, fails
    the message queue with it and closes the queue, so a consumer's next
    pull is rejected with that error; the messages after it are not
    processed and no handler is started. *)
Theorem malformed_control_response_ends_read_loop
    (message : Query.SDKMessage) (rest : list Query.SDKMessage)
    (ending : option value) (q : Query.t) (w : nat) :
  Query.closed q = false ->
  Query.isControlResponseMessage message = true ->
  nullish (get "response" message) = true ->
  AsyncQueue.closed (Query.messageQueue q) = false ->
  let e := VError ("Cannot read properties of " ++ toString (get "response" message)
                   ++ " (reading 'request_id')") in
  let q' := fst (Query.readLoop (message :: rest) ending q) in
  snd (Query.readLoop (message :: rest) ending q) = []
  /\ snd (AsyncQueue.next w (Query.receiveMessages q')) = AsyncQueue.NextRejected e
  /\ AsyncQueue.closed (Query.receiveMessages q') = true
  /\ Query.pendingControlRequests q' = Query.pendingControlRequests q
  /\ Query.written q' = Query.written q.
Proof.
  intros Hc Hr Hn Hq e q'. subst q'.
  unfold Query.readLoop. cbn [Query.readLoop_messages].
  unfold Query.readLoop_iteration. rewrite Hc, Hr.
  unfold Query.handleControlResponse, Query.prop. rewrite Hn. cbn [bind fst snd].
  unfold Query.readLoop_end, Query.receiveMessages.
  cbn [Query.messageQueue Query.with_messageQueue Query.pendingControlRequests
       Query.written].
  unfold AsyncQueue.fail. rewrite Hq. cbn [fst AsyncQueue.close AsyncQueue.closed].
  unfold AsyncQueue.close. cbn [AsyncQueue.closed fst].
  unfold AsyncQueue.next. cbn [AsyncQueue.error truthy]. fold e.
  repeat split; reflexivity.
Qed.

Lemma malformed_control_response_ends_read_loop_witness :
  let q := Query.create {| Query.canUseTool := false; Query.hooksOption := None;
                           Query.isStreamingMode := true;
                           Query.sdkMcpServers := ∅ |} in
  let message := [("type", VStr "control_response")] in
  let rest := [[("type", VStr "assistant")]] in
  let e := VError "Cannot read properties of undefined (reading 'request_id')" in
  let q' := fst (Query.readLoop (message :: rest) None q) in
  snd (Query.readLoop (message :: rest) None q) = []
  /\ snd (AsyncQueue.next 0 (Query.receiveMessages q')) = AsyncQueue.NextRejected e
  /\ AsyncQueue.closed (Query.receiveMessages q') = true
  /\ Query.pendingControlRequests q' = Query.pendingControlRequests q
  /\ Query.written q' = Query.written q.
Proof.
  apply (malformed_control_response_ends_read_loop
           [("type", VStr "control_response")] [[("type", VStr "assistant")]] None
           (Query.create {| Query.canUseTool := false; Query.hooksOption := None;
                            Query.isStreamingMode := true;
                            Query.sdkMcpServers := ∅ |}) 0);
    reflexivity.
Defined.

Lemma readLoop_iteration_open (message : Query.SDKMessage) (q : Query.t) :
  Query.closed q = false ->
  AsyncQueue.closed (Query.messageQueue q) = false ->
  hasResponse message ->
  exists q' h,
    Query.readLoop_iteration message q = (q', Query.Continue, h)
    /\ Query.closed q' = false
    /\ AsyncQueue.closed (Query.messageQueue q') = false
    /\ AsyncQueue.error (Query.messageQueue q') = AsyncQueue.error (Query.messageQueue q)
    /\ if isDataMessage message then
         match AsyncQueue.waiters (Query.messageQueue q) with
         | w :: ws =>
             Query.handed q' = (Query.handed q ++ [(w, resolved message)])%list
             /\ AsyncQueue.waiters (Query.messageQueue q') = ws
             /\ AsyncQueue.values (Query.messageQueue q')
                = AsyncQueue.values (Query.messageQueue q)
         | [] =>
             Query.handed q' = Query.handed q
             /\ AsyncQueue.waiters (Query.messageQueue q') = []
             /\ AsyncQueue.values (Query.messageQueue q')
                = (AsyncQueue.values (Query.messageQueue q) ++ [message])%list
         end
       else
         Query.handed q' = Query.handed q
         /\ AsyncQueue.waiters (Query.messageQueue q')
            = AsyncQueue.waiters (Query.messageQueue q)
         /\ AsyncQueue.values (Query.messageQueue q')
            = AsyncQueue.values (Query.messageQueue q).
Proof.
  intros Hc Hq Hr. unfold Query.readLoop_iteration, isDataMessage. rewrite Hc.
  destruct (Query.isControlResponseMessage message) eqn:Hresp.
  { specialize (Hr Hresp).
    destruct (Query.handleControlResponse message q) as [[q' s]|e] eqn:Hh.
    - destruct (handleControlResponse_frame _ _ _ _ Hh) as (Hm & Hc' & _ & _ & _ & Hd).
      exists q', None. rewrite Hm, Hc', Hd. cbn [negb andb]. auto 10.
    - exfalso. revert Hh. unfold Query.handleControlResponse, Query.prop.
      rewrite Hr. cbn [bind]. destruct (Query.pending_get _ q); [|discriminate].
      destruct (is_string "error" _); discriminate. }
  destruct (Query.isControlRequestMessage message) eqn:Hreq.
  { pose proof (handleControlRequest_begin_frame message q) as Hf.
    destruct (Query.handleControlRequest_begin message q) as [q' h].
    cbn [fst] in Hf. destruct Hf as (Hm & Hc' & _ & _ & _ & _ & _ & Hd).
    exists q', (Some h). rewrite Hm, Hc', Hd. cbn [negb andb]. auto 10. }
  destruct (is_string "control_cancel_request" _).
  { exists q, None. cbn [negb andb]. auto 10. }
  unfold AsyncQueue.push. rewrite Hq. cbn [negb andb].
  destruct (AsyncQueue.waiters (Query.messageQueue q)) as [|w ws].
  - eexists _, None. split; [reflexivity|]. cbn. auto 10.
  - eexists _, None. split; [reflexivity|]. cbn. auto 10.
Qed.

Lemma readLoop_messages_open (messages : list Query.SDKMessage) (ending : option value) :
  forall q : Query.t,
  Query.closed q = false ->
  AsyncQueue.closed (Query.messageQueue q) = false ->
  (AsyncQueue.values (Query.messageQueue q) = []
   \/ AsyncQueue.waiters (Query.messageQueue q) = []) ->
  Forall hasResponse messages ->
  let ws := AsyncQueue.waiters (Query.messageQueue q) in
  let data := filter isDataMessage messages in
  exists q' hs,
    Query.readLoop_messages messages ending q = (q', ending, hs)
    /\ AsyncQueue.closed (Query.messageQueue q') = false
    /\ AsyncQueue.error (Query.messageQueue q') = AsyncQueue.error (Query.messageQueue q)
    /\ Query.handed q'
       = (Query.handed q
          ++ map (fun p => (fst p, resolved (snd p))) (combine ws data))%list
    /\ AsyncQueue.waiters (Query.messageQueue q') = drop (length data) ws
    /\ AsyncQueue.values (Query.messageQueue q')
       = (AsyncQueue.values (Query.messageQueue q) ++ drop (length ws) data)%list.
Proof.
  induction messages as [|message rest IH]; intros q Hc Hq Hinv Hall ws data.
  - exists q, []. subst ws data. cbn.
    rewrite ?combine_nil, ?drop_nil, ?drop_0. cbn. rewrite ?app_nil_r. auto 10.
  - apply Forall_cons in Hall as [Hm Hall].
    destruct (readLoop_iteration_open message q Hc Hq Hm)
      as (q1 & h & Hit & Hc1 & Hq1 & He1 & Hstep).
    assert (Hinv1 : AsyncQueue.values (Query.messageQueue q1) = []
                    \/ AsyncQueue.waiters (Query.messageQueue q1) = []).
    { destruct (isDataMessage message);
        [destruct (AsyncQueue.waiters (Query.messageQueue q)) as [|w ws0] eqn:Hw|];
        destruct Hstep as (_ & Hw1 & Hv1); rewrite ?Hw1, ?Hv1; auto.
      destruct Hinv as [Hv|Hv]; [left; now rewrite Hv|discriminate]. }
    destruct (IH q1 Hc1 Hq1 Hinv1 Hall) as (q' & hs & Hrest & Hq' & He' & Hd' & Hw' & Hv').
    cbn [Query.readLoop_messages]. rewrite Hit, Hrest.
    eexists _, _. split; [reflexivity|]. split; [exact Hq'|].
    split; [congruence|]. rewrite Hd', Hw', Hv'. subst data ws.
    rewrite filter_cons. destruct (isDataMessage message).
    + destruct (decide (true)) as [_|n]; [|exfalso; apply n; exact I].
      destruct (AsyncQueue.waiters (Query.messageQueue q)) as [|w ws0];
        destruct Hstep as (-> & -> & ->); cbn [combine map length drop fst snd].
      * rewrite drop_nil, drop_0, <- app_assoc. auto.
      * rewrite <- app_assoc. auto.
    + destruct (decide (false)) as [n|_]; [destruct n|].
      destruct Hstep as (-> & -> & ->). auto.
Qed.

(** X19: the consumers of [receiveMessages()] get exactly the messages of
    the transport that are not control messages, in the order of the
    transport. While the engine is open and every control response has a
    [response], the read loop runs to the end of the transport's sequence:
    the consumers that were waiting are resolved with the first data
    messages, one each, in the order in which they began to wait, and the
    data messages beyond that are buffered behind what was buffered. The
    queue is then closed; consumers still waiting are resolved with the end
    of the sequence, or, when the transport's sequence ended with an error,
    rejected with that error, which the queue then holds. *)
Theorem read_loop_forwards_data_messages
    (messages : list Query.SDKMessage) (ending : option value) (q : Query.t) :
  Query.closed q = false ->
  AsyncQueue.closed (Query.messageQueue q) = false ->
  channel_ok (Query.messageQueue q) ->
  Forall hasResponse messages ->
  let q' := fst (Query.readLoop messages ending q) in
  let mq := Query.receiveMessages q' in
  let ws := AsyncQueue.waiters (Query.messageQueue q) in
  let data := filter isDataMessage messages in
  let last := match ending with
              | Some e => AsyncQueue.NextRejected e
              | None => AsyncQueue.NextResolved AsyncQueue.IterDone
              end in
  Query.handed q'
  = (Query.handed q
     ++ map (fun p => (fst p, resolved (snd p))) (combine ws data)
     ++ map (fun w => (w, last)) (drop (length data) ws))%list
  /\ AsyncQueue.values mq
     = (AsyncQueue.values (Query.messageQueue q) ++ drop (length ws) data)%list
  /\ AsyncQueue.waiters mq = []
  /\ AsyncQueue.closed mq = true
  /\ AsyncQueue.error mq
     = match ending with
       | Some e => e
       | None => AsyncQueue.error (Query.messageQueue q)
       end.
Proof.
  intros Hc Hq Hok Hall.
  assert (Hinv : AsyncQueue.values (Query.messageQueue q) = []
                 \/ AsyncQueue.waiters (Query.messageQueue q) = []).
  { destruct Hok as [Hok _].
    destruct (AsyncQueue.values (Query.messageQueue q)) eqn:E; [now left|].
    right. apply Hok. discriminate. }
  destruct (readLoop_messages_open messages ending q Hc Hq Hinv Hall)
    as (q1 & hs & Hrun & Hq1 & He1 & Hd1 & Hw1 & Hv1).
  unfold Query.readLoop. rewrite Hrun. cbn [fst].
  unfold Query.readLoop_end, Query.receiveMessages.
  destruct ending as [e|].
  - unfold AsyncQueue.fail. rewrite Hq1. unfold Query.settleConsumers.
    cbn [Query.messageQueue Query.with_handed Query.with_messageQueue].
    unfold AsyncQueue.close. cbn [AsyncQueue.closed].
    cbn [Query.messageQueue Query.with_handed Query.with_messageQueue Query.handed
         AsyncQueue.values AsyncQueue.waiters AsyncQueue.closed AsyncQueue.error map].
    rewrite app_nil_r, Hd1, Hw1, Hv1, <- app_assoc. auto.
  - unfold AsyncQueue.close. rewrite Hq1. unfold Query.settleConsumers.
    cbn [Query.messageQueue Query.with_handed Query.with_messageQueue Query.handed
         AsyncQueue.values AsyncQueue.waiters AsyncQueue.closed AsyncQueue.error].
    rewrite Hd1, Hw1, Hv1, He1, <- app_assoc. auto.
Qed.

Lemma read_loop_forwards_data_messages_witness :
  let q0 := Query.create {| Query.canUseTool := false; Query.hooksOption := None;
                            Query.isStreamingMode := true;
                            Query.sdkMcpServers := ∅ |} in
  let q := Query.with_messageQueue
             (fst (AsyncQueue.next 7 (Query.messageQueue q0))) q0 in
  let messages :=
    [[("type", VStr "assistant"); ("n", VNum 1)];
     [("type", VStr "control_cancel_request")];
     [("type", VStr "control_response");
      ("response", VObj [("request_id", VStr "req_9_00")])];
     [("type", VStr "control_request"); ("request_id", VStr "r1")];
     [("type", VStr "result"); ("n", VNum 2)]] in
  let q' := fst (Query.readLoop messages (Some (VError "EOF")) q) in
  Query.handed q' = [(7, resolved [("type", VStr "assistant"); ("n", VNum 1)])]
  /\ AsyncQueue.values (Query.receiveMessages q') = [[("type", VStr "result"); ("n", VNum 2)]]
  /\ AsyncQueue.waiters (Query.receiveMessages q') = []
  /\ AsyncQueue.closed (Query.receiveMessages q') = true
  /\ AsyncQueue.error (Query.receiveMessages q') = VError "EOF".
Proof.
  intros q0 q messages.
  apply (read_loop_forwards_data_messages messages (Some (VError "EOF")) q).
  - reflexivity.
  - reflexivity.
  - split; [|split]; cbn.
    + intros H. now destruct H.
    + discriminate.
    + discriminate.
  - repeat apply Forall_cons_2; try apply Forall_nil_2;
      intros H; first [reflexivity | discriminate H].
Defined.

(** *** [streamInput] and [close] *)

Lemma writeAll_accepted (accepts : value -> completion unit)
    (pre : list (list (string * value))) : forall q : Query.t,
  Forall (fun m => accepts (json (VObj m)) = Normal tt) pre ->
  (Query.writeAll accepts pre q
   = (Query.with_written
        (Query.written q ++ map (fun m => json (VObj m)) pre)%list q, Normal tt))
  /\ forall m post e,
       accepts (json (VObj m)) = Throw e ->
       Query.writeAll accepts (pre ++ m :: post)%list q
       = (Query.with_written
            (Query.written q ++ map (fun m => json (VObj m)) pre)%list q, Throw e).
Proof.
  induction pre as [|x pre IH]; intros q Hall.
  - cbn [Query.writeAll map app]. rewrite app_nil_r. split.
    + now destruct q.
    + intros m post e He. unfold Query.write. rewrite He. now destruct q.
  - apply Forall_cons in Hall as [Hx Hall].
    cbn [Query.writeAll map app]. unfold Query.write. rewrite Hx.
    destruct (IH (Query.with_written (Query.written q ++ [json (VObj x)])%list q) Hall)
      as [IH1 IH2].
    cbn [Query.written Query.with_written] in IH1, IH2.
    rewrite <- app_assoc in IH1, IH2. split.
    + rewrite IH1. reflexivity.
    + intros m post e He. rewrite (IH2 m post e He). reflexivity.
Qed.

(** X20: [streamInput] on a streaming engine writes the messages of the
    stream as one JSON line each, in the order of the stream, after what was
    written before. When the transport accepts every line, [streamInput]
    calls [transport.endInput()] once and settles as that call does:
    fulfilled when it is fulfilled, rejected with its error when it rejects.
    At the first line that the transport rejects, [streamInput] rejects
    with the transport's error; neither that message nor any later one is
    written, and [endInput] is not called. *)
Theorem streamInput_writes_in_order_until_refused
    (accepts : value -> completion unit) (ends : completion unit)
    (pre : list (list (string * value))) (q : Query.t) :
  Query.isStreamingMode (Query.opts q) = true ->
  Forall (fun m => accepts (json (VObj m)) = Normal tt) pre ->
  (Query.streamInput accepts ends pre q
   = (Query.with_endInputCalls (S (Query.endInputCalls q))
        (Query.with_written
           (Query.written q ++ map (fun m => json (VObj m)) pre)%list q),
      ends))
  /\ forall m post e,
       accepts (json (VObj m)) = Throw e ->
       Query.streamInput accepts ends (pre ++ m :: post)%list q
       = (Query.with_written
            (Query.written q ++ map (fun m => json (VObj m)) pre)%list q, Throw e).
Proof.
  intros Hmode Hall. unfold Query.streamInput. rewrite Hmode. cbn [negb].
  destruct (writeAll_accepted accepts pre q Hall) as [H1 H2]. split.
  - rewrite H1. reflexivity.
  - intros m post e He. rewrite (H2 m post e He). reflexivity.
Qed.

Lemma streamInput_writes_in_order_until_refused_witness :
  let accepts := fun line : value =>
    if is_string "stop" (get "type" (Query.as_record line))
    then Throw (VError "EPIPE") else Normal tt in
  let q := Query.create {| Query.canUseTool := false; Query.hooksOption := None;
                           Query.isStreamingMode := true;
                           Query.sdkMcpServers := ∅ |} in
  let pre := [[("type", VStr "user"); ("n", VNum 1)];
              [("type", VStr "user"); ("n", VNum 2)]] in
  Query.streamInput accepts (Throw (VError "EBADF")) pre q
  = (Query.with_endInputCalls 1
       (Query.with_written (map (fun m => json (VObj m)) pre) q),
     Throw (VError "EBADF"))
  /\ Query.streamInput accepts (Normal tt)
       (pre ++ [("type", VStr "stop")] :: [[("type", VStr "user")]])%list q
     = (Query.with_written (map (fun m => json (VObj m)) pre) q, Throw (VError "EPIPE")).
Proof.
  intros accepts q pre. split.
  - refine (proj1 (streamInput_writes_in_order_until_refused accepts
                     (Throw (VError "EBADF")) pre q _ _)).
    + reflexivity.
    + repeat apply Forall_cons_2; try apply Forall_nil_2; reflexivity.
  - refine (proj2 (streamInput_writes_in_order_until_refused accepts (Normal tt) pre q _ _)
                  [("type", VStr "stop")] [[("type", VStr "user")]] (VError "EPIPE") _).
    + reflexivity.
    + repeat apply Forall_cons_2; try apply Forall_nil_2; reflexivity.
    + reflexivity.
Defined.

Lemma closeTransport_closed (s : Bridge.state) :
  Bridge.closed (Bridge.closeTransport s) = true.
Proof.
  unfold Bridge.closeTransport. destruct (Bridge.closed s) eqn:Hc; [exact Hc|].
  destruct (AsyncQueue.close (Bridge.outboundQueue s)) as [mq woken].
  assert (H : forall ws st, Bridge.closed st = true ->
              Bridge.closed (fold_left Bridge.wake_closed ws st) = true).
  { induction ws as [|l ws IH]; intros st Hst; [exact Hst|].
    cbn [fold_left]. apply IH. unfold Bridge.wake_closed, Bridge.set_loop.
    destruct (Bridge.loops st !! l); exact Hst. }
  apply H. reflexivity.
Qed.

Lemma closeBridges_other closings (open : list nat) : forall (bs : list Bridge.state) b,
  b ∉ open -> fst (Query.closeBridges closings open bs) !! b = bs !! b.
Proof.
  induction open as [|b0 open IH]; intros bs b Hb; [reflexivity|].
  apply not_elem_of_cons in Hb as [Hne Hb]. cbn [Query.closeBridges].
  destruct (bs !! b0) as [s|]; [|now apply IH].
  destruct (Bridge.close (closings b0) s) as [s' [r|]].
  - rewrite IH by exact Hb. apply list_lookup_insert_ne. congruence.
  - cbn [fst]. apply list_lookup_insert_ne. congruence.
Qed.

Lemma closeBridges_all closings (open : list nat) : forall bs : list Bridge.state,
  NoDup open ->
  (forall b s, b ∈ open -> bs !! b = Some s ->
               snd (Bridge.close (closings b) s) <> None) ->
  snd (Query.closeBridges closings open bs) = true
  /\ forall b s, b ∈ open -> bs !! b = Some s ->
       exists s', fst (Query.closeBridges closings open bs) !! b = Some s'
                  /\ Bridge.closed s' = true.
Proof.
  induction open as [|b0 open IH]; intros bs Hnd Hall.
  - split; [reflexivity|]. intros b s Hb. now apply elem_of_nil in Hb.
  - apply NoDup_cons in Hnd as [Hfresh Hnd]. cbn [Query.closeBridges].
    destruct (bs !! b0) as [s0|] eqn:Hs0.
    + pose proof (Hall b0 s0 ltac:(constructor) Hs0) as Hsettles.
      destruct (Bridge.close (closings b0) s0) as [s0' [r|]] eqn:Hclose;
        [|now cbn in Hsettles].
      assert (Hs0' : s0' = Bridge.closeTransport s0).
      { unfold Bridge.close in Hclose. now inversion Hclose. }
      destruct (IH (<[b0 := s0']> bs) Hnd) as [Hend Hclosed].
      { intros b s Hb. rewrite list_lookup_insert_ne by (intros ->; contradiction).
        intros Hs. apply Hall; [now constructor|exact Hs]. }
      split; [exact Hend|]. intros b s Hb Hs.
      apply elem_of_cons in Hb as [->|Hb].
      * exists s0'. rewrite closeBridges_other by exact Hfresh.
        rewrite list_lookup_insert_eq by (eapply lookup_lt_Some; eauto).
        split; [reflexivity|]. subst s0'. apply closeTransport_closed.
      * apply (Hclosed b s Hb).
        rewrite list_lookup_insert_ne by (intros ->; contradiction). exact Hs.
    + destruct (IH bs Hnd) as [Hend Hclosed].
      { intros b s Hb. apply Hall. now constructor. }
      split; [exact Hend|]. intros b s Hb Hs.
      apply elem_of_cons in Hb as [->|Hb]; [congruence|]. now apply (Hclosed b s).
Qed.

Lemma closeBridges_stops closings (pre : list nat) : forall (bs : list Bridge.state) b0 post s0,
  NoDup (pre ++ b0 :: post) ->
  (forall b s, b ∈ pre -> bs !! b = Some s ->
               snd (Bridge.close (closings b) s) <> None) ->
  bs !! b0 = Some s0 ->
  snd (Bridge.close (closings b0) s0) = None ->
  snd (Query.closeBridges closings (pre ++ b0 :: post) bs) = false
  /\ (forall b s, b ∈ (pre ++ [b0])%list -> bs !! b = Some s ->
        exists s', fst (Query.closeBridges closings (pre ++ b0 :: post) bs) !! b = Some s'
                   /\ Bridge.closed s' = true)
  /\ forall b, b ∈ post ->
       fst (Query.closeBridges closings (pre ++ b0 :: post) bs) !! b = bs !! b.
Proof.
  induction pre as [|b1 pre IH]; intros bs b0 post s0 Hnd Hall Hs0 Hpending.
  - cbn [app] in *. apply NoDup_cons in Hnd as [Hfresh Hnd].
    cbn [Query.closeBridges]. rewrite Hs0.
    destruct (Bridge.close (closings b0) s0) as [s0' [r|]] eqn:Hclose;
      [discriminate Hpending|].
    assert (Hs0' : s0' = Bridge.closeTransport s0).
    { unfold Bridge.close in Hclose. now inversion Hclose. }
    cbn [fst snd]. split; [reflexivity|]. split.
    + intros b s Hb Hs. apply list_elem_of_singleton in Hb as ->.
      exists s0'. rewrite list_lookup_insert_eq by (eapply lookup_lt_Some; eauto).
      split; [reflexivity|]. subst s0'. apply closeTransport_closed.
    + intros b Hb. apply list_lookup_insert_ne. intros ->. contradiction.
  - cbn [app] in Hnd. apply NoDup_cons in Hnd as [Hfresh Hnd].
    assert (Hb1 : b1 <> b0).
    { intros ->. apply Hfresh. apply elem_of_app. right. constructor. }
    cbn [app Query.closeBridges].
    destruct (bs !! b1) as [s1|] eqn:Hs1.
    + pose proof (Hall b1 s1 ltac:(constructor) Hs1) as Hsettles.
      destruct (Bridge.close (closings b1) s1) as [s1' [r|]] eqn:Hclose;
        [|now cbn in Hsettles].
      assert (Hs1' : s1' = Bridge.closeTransport s1).
      { unfold Bridge.close in Hclose. now inversion Hclose. }
      destruct (IH (<[b1 := s1']> bs) b0 post s0 Hnd) as (Hend & Hclosed & Hpost).
      { intros b s Hb.
        rewrite list_lookup_insert_ne
          by (intros ->; apply Hfresh; apply elem_of_app; now left).
        intros Hs. apply Hall; [now constructor|exact Hs]. }
      { rewrite list_lookup_insert_ne by exact Hb1. exact Hs0. }
      { exact Hpending. }
      split; [exact Hend|]. split.
      * intros b s Hb Hs. cbn [app] in Hb. apply elem_of_cons in Hb as [->|Hb].
        -- exists s1'. rewrite closeBridges_other by exact Hfresh.
           rewrite list_lookup_insert_eq by (eapply lookup_lt_Some; eauto).
           split; [reflexivity|]. subst s1'. apply closeTransport_closed.
        -- apply (Hclosed b s Hb). rewrite list_lookup_insert_ne; [exact Hs|].
           intros ->. apply Hfresh. apply elem_of_app in Hb as [Hb|Hb].
           ++ apply elem_of_app. now left.
           ++ apply list_elem_of_singleton in Hb. congruence.
      * intros b Hb. rewrite (Hpost b Hb). apply list_lookup_insert_ne.
        intros ->. apply Hfresh. apply elem_of_app. right. now constructor.
    + destruct (IH bs b0 post s0 Hnd) as (Hend & Hclosed & Hpost); auto.
      { intros b s Hb. apply Hall. now constructor. }
      split; [exact Hend|]. split; [|exact Hpost].
      intros b s Hb Hs. cbn [app] in Hb. apply elem_of_cons in Hb as [->|Hb];
        [congruence|]. now apply (Hclosed b s).
Qed.

Lemma mappedBridges_NoDup (q : Query.t) : NoDup (Query.mappedBridges q).
Proof. unfold Query.mappedBridges. apply NoDup_filter, NoDup_seq. Qed.

Lemma close_again closings (x : Query.t) :
  Query.closed x = true ->
  AsyncQueue.closed (Query.messageQueue x) = true ->
  Query.sdkMcpBridges x = ∅ ->
  Query.close closings x = (x, true).
Proof.
  destruct x as [o m bs mq p h r n c i w e hd]. cbn. intros -> Hc ->.
  unfold Query.close. cbn [Query.messageQueue Query.with_closed].
  unfold AsyncQueue.close. rewrite Hc.
  assert (Hnone : forall l : list nat, filter (fun b => b ∈ (@nil nat)) l = []).
  { induction l as [|y l IH]; [reflexivity|].
    rewrite filter_cons_False; [exact IH|]. apply not_elem_of_nil. }
  unfold Query.mappedBridges, Query.settleConsumers.
  cbn [Query.sdkMcpBridges Query.with_handed Query.with_messageQueue Query.with_closed
       Query.bridges map].
  rewrite map_to_list_empty. cbn [fmap list_fmap]. rewrite Hnone.
  cbn [Query.closeBridges]. unfold Query.with_bridges. cbn. now rewrite app_nil_r.
Qed.

Lemma readLoop_closed (x : Query.t) message rest ending :
  Query.closed x = true ->
  AsyncQueue.closed (Query.messageQueue x) = true ->
  Query.readLoop (message :: rest) ending x = (x, []).
Proof.
  destruct x as [o m bs mq p h r n c i w e hd]. cbn. intros -> Hc.
  unfold Query.readLoop. cbn [Query.readLoop_messages]. unfold Query.readLoop_iteration.
  cbn [Query.closed]. unfold Query.readLoop_end. cbn [Query.messageQueue].
  unfold AsyncQueue.close. rewrite Hc. unfold Query.settleConsumers.
  unfold Query.with_handed, Query.with_messageQueue. cbn. now rewrite app_nil_r.
Qed.

(** X21: [close()] marks the engine closed, closes the message queue and
    forgets every bridge, and then closes the bridges that a server name
    was mapped to, one after the other, in the order in which they were
    made. [close()] of a bridge closes its transport and then awaits
    [close()] of the instance, if the instance has one. When each of these
    settles, every such bridge is closed and [close()] goes on to the
    transport; when one of them never settles, the bridges before it and
    that bridge are closed and the bridges after it are left as they were,
    and [close()] stays pending. A second [close()] changes nothing, and a
    read loop that gets its next message after [close()] stops there: it
    forwards nothing, starts no handler and leaves the engine as it is. *)
Theorem close_closes_every_bridge (closings : nat -> Bridge.closing) (q : Query.t) :
  let q' := fst (Query.close closings q) in
  Query.closed q' = true
  /\ AsyncQueue.closed (Query.receiveMessages q') = true
  /\ Query.sdkMcpBridges q' = ∅
  /\ (forall serverName b s,
        Query.sdkMcpBridges q !! serverName = Some b ->
        Query.bridges q !! b = Some s ->
        b ∈ Query.mappedBridges q)
  /\ (forall c s,
        snd (Bridge.close c s) = None ->
        Bridge.has_close (Bridge.instance s) = true /\ Bridge.instanceClose c = None)
  /\ ((forall b s, b ∈ Query.mappedBridges q -> Query.bridges q !! b = Some s ->
                   snd (Bridge.close (closings b) s) <> None) ->
      snd (Query.close closings q) = true
      /\ forall b s, b ∈ Query.mappedBridges q -> Query.bridges q !! b = Some s ->
           exists s', Query.bridges q' !! b = Some s' /\ Bridge.closed s' = true)
  /\ (forall pre b0 post s0,
        Query.mappedBridges q = (pre ++ b0 :: post)%list ->
        (forall b s, b ∈ pre -> Query.bridges q !! b = Some s ->
                     snd (Bridge.close (closings b) s) <> None) ->
        Query.bridges q !! b0 = Some s0 ->
        snd (Bridge.close (closings b0) s0) = None ->
        snd (Query.close closings q) = false
        /\ (forall b s, b ∈ (pre ++ [b0])%list -> Query.bridges q !! b = Some s ->
              exists s', Query.bridges q' !! b = Some s' /\ Bridge.closed s' = true)
        /\ forall b, b ∈ post -> Query.bridges q' !! b = Query.bridges q !! b)
  /\ (forall closings', Query.close closings' q' = (q', true))
  /\ forall message rest ending,
       Query.readLoop (message :: rest) ending q' = (q', []).
Proof.
  intros q'.
  assert (Hq' : q' = fst (Query.close closings q)) by reflexivity.
  unfold Query.close in Hq'.
  cbn [Query.messageQueue Query.with_closed] in Hq'.
  destruct (AsyncQueue.close (Query.messageQueue q)) as [mq woken] eqn:Hmq.
  assert (Hclosed : AsyncQueue.closed mq = true).
  { unfold AsyncQueue.close in Hmq.
    destruct (AsyncQueue.closed (Query.messageQueue q)) eqn:E;
      inversion Hmq; subst; [exact E|reflexivity]. }
  set (q1 := Query.settleConsumers mq woken
               (AsyncQueue.NextResolved AsyncQueue.IterDone)
               (Query.with_closed true q)) in *.
  assert (Hmapped : Query.mappedBridges q1 = Query.mappedBridges q) by reflexivity.
  assert (Hbridges : Query.bridges q1 = Query.bridges q) by reflexivity.
  assert (Hsnd : snd (Query.close closings q)
                 = snd (Query.closeBridges closings (Query.mappedBridges q)
                          (Query.bridges q))).
  { unfold Query.close. cbn [Query.messageQueue Query.with_closed]. rewrite Hmq.
    fold q1. rewrite Hmapped, Hbridges.
    now destruct (Query.closeBridges _ _ _). }
  assert (Hfst : Query.bridges q'
                 = fst (Query.closeBridges closings (Query.mappedBridges q)
                          (Query.bridges q))).
  { rewrite Hq', Hmapped, Hbridges. now destruct (Query.closeBridges _ _ _). }
  assert (Hshape : q' = Query.with_bridges ∅ (Query.bridges q') q1).
  { rewrite Hq'. now destruct (Query.closeBridges _ _ _). }
  split; [|split; [|split; [|split; [|split; [|split; [|split; [|split]]]]]]].
  - rewrite Hshape. reflexivity.
  - rewrite Hshape. exact Hclosed.
  - rewrite Hshape. reflexivity.
  - intros serverName b s Hname Hs. unfold Query.mappedBridges.
    apply list_elem_of_filter. split.
    + apply list_elem_of_fmap. exists (serverName, b). split; [reflexivity|].
      now apply elem_of_map_to_list.
    + apply elem_of_seq. apply lookup_lt_Some in Hs. lia.
  - intros c s. unfold Bridge.close. cbn [snd].
    destruct (if Bridge.closed s then Normal tt else Bridge.onclose c);
      [|discriminate].
    destruct (Bridge.has_close (Bridge.instance s)); [auto|discriminate].
  - intros Hall. rewrite Hsnd, Hfst.
    apply closeBridges_all; [apply mappedBridges_NoDup|exact Hall].
  - intros pre b0 post s0 Hsplit Hall Hs0 Hpending. rewrite Hsnd, Hfst, Hsplit.
    apply (closeBridges_stops closings pre (Query.bridges q) b0 post s0); auto.
    rewrite <- Hsplit. apply mappedBridges_NoDup.
  - intros closings'. apply close_again; rewrite Hshape; [reflexivity|exact Hclosed|reflexivity].
  - intros message rest ending.
    apply readLoop_closed; rewrite Hshape; [reflexivity|exact Hclosed].
Qed.

Lemma close_closes_every_bridge_witness :
  let q := fst (Query.handleControlRequest_begin (mcpMessage "req_1" 1) demoEngine) in
  let closings := fun _ : nat =>
    Bridge.Closing (Normal tt) (Some (Rejected (VError "busy"))) in
  snd (Query.close closings q) = true
  /\ forall b s, b ∈ Query.mappedBridges q -> Query.bridges q !! b = Some s ->
       exists s', Query.bridges (fst (Query.close closings q)) !! b = Some s'
                  /\ Bridge.closed s' = true.
Proof.
  intros q closings.
  refine (proj1 (proj2 (proj2 (proj2 (proj2 (proj2
            (close_closes_every_bridge closings q)))))) _).
  intros b s _ _. unfold Bridge.close, closings. cbn.
  destruct (Bridge.closed s), (Bridge.has_close (Bridge.instance s)); discriminate.
Defined.

(** *** Control requests *)

Lemma respond_frame (accepts : value -> completion unit) (requestId : value)
    (r : completion (list (string * value))) (q : Query.t) :
  let q' := fst (Query.respond accepts requestId r q) in
  q' = q
  \/ exists line,
       q' = Query.with_written (Query.written q ++ [line])%list q
       /\ ((exists payload, line = Query.successLine requestId payload)
           \/ exists e, Query.failureLine requestId e = Normal line).
Proof.
  unfold Query.respond, Query.write.
  destruct r as [payload|e].
  - destruct (accepts (Query.successLine requestId payload)) as [u|e].
    + right. eexists. split; [reflexivity|]. left. eauto.
    + destruct (Query.failureLine requestId e) as [line|e'] eqn:Hl; [|now left].
      destruct (accepts line); [|now left].
      right. exists line. split; [reflexivity|]. right. eauto.
  - destruct (Query.failureLine requestId e) as [line|e'] eqn:Hl; [|now left].
    destruct (accepts line); [|now left].
    right. exists line. split; [reflexivity|]. right. eauto.
Qed.

(** X22: the handler of a control request writes at most one line, whatever
    the callbacks, the bridge and the transport do, and a line it writes
    is a [control_response] of subtype [success] or [error] whose
    [request_id] is the one of the request. The handler leaves the pending
    requests of the engine, its hook registry, its message queue and its
    request counter as they were. *)
Theorem handleControlRequest_answers_at_most_once
    (accepts : value -> completion unit)
    (settles : forall s : Query.suspension, completion (Query.answer s))
    (request : Query.SDKMessage) (q : Query.t) :
  let q' := fst (Query.handleControlRequest accepts settles request q) in
  (Query.written q' = Query.written q
   \/ exists line,
        Query.written q' = (Query.written q ++ [line])%list
        /\ Query.read "type" line = VStr "control_response"
        /\ Query.read "request_id" (Query.read "response" line)
           = json (get "request_id" request)
        /\ (Query.read "subtype" (Query.read "response" line) = VStr "success"
            \/ Query.read "subtype" (Query.read "response" line) = VStr "error"))
  /\ Query.pendingControlRequests q' = Query.pendingControlRequests q
  /\ Query.hookCallbacks q' = Query.hookCallbacks q
  /\ Query.messageQueue q' = Query.messageQueue q
  /\ Query.requestCounter q' = Query.requestCounter q.
Proof.
  assert (Hline : forall line,
    ((exists payload, line = Query.successLine (get "request_id" request) payload)
     \/ exists e, Query.failureLine (get "request_id" request) e = Normal line) ->
    Query.read "type" line = VStr "control_response"
    /\ Query.read "request_id" (Query.read "response" line)
       = json (get "request_id" request)
    /\ (Query.read "subtype" (Query.read "response" line) = VStr "success"
        \/ Query.read "subtype" (Query.read "response" line) = VStr "error")).
  { intros line [[payload ->]|[e He]].
    - destruct (successLine_fields (get "request_id" request) payload)
        as (Ht & Hs & Hid & _). auto.
    - destruct (failureLine_fields _ _ _ He) as (Ht & Hs & Hid & _). auto. }
  unfold Query.handleControlRequest.
  pose proof (handleControlRequest_begin_frame request q) as Hf.
  destruct (Query.handleControlRequest_begin request q) as [q0 [e|e|s]];
    cbn [fst] in Hf; destruct Hf as (Hm & Hc & Hw & Hp & Hh & Hn & Hi).
  - cbn [fst]. rewrite Hw, Hp, Hh, Hm, Hn. auto 10.
  - destruct (respond_frame accepts (get "request_id" request) (Throw e) q0)
      as [->|(line & -> & Hl)].
    + rewrite Hw, Hp, Hh, Hm, Hn. auto 10.
    + cbn [Query.written Query.with_written Query.pendingControlRequests
           Query.hookCallbacks Query.messageQueue Query.requestCounter].
      rewrite Hw, Hp, Hh, Hm, Hn. split; [right; exists line; split; auto|auto].
  - destruct (respond_frame accepts (get "request_id" request)
                (Query.resume s (settles s)) q0) as [->|(line & -> & Hl)].
    + rewrite Hw, Hp, Hh, Hm, Hn. auto 10.
    + cbn [Query.written Query.with_written Query.pendingControlRequests
           Query.hookCallbacks Query.messageQueue Query.requestCounter].
      rewrite Hw, Hp, Hh, Hm, Hn. split; [right; exists line; split; auto|auto].
Qed.

Lemma getOrCreate_bridges_ok serverName (q q' : Query.t) b :
  bridges_ok q ->
  Query.getOrCreateMcpServerBridge serverName q = Normal (q', b) ->
  bridges_ok q' /\ Query.opts q' = Query.opts q.
Proof.
  intros [Hex Hinj]. unfold Query.getOrCreateMcpServerBridge.
  destruct (Query.sdkMcpBridges q !! serverName) as [b0|] eqn:Hb.
  { intros [= <- <-]. split; [split; assumption|reflexivity]. }
  destruct (Query.lookupServer serverName _) as [i|] eqn:Hi; [|discriminate].
  destruct (Bridge.falsy_instance i); [discriminate|].
  intros [= <- <-]. split; [|reflexivity]. split.
  - intros name b'. cbn [Query.sdkMcpBridges Query.bridges Query.with_bridges Query.opts].
    destruct (decide (name = serverName)) as [->|Hne].
    + rewrite lookup_insert_eq. intros [= <-].
      exists (Bridge.create i). split; [|exact Hi].
      rewrite lookup_app_r by lia. now rewrite Nat.sub_diag.
    + rewrite lookup_insert_ne by congruence. intros Hn.
      destruct (Hex name b' Hn) as (s & Hs & Hsi).
      exists s. split; [|exact Hsi].
      rewrite lookup_app_l by (eapply lookup_lt_Some; eauto). exact Hs.
  - intros name1 name2 b'. cbn [Query.sdkMcpBridges Query.with_bridges].
    destruct (decide (name1 = serverName)) as [->|Hne1];
      destruct (decide (name2 = serverName)) as [->|Hne2]; auto.
    + rewrite lookup_insert_eq, lookup_insert_ne by congruence.
      intros [= <-] Hn. destruct (Hex name2 _ Hn) as (s & Hs & _).
      apply lookup_lt_Some in Hs. lia.
    + rewrite lookup_insert_eq, lookup_insert_ne by congruence.
      intros Hn [= <-]. destruct (Hex name1 _ Hn) as (s & Hs & _).
      apply lookup_lt_Some in Hs. lia.
    + rewrite !lookup_insert_ne by congruence. apply Hinj.
Qed.

Lemma callBridge_bridges_ok b message (q : Query.t) :
  bridges_ok q ->
  bridges_ok (fst (Query.callBridge b message q))
  /\ Query.opts (fst (Query.callBridge b message q)) = Query.opts q.
Proof.
  intros [Hex Hinj]. unfold Query.callBridge.
  destruct (Query.bridges q !! b) as [s|] eqn:Hs; [|now split].
  cbn [Bridge.step fst]. split; [|reflexivity]. split; [|exact Hinj].
  intros name b'. cbn [Query.sdkMcpBridges Query.bridges Query.with_bridges Query.opts].
  intros Hn. destruct (Hex name b' Hn) as (s0 & Hs0 & Hi).
  destruct (decide (b = b')) as [->|Hne].
  - rewrite list_lookup_insert_eq by (eapply lookup_lt_Some; eauto).
    eexists. split; [reflexivity|]. cbn [Bridge.instance Bridge.with_tasks]. congruence.
  - rewrite list_lookup_insert_ne by exact Hne. eauto.
Qed.

Lemma handleControlRequest_begin_bridges_ok (request : Query.SDKMessage) (q : Query.t) :
  bridges_ok q ->
  bridges_ok (fst (Query.handleControlRequest_begin request q))
  /\ Query.opts (fst (Query.handleControlRequest_begin request q)) = Query.opts q.
Proof.
  intros Hok. unfold Query.handleControlRequest_begin.
  destruct (Query.prop "subtype" _) as [subtype|e]; [|now split].
  unfold Query.dispatch.
  destruct (negb (truthy subtype)); [now split|].
  destruct (is_string "can_use_tool" subtype).
  { destruct (negb _); now split. }
  destruct (is_string "hook_callback" subtype).
  { destruct (Query.hookCallbacks q !! _); now split. }
  destruct (is_string "mcp_message" subtype); [|now split].
  destruct (String.eqb _ ""); [now split|].
  destruct (negb _ || negb _); [now split|].
  destruct (Query.getOrCreateMcpServerBridge _ q) as [[q1 b]|e] eqn:Hg; [|now split].
  destruct (getOrCreate_bridges_ok _ _ _ _ Hok Hg) as [Hok1 Ho1].
  cbn [bind].
  pose proof (callBridge_bridges_ok b
                (Query.read "message" (get "request" request)) q1 Hok1) as [Hok2 Ho2].
  destruct (Query.callBridge b _ q1) as [q2 call]. cbn [fst] in *.
  split; [exact Hok2|congruence].
Qed.

Lemma readLoop_iteration_bridges_ok (message : Query.SDKMessage) (q : Query.t) :
  bridges_ok q ->
  bridges_ok (fst (fst (Query.readLoop_iteration message q)))
  /\ Query.opts (fst (fst (Query.readLoop_iteration message q))) = Query.opts q.
Proof.
  intros Hok. unfold Query.readLoop_iteration.
  destruct (Query.closed q); [now split|].
  destruct (Query.isControlResponseMessage message).
  { destruct (Query.handleControlResponse message q) as [[q' s]|e] eqn:Hh; [|now split].
    cbn [fst]. revert Hh. unfold Query.handleControlResponse.
    destruct (Query.prop "request_id" _) as [requestId|e]; [|discriminate].
    cbn [bind]. destruct (Query.pending_get requestId q) as [p|].
    - destruct requestId; cbn [Query.pending_delete];
        destruct (is_string "error" _); intros [= <- _]; now split.
    - intros [= <- _]; now split. }
  destruct (Query.isControlRequestMessage message).
  { pose proof (handleControlRequest_begin_bridges_ok message q Hok) as H.
    destruct (Query.handleControlRequest_begin message q). exact H. }
  destruct (is_string "control_cancel_request" _); [now split|].
  destruct (AsyncQueue.push message (Query.messageQueue q)) as [[mq [[w r]|]]|e];
    now split.
Qed.

(** X23: the read loop keeps one bridge per server name. Whatever messages
    arrive, every server name that has a bridge has a bridge that exists
    and was made from what [sdkMcpServers[serverName]] reads: the instance
    registered under the name, or, for a name that is not registered but
    that every object inherits, such as [constructor], the member of
    [Object.prototype] of that name; and no two server names share a
    bridge. A name that reads as nothing gets no bridge. *)
Theorem read_loop_keeps_one_bridge_per_server
    (messages : list Query.SDKMessage) (ending : option value) (q : Query.t) :
  bridges_ok q ->
  bridges_ok (fst (fst (Query.readLoop_messages messages ending q))).
Proof.
  revert q. induction messages as [|message rest IH]; intros q Hok; [exact Hok|].
  cbn [Query.readLoop_messages].
  pose proof (readLoop_iteration_bridges_ok message q Hok) as [Hok1 _].
  destruct (Query.readLoop_iteration message q) as [[q1 [| |e]] h]; cbn [fst] in *;
    try exact Hok1.
  specialize (IH q1 Hok1).
  destruct (Query.readLoop_messages rest ending q1) as [[q2 thrown] hs]. exact IH.
Qed.

Lemma read_loop_keeps_one_bridge_per_server_witness :
  bridges_ok
    (fst (fst (Query.readLoop_messages
                 [mcpMessage "req_1" 1; [("type", VStr "assistant")];
                  mcpMessage "req_2" 2;
                  [("type", VStr "control_request"); ("request_id", VStr "req_3");
                   ("request", VObj [("subtype", VStr "mcp_message");
                                     ("server_name", VStr "constructor");
                                     ("message", VObj (rpcRequest 3))])]]
                 None demoEngine))).
Proof.
  apply (read_loop_keeps_one_bridge_per_server
           [mcpMessage "req_1" 1; [("type", VStr "assistant")]; mcpMessage "req_2" 2;
            [("type", VStr "control_request"); ("request_id", VStr "req_3");
             ("request", VObj [("subtype", VStr "mcp_message");
                               ("server_name", VStr "constructor");
                               ("message", VObj (rpcRequest 3))])]]
           None demoEngine).
  split.
  - intros serverName b H. cbn in H. rewrite lookup_empty in H. discriminate H.
  - intros name1 name2 b H. cbn in H. rewrite lookup_empty in H. discriminate H.
Defined.


(** *** The bridge: how a call moves *)

Lemma pc_of_Some t s p :
  Bridge.pc_of t s = Some p ->
  exists tk, Bridge.tasks s !! t = Some tk /\ Bridge.at_pc tk = p.
Proof.
  unfold Bridge.pc_of. destruct (Bridge.tasks s !! t) as [tk|]; [|discriminate].
  intros [= <-]. eauto.
Qed.

Lemma set_pc_at t p s tk :
  Bridge.tasks s !! t = Some tk ->
  Bridge.set_pc t p s
  = Bridge.with_tasks (<[t := Bridge.Task (Bridge.message tk) p]> (Bridge.tasks s)) s.
Proof. intros H. unfold Bridge.set_pc. now rewrite H. Qed.

Lemma set_loop_tasks l st s :
  Bridge.tasks (Bridge.set_loop l st s) = Bridge.tasks s
  /\ Bridge.instance (Bridge.set_loop l st s) = Bridge.instance s
  /\ Bridge.closed (Bridge.set_loop l st s) = Bridge.closed s
  /\ Bridge.queue (Bridge.set_loop l st s) = Bridge.queue s
  /\ Bridge.connected (Bridge.set_loop l st s) = Bridge.connected s
  /\ Bridge.connectCalls (Bridge.set_loop l st s) = Bridge.connectCalls s
  /\ Bridge.onmessage (Bridge.set_loop l st s) = Bridge.onmessage s
  /\ Bridge.now (Bridge.set_loop l st s) = Bridge.now s.
Proof. unfold Bridge.set_loop. destruct (Bridge.loops s !! l); auto 10. Qed.

Lemma wake_closed_tasks woken : forall s,
  Bridge.tasks (fold_left Bridge.wake_closed woken s) = Bridge.tasks s
  /\ Bridge.instance (fold_left Bridge.wake_closed woken s) = Bridge.instance s
  /\ Bridge.closed (fold_left Bridge.wake_closed woken s) = Bridge.closed s
  /\ Bridge.queue (fold_left Bridge.wake_closed woken s) = Bridge.queue s
  /\ Bridge.connected (fold_left Bridge.wake_closed woken s) = Bridge.connected s
  /\ Bridge.connectCalls (fold_left Bridge.wake_closed woken s) = Bridge.connectCalls s
  /\ Bridge.onmessage (fold_left Bridge.wake_closed woken s) = Bridge.onmessage s
  /\ Bridge.now (fold_left Bridge.wake_closed woken s) = Bridge.now s.
Proof.
  induction woken as [|l woken IH]; intros s; [auto 10|].
  cbn [fold_left].
  destruct (IH (Bridge.wake_closed s l)) as (-> & -> & -> & -> & -> & -> & -> & ->).
  unfold Bridge.wake_closed.
  apply (set_loop_tasks l (Bridge.Got AsyncQueue.IterDone) s).
Qed.

Lemma settle_shape l r s :
  Bridge.instance (Bridge.settle l r s) = Bridge.instance s
  /\ Bridge.closed (Bridge.settle l r s) = Bridge.closed s
  /\ Bridge.connected (Bridge.settle l r s) = Bridge.connected s
  /\ Bridge.connectCalls (Bridge.settle l r s) = Bridge.connectCalls s
  /\ Bridge.queue (Bridge.settle l r s) = Bridge.queue s
  /\ (Bridge.tasks (Bridge.settle l r s) = Bridge.tasks s
      \/ exists t tk d l',
           Bridge.tasks s !! t = Some tk
           /\ Bridge.at_pc tk = Bridge.AwaitResponse d l'
           /\ Bridge.tasks (Bridge.settle l r s)
              = <[t := Bridge.Task (Bridge.message tk) (Bridge.Finished r)]>
                  (Bridge.tasks s)).
Proof.
  unfold Bridge.settle. destruct (Bridge.loops s !! l) as [lp|]; [|auto 10].
  destruct (Bridge.pc_of (Bridge.owner lp) s) as [p0|] eqn:Hpc; [|auto 10].
  destruct p0; auto 10.
  destruct (Nat.eqb loop l); [|auto 10].
  destruct (pc_of_Some _ _ _ Hpc) as (tk & Htk & Hat).
  rewrite (set_pc_at _ _ _ tk) by exact Htk. cbn.
  repeat (split; [reflexivity|]). right. eauto 10.
Qed.

Ltac frames := repeat (split; [solve [auto | intros; congruence]|]).

Ltac framed H :=
  let F1 := fresh in let F2 := fresh in let F3 := fresh in
  let F4 := fresh in let F5 := fresh in let F6 := fresh in
  destruct H as (F1 & F2 & F3 & F4 & F5 & F6 & _);
  unfold moved; rewrite ?F1, ?F2, ?F3, ?F4, ?F5, ?F6; cbn.

Ltac moves t tk Htk :=
  right; right; exists t, tk; eexists; split; [exact Htk|];
  refine (conj _ (conj eq_refl _)).

Lemma step_moved e s s' :
  Bridge.step e s = Some s' ->
  Bridge.instance s' = Bridge.instance s
  /\ (Bridge.closed s = true -> Bridge.closed s' = true)
  /\ (Bridge.connected s' = Bridge.connected s
      \/ exists t, Bridge.pc_of t s = Some Bridge.AwaitConnect)
  /\ (Bridge.connectCalls s' = Bridge.connectCalls s
      \/ Bridge.lacks_connect (Bridge.instance s) = false)
  /\ moved e s s'.
Proof.
  destruct e as [m|t|t r|t|t r|m|l|t|ms|om oe|]; cbn [Bridge.step]; intros H.
  - (* Call *)
    inversion H; subst; clear H. cbn. frames.
    right; left. eauto.
  - (* Resume *)
    destruct (Bridge.pc_of t s) as [p0|] eqn:Hpc; [|discriminate].
    destruct p0; try discriminate.
    destruct (Bridge.queue_settled q s) eqn:Hq; inversion H; subst; clear H.
    destruct (pc_of_Some _ _ _ Hpc) as (tk & Htk & Hat).
    unfold Bridge.ensureConnected.
    destruct (Bridge.connected s) eqn:Hc;
      [|destruct (Bridge.lacks_connect (Bridge.instance s)) eqn:Hl];
      rewrite (set_pc_at _ _ _ tk) by exact Htk; cbn;
      frames; moves t tk Htk; rewrite Hat; cbn; auto 10.
  - (* ConnectSettles *)
    destruct (Bridge.pc_of t s) as [p0|] eqn:Hpc; [|discriminate].
    destruct p0; try discriminate.
    destruct (pc_of_Some _ _ _ Hpc) as (tk & Htk & Hat).
    destruct r as [v|e]; inversion H; subst; clear H.
    + rewrite (set_pc_at _ _ (Bridge.with_connected true s) tk) by exact Htk. cbn.
      split; [auto|]. split; [auto|]. split; [right; eauto|]. split; [auto|].
      moves t tk Htk; rewrite Hat; cbn; auto.
    + rewrite (set_pc_at _ _ _ tk) by exact Htk. cbn.
      frames.
      moves t tk Htk; rewrite Hat; cbn; auto.
  - (* Continue *)
    destruct (Bridge.tasks s !! t) as [tk|] eqn:Htk; [|discriminate].
    destruct tk as [m p0]. destruct p0 as [| |[u|e]| |[u|e]| |]; try discriminate;
      inversion H; subst; clear H.
    + unfold Bridge.deliver.
      destruct (Bridge.closed s) eqn:Hc; [|destruct (Bridge.onmessage s) eqn:Hm];
        cbn [negb]; rewrite (set_pc_at _ _ _ _ Htk); cbn;
        frames; right; right; eexists t, _, _; (split; [exact Htk|]);
        refine (conj _ (conj eq_refl _)); cbn; auto 10.
    + rewrite (set_pc_at _ _ _ _ Htk). cbn. frames.
      right; right. eexists t, _, _. split; [exact Htk|].
        refine (conj _ (conj eq_refl _)); cbn; auto.
    + unfold Bridge.awaitReply.
      destruct (nullish _).
      * rewrite (set_pc_at _ _ _ _ Htk). cbn. frames.
        right; right. eexists t, _, _. split; [exact Htk|].
        refine (conj _ (conj eq_refl _)); cbn; auto.
      * destruct (AsyncQueue.next _ _) as [mq res].
        rewrite (set_pc_at _ _ _ (Bridge.Task m (Bridge.AwaitDeliver (Normal u))))
          by exact Htk.
        cbn. frames.
        right; right. eexists t, _, _. split; [exact Htk|].
        refine (conj _ (conj eq_refl _)); cbn; auto.
    + rewrite (set_pc_at _ _ _ _ Htk). cbn. frames.
      right; right. eexists t, _, _. split; [exact Htk|].
        refine (conj _ (conj eq_refl _)); cbn; auto.
  - (* HandlerSettles *)
    destruct (Bridge.pc_of t s) as [p0|] eqn:Hpc; [|discriminate].
    destruct p0; try discriminate.
    destruct (pc_of_Some _ _ _ Hpc) as (tk & Htk & Hat).
    destruct r as [v|e]; [|destruct (Bridge.onerror s)]; inversion H; subst; clear H;
      rewrite (set_pc_at _ _ _ tk) by exact Htk; cbn;
      frames; moves t tk Htk; rewrite Hat; cbn; auto.
  - (* Send *)
    destruct (Bridge.closed s) eqn:Hc.
    { inversion H; subst. frames. left; auto. }
    destruct (AsyncQueue.push m (Bridge.outboundQueue s)) as [[mq [[l r]|]]|e];
      inversion H; subst; clear H.
    + framed (set_loop_tasks l (Bridge.Got r) (Bridge.with_outbound mq s)).
      frames. left; auto.
    + cbn. frames. left; auto.
    + frames. left; auto.
  - (* LoopStep *)
    assert (Hsettle : forall r s0,
              Bridge.tasks s0 = Bridge.tasks s ->
              Bridge.instance s0 = Bridge.instance s ->
              Bridge.closed s0 = Bridge.closed s ->
              Bridge.queue s0 = Bridge.queue s ->
              Bridge.connected s0 = Bridge.connected s ->
              Bridge.connectCalls s0 = Bridge.connectCalls s ->
              s' = Bridge.settle l r s0 ->
              Bridge.instance s' = Bridge.instance s
              /\ (Bridge.closed s = true -> Bridge.closed s' = true)
              /\ (Bridge.connected s' = Bridge.connected s
                  \/ exists t, Bridge.pc_of t s = Some Bridge.AwaitConnect)
              /\ (Bridge.connectCalls s' = Bridge.connectCalls s
                  \/ Bridge.lacks_connect (Bridge.instance s) = false)
              /\ moved (Bridge.LoopStep l) s s').
    { intros r s0 Ht Hi Hc Hq Hcn Hcc ->.
      destruct (settle_shape l r s0) as (F1 & F2 & F3 & F4 & F5 & Hts).
      unfold moved. rewrite F1, F2, F3, F4, F5, Hi, Hc, Hcn, Hcc, Hq. frames.
      destruct Hts as [->|(t & tk & d & l' & Htk & Hat & ->)].
      - left; auto.
      - rewrite Ht in Htk |- *. moves t tk Htk; rewrite Hat; cbn; auto. }
    destruct (Bridge.loops s !! l) as [[o id st]|] eqn:Hl; [|discriminate].
    destruct (set_loop_tasks l Bridge.Ended s) as (E1 & E2 & E3 & E4 & E5 & E6 & _).
    destruct st as [|[m|]|e|]; try discriminate.
    + destruct (decide (Bridge.messageId m = Some id)); inversion H; subst; clear H.
      * now apply (Hsettle (Resolved (VObj m)) (Bridge.set_loop l Bridge.Ended s)).
      * unfold Bridge.nextMessage.
        destruct (AsyncQueue.next l (Bridge.outboundQueue s)) as [mq res].
        framed (set_loop_tasks l (Bridge.loop_state_of res) (Bridge.with_outbound mq s)).
        frames. left; auto.
    + inversion H; subst; clear H.
      now apply (Hsettle (Rejected Bridge.err_connection_closed)
                   (Bridge.set_loop l Bridge.Ended s)).
    + inversion H; subst; clear H.
      now apply (Hsettle (Rejected e) (Bridge.set_loop l Bridge.Ended s)).
  - (* Timeout *)
    destruct (Bridge.pc_of t s) as [p0|] eqn:Hpc; [|discriminate].
    destruct p0; try discriminate.
    destruct (_ <=? _)%Z; inversion H; subst; clear H.
    destruct (pc_of_Some _ _ _ Hpc) as (tk & Htk & Hat).
    rewrite (set_pc_at _ _ _ tk) by exact Htk. cbn. frames.
    moves t tk Htk; rewrite Hat; cbn; auto.
  - (* Tick *)
    destruct (0 <=? ms)%Z; inversion H; subst; clear H.
    cbn. frames. left; auto.
  - (* Assign *)
    inversion H; subst; clear H. cbn. frames. left; auto.
  - (* Close *)
    unfold Bridge.closeTransport in H.
    destruct (Bridge.closed s) eqn:Hc.
    { inversion H; subst. frames. left; auto. }
    destruct (AsyncQueue.close (Bridge.outboundQueue s)) as [mq woken].
    inversion H; subst; clear H.
    framed (wake_closed_tasks woken
              (Bridge.with_outbound mq (Bridge.with_closed true s))).
    frames. left; auto.
Qed.

Lemma outcome_Some t s r :
  Bridge.outcome t s = Some r <->
  exists tk, Bridge.tasks s !! t = Some tk /\ Bridge.at_pc tk = Bridge.Finished r.
Proof.
  unfold Bridge.outcome, Bridge.pc_of. destruct (Bridge.tasks s !! t) as [tk|]; cbn.
  - split.
    + destruct (Bridge.at_pc tk) eqn:E; try discriminate. intros [= ->]. eauto.
    + intros (tk' & [= <-] & ->). reflexivity.
  - split; [discriminate|]. intros (tk' & H & _). discriminate.
Qed.

Lemma in_deliver_true t s :
  Bridge.in_deliver s t = true <->
  exists tk, Bridge.tasks s !! t = Some tk /\ Bridge.at_pc tk = Bridge.AwaitHandler.
Proof.
  unfold Bridge.in_deliver, Bridge.pc_of. destruct (Bridge.tasks s !! t) as [tk|]; cbn.
  - split.
    + destruct (Bridge.at_pc tk) eqn:E; try discriminate. eauto.
    + intros (tk' & [= <-] & ->). reflexivity.
  - split; [discriminate|]. intros (tk' & H & _). discriminate.
Qed.

Lemma step_outcome_final e s s' t r :
  Bridge.step e s = Some s' ->
  Bridge.outcome t s = Some r -> Bridge.outcome t s' = Some r.
Proof.
  intros Hstep Ho. apply outcome_Some in Ho as (tk & Htk & Hat).
  apply outcome_Some.
  destruct (step_moved e s s' Hstep) as (_ & _ & _ & _ & Hm).
  destruct Hm as [[-> _]|[(m & _ & -> & _)|(t0 & tk0 & p & Htk0 & Hadv & -> & _)]].
  - eauto.
  - exists tk. split; [|exact Hat].
    rewrite lookup_app_l by (eapply lookup_lt_Some; eauto). exact Htk.
  - destruct (decide (t0 = t)) as [->|Hne].
    + rewrite Htk in Htk0. injection Htk0 as <-. rewrite Hat in Hadv.
      destruct Hadv.
    + exists tk. rewrite list_lookup_insert_ne by exact Hne. auto.
Qed.

(** X24: what a call of [handleRequest] has settled to is final. Once
    [processRequest] of a call has been fulfilled or rejected, no later
    event on the bridge changes the outcome: not a late reply, not the
    timer of [waitWithTimeout], not another call, not [close()]. *)
Theorem outcome_is_final (es : list Bridge.event) (s s' : Bridge.state)
    (t : nat) (r : settled) :
  Bridge.run es s = Some s' ->
  Bridge.outcome t s = Some r ->
  Bridge.outcome t s' = Some r.
Proof.
  revert s. induction es as [|e es IH]; intros s Hrun Ho; cbn [Bridge.run] in Hrun.
  - now inversion Hrun; subst.
  - destruct (Bridge.step e s) as [s1|] eqn:Hstep; [|discriminate].
    apply (IH s1 Hrun). exact (step_outcome_final e s s1 t r Hstep Ho).
Qed.

Lemma outcome_is_final_witness :
  exists s s',
    Bridge.run firstRequestTimesOut (Bridge.create (Bridge.Service true false)) = Some s
    /\ Bridge.run [Bridge.Send (rpcReply 1); Bridge.LoopStep 0; Bridge.Tick 5;
                   Bridge.Call (rpcRequest 2); Bridge.Close] s = Some s'
    /\ Bridge.outcome 0 s' = Some (Rejected Bridge.err_timeout).
Proof.
  eexists. eexists. split; [vm_compute; reflexivity|].
  match goal with
  | |- Bridge.run ?es ?s = Some _ /\ _ =>
      split; [vm_compute; reflexivity
             |apply (outcome_is_final es s _ 0 _); vm_compute; reflexivity]
  end.
Defined.

Lemma filter_none {A} (f : A -> bool) (l : list A) :
  (forall x, In x l -> f x = false) -> List.filter f l = [].
Proof.
  induction l as [|x l IH]; intros H; [reflexivity|].
  cbn [List.filter]. rewrite (H x) by now left.
  apply IH. intros y Hy. apply H. now right.
Qed.

Lemma step_without_connect e s s' :
  Bridge.step e s = Some s' ->
  Bridge.lacks_connect (Bridge.instance s) = true ->
  Bridge.connected s = false ->
  (forall t tk, Bridge.tasks s !! t = Some tk -> without_connect (Bridge.at_pc tk)) ->
  Bridge.lacks_connect (Bridge.instance s') = true
  /\ Bridge.connected s' = false
  /\ Bridge.connectCalls s' = Bridge.connectCalls s
  /\ (forall t tk, Bridge.tasks s' !! t = Some tk -> without_connect (Bridge.at_pc tk)).
Proof.
  intros Hstep Hl Hc Hall.
  destruct (step_moved e s s' Hstep) as (Hi & _ & Hcn & Hcc & Hm).
  rewrite Hi. split; [exact Hl|]. split; [|split].
  - destruct Hcn as [->|(t & Hpc)]; [exact Hc|].
    apply pc_of_Some in Hpc as (tk & Htk & Hat).
    specialize (Hall t tk Htk). rewrite Hat in Hall. destruct Hall.
  - destruct Hcc as [->|Hcc]; [reflexivity|congruence].
  - destruct Hm as [[-> _]|[(m & _ & -> & _)|(t0 & tk0 & p & Htk0 & Hadv & -> & _)]].
    + exact Hall.
    + intros t tk Htk. apply lookup_app_Some in Htk as [Htk|[_ Htk]]; [eauto|].
      destruct (t - length (Bridge.tasks s)) as [|n]; [|discriminate].
      injection Htk as <-. exact I.
    + intros t tk Htk. destruct (decide (t0 = t)) as [->|Hne].
      * rewrite list_lookup_insert_eq in Htk by (eapply lookup_lt_Some; eauto).
        injection Htk as <-. cbn [Bridge.at_pc].
        specialize (Hall t tk0 Htk0).
        destruct (Bridge.at_pc tk0) as [q| |[u|e0]| |[u|e0]|d l|[v|e0]];
          cbn in Hall; try contradiction;
          destruct p as [q'| |[u'|e']| |[u'|e']|d' l'|[v'|e']];
          cbn in Hadv |- *; intuition congruence.
      * rewrite list_lookup_insert_ne in Htk by exact Hne. eauto.
Qed.

(** X25: a bridge around an instance that has no [connect] method never
    invokes [connect], never delivers a message to the instance, and
    rejects every request it settles with the error that the instance
    lacks [connect()]. *)
Theorem instance_without_connect_rejects_every_request
    (i : Bridge.Instance) (es : list Bridge.event) (s : Bridge.state) :
  Bridge.lacks_connect i = true ->
  Bridge.run es (Bridge.create i) = Some s ->
  Bridge.connectCalls s = 0
  /\ Bridge.delivering s = []
  /\ forall t r, Bridge.outcome t s = Some r -> r = Rejected Bridge.err_no_connect.
Proof.
  intros Hl Hrun.
  assert (Hinv : forall es s0 s1,
            Bridge.run es s0 = Some s1 ->
            Bridge.lacks_connect (Bridge.instance s0) = true ->
            Bridge.connected s0 = false ->
            (forall t tk, Bridge.tasks s0 !! t = Some tk ->
                          without_connect (Bridge.at_pc tk)) ->
            Bridge.connectCalls s1 = Bridge.connectCalls s0
            /\ forall t tk, Bridge.tasks s1 !! t = Some tk ->
                            without_connect (Bridge.at_pc tk)).
  { clear. induction es as [|e es IH]; intros s0 s1 Hrun Hl Hc Hall;
      cbn [Bridge.run] in Hrun.
    - inversion Hrun; subst. auto.
    - destruct (Bridge.step e s0) as [s2|] eqn:Hstep; [|discriminate].
      destruct (step_without_connect e s0 s2 Hstep Hl Hc Hall) as (Hl2 & Hc2 & Hn2 & Hall2).
      destruct (IH s2 s1 Hrun Hl2 Hc2 Hall2) as [Hn Hall1]. split; [congruence|exact Hall1]. }
  destruct (Hinv es (Bridge.create i) s Hrun Hl eq_refl) as [Hn Hall].
  { intros t tk H. destruct t; discriminate H. }
  split; [exact Hn|]. split.
  - unfold Bridge.delivering. apply filter_none. intros t _.
    destruct (Bridge.in_deliver s t) eqn:E; [|reflexivity].
    apply in_deliver_true in E as (tk & Htk & Hat).
    specialize (Hall t tk Htk). rewrite Hat in Hall. destruct Hall.
  - intros t r Ho. apply outcome_Some in Ho as (tk & Htk & Hat).
    specialize (Hall t tk Htk). rewrite Hat in Hall.
    destruct r as [v|e]; cbn in Hall; [destruct Hall|now subst].
Qed.

Lemma instance_without_connect_rejects_every_request_witness :
  exists s,
    Bridge.run [Bridge.Call (rpcRequest 1); Bridge.Call (rpcRequest 2);
                Bridge.Resume 0; Bridge.Continue 0; Bridge.Resume 1]
               (Bridge.create (Bridge.Plain (VObj []))) = Some s
    /\ Bridge.connectCalls s = 0
    /\ Bridge.delivering s = []
    /\ forall t r, Bridge.outcome t s = Some r -> r = Rejected Bridge.err_no_connect.
Proof.
  eexists. split; [vm_compute; reflexivity|].
  apply (instance_without_connect_rejects_every_request (Bridge.Plain (VObj []))
           [Bridge.Call (rpcRequest 1); Bridge.Call (rpcRequest 2);
            Bridge.Resume 0; Bridge.Continue 0; Bridge.Resume 1]);
    [reflexivity | vm_compute; reflexivity].
Defined.

Lemma step_after_close e s s' (n : nat) (before : nat -> bool) :
  Bridge.step e s = Some s' ->
  Bridge.closed s = true ->
  (forall t, Bridge.in_deliver s t = true -> before t = true) ->
  (forall t tk, n <= t -> Bridge.tasks s !! t = Some tk -> after_close (Bridge.at_pc tk)) ->
  Bridge.closed s' = true
  /\ (forall t, Bridge.in_deliver s' t = true -> before t = true)
  /\ (forall t tk, n <= t -> Bridge.tasks s' !! t = Some tk ->
                   after_close (Bridge.at_pc tk)).
Proof.
  intros Hstep Hc Hdel Hall.
  destruct (step_moved e s s' Hstep) as (_ & Hcl & _ & _ & Hm).
  split; [auto|].
  destruct Hm as [[Ht _]|[(m & _ & Ht & _)|(t0 & tk0 & p & Htk0 & Hadv & Ht & _)]].
  - split.
    + intros t H. apply Hdel. apply in_deliver_true in H as (tk & Htk & Hat).
      apply in_deliver_true. rewrite Ht in Htk. eauto.
    + intros t tk Hn Htk. rewrite Ht in Htk. eauto.
  - split.
    + intros t H. apply Hdel. apply in_deliver_true in H as (tk & Htk & Hat).
      apply in_deliver_true. rewrite Ht in Htk.
      apply lookup_app_Some in Htk as [Htk|[_ Htk]]; [eauto|].
      destruct (t - length (Bridge.tasks s)) as [|k]; [|discriminate].
      injection Htk as <-. discriminate Hat.
    + intros t tk Hn Htk. rewrite Ht in Htk.
      apply lookup_app_Some in Htk as [Htk|[_ Htk]]; [eauto|].
      destruct (t - length (Bridge.tasks s)) as [|k]; [|discriminate].
      injection Htk as <-. exact I.
  - split.
    + intros t H. apply in_deliver_true in H as (tk & Htk & Hat). rewrite Ht in Htk.
      destruct (decide (t0 = t)) as [->|Hne].
      * rewrite list_lookup_insert_eq in Htk by (eapply lookup_lt_Some; eauto).
        injection Htk as <-. cbn [Bridge.at_pc] in Hat. subst p.
        destruct (Bridge.at_pc tk0) as [q| |[u|e0]| |[u|e0]|d l|[v|e0]];
          cbn in Hadv; try contradiction.
        destruct Hadv as [Hadv _]. congruence.
      * rewrite list_lookup_insert_ne in Htk by exact Hne.
        apply Hdel. apply in_deliver_true. eauto.
    + intros t tk Hn Htk. rewrite Ht in Htk.
      destruct (decide (t0 = t)) as [->|Hne].
      * rewrite list_lookup_insert_eq in Htk by (eapply lookup_lt_Some; eauto).
        injection Htk as <-. cbn [Bridge.at_pc].
        specialize (Hall t tk0 Hn Htk0).
        destruct (Bridge.at_pc tk0) as [q| |[u|e0]| |[u|e0]|d l|[v|e0]];
          cbn in Hall; try contradiction;
          destruct p as [q'| |[u'|e']| |[u'|e']|d' l'|[v'|e']];
          cbn in Hadv |- *; intuition congruence.
      * rewrite list_lookup_insert_ne in Htk by exact Hne. eauto.
Qed.

(** X26: on a bridge whose transport is closed, no message is delivered to
    the service any more (the only calls inside [onmessage] are those that
    were there already), and no call made from then on is ever fulfilled:
    whenever one settles, it is rejected. *)
Theorem closed_bridge_delivers_nothing
    (es : list Bridge.event) (s s' : Bridge.state) :
  Bridge.closed s = true ->
  Bridge.run es s = Some s' ->
  (forall t, Bridge.in_deliver s' t = true -> Bridge.in_deliver s t = true)
  /\ (forall t r, length (Bridge.tasks s) <= t ->
                  Bridge.outcome t s' = Some r -> exists e, r = Rejected e).
Proof.
  intros Hc Hrun.
  assert (Hinv : forall es s0 s1,
            Bridge.run es s0 = Some s1 ->
            Bridge.closed s0 = true ->
            (forall t, Bridge.in_deliver s0 t = true -> Bridge.in_deliver s t = true) ->
            (forall t tk, length (Bridge.tasks s) <= t ->
                          Bridge.tasks s0 !! t = Some tk ->
                          after_close (Bridge.at_pc tk)) ->
            (forall t, Bridge.in_deliver s1 t = true -> Bridge.in_deliver s t = true)
            /\ (forall t tk, length (Bridge.tasks s) <= t ->
                             Bridge.tasks s1 !! t = Some tk ->
                             after_close (Bridge.at_pc tk))).
  { clear. induction es as [|e es IH]; intros s0 s1 Hrun Hc Hdel Hall;
      cbn [Bridge.run] in Hrun.
    - inversion Hrun; subst. auto.
    - destruct (Bridge.step e s0) as [s2|] eqn:Hstep; [|discriminate].
      destruct (step_after_close e s0 s2 _ _ Hstep Hc Hdel Hall) as (Hc2 & Hdel2 & Hall2).
      exact (IH s2 s1 Hrun Hc2 Hdel2 Hall2). }
  destruct (Hinv es s s' Hrun Hc) as [Hdel Hall]; [auto| |].
  { intros t tk Hn Htk. apply lookup_lt_Some in Htk. lia. }
  split; [exact Hdel|].
  intros t r Hn Ho. apply outcome_Some in Ho as (tk & Htk & Hat).
  specialize (Hall t tk Hn Htk). rewrite Hat in Hall.
  destruct r as [v|e]; [destruct Hall|eauto].
Qed.

Lemma closed_bridge_delivers_nothing_witness :
  exists s s',
    Bridge.run (firstRequestWaits ++ [Bridge.Close])%list
               (Bridge.create (Bridge.Service true false)) = Some s
    /\ Bridge.run [Bridge.Call (rpcRequest 2); Bridge.LoopStep 0; Bridge.Resume 1;
                   Bridge.Continue 1; Bridge.Continue 1] s = Some s'
    /\ (forall t, Bridge.in_deliver s' t = true -> Bridge.in_deliver s t = true)
    /\ (forall t r, length (Bridge.tasks s) <= t ->
                    Bridge.outcome t s' = Some r -> exists e, r = Rejected e).
Proof.
  eexists. eexists. split; [vm_compute; reflexivity|].
  match goal with
  | |- Bridge.run ?es ?s = Some _ /\ _ =>
      split; [vm_compute; reflexivity
             |apply (closed_bridge_delivers_nothing es s); vm_compute; reflexivity]
  end.
Defined.

Lemma waiting_false s t tk :
  waiting s = false -> Bridge.tasks s !! t = Some tk -> at_queue tk = false.
Proof.
  unfold waiting. intros Hw Htk.
  destruct (at_queue tk) eqn:E; [|reflexivity].
  assert (H : existsb at_queue (Bridge.tasks s) = true).
  { apply existsb_exists. exists tk. split; [|exact E].
    apply list_elem_of_In. eapply list_elem_of_lookup_2. exact Htk. }
  congruence.
Qed.

Lemma step_in_line e s s' :
  Bridge.step e s = Some s' ->
  (forall m, e = Bridge.Call m -> waiting s = false) ->
  in_line s -> in_line s'.
Proof.
  intros Hstep Hpaced [Hq Hone].
  destruct (step_moved e s s' Hstep) as (_ & _ & _ & _ & Hm).
  destruct Hm as [[Ht Hqu]|[(m & He & Ht & Hqu)|(t0 & tk0 & p & Htk0 & Hadv & Ht & Hqu)]].
  - unfold in_line. rewrite Ht, Hqu. auto.
  - specialize (Hpaced m He).
    assert (Hnew : forall t tk,
              Bridge.tasks s' !! t = Some tk ->
              (Bridge.tasks s !! t = Some tk /\ at_queue tk = false)
              \/ (t = length (Bridge.tasks s)
                  /\ tk = Bridge.Task m (Bridge.AwaitQueue (Bridge.queue s)))).
    { intros t tk Htk. rewrite Ht in Htk.
      apply lookup_app_Some in Htk as [Htk|[Hle Htk]].
      - left. split; [exact Htk|]. exact (waiting_false s t tk Hpaced Htk).
      - right. destruct (t - length (Bridge.tasks s)) as [|k] eqn:E; [|discriminate].
        injection Htk as <-. split; [lia|reflexivity]. }
    split.
    + intros t tk Htk. rewrite Hqu.
      destruct (Hnew t tk Htk) as [[Htk' _]|[_ ->]]; [exact (Hq t tk Htk')|reflexivity].
    + intros t1 t2 tk1 tk2 H1 H2 Hw1 Hw2.
      destruct (Hnew t1 tk1 H1) as [[_ F1]|[-> _]]; [congruence|].
      destruct (Hnew t2 tk2 H2) as [[_ F2]|[-> _]]; [congruence|reflexivity].
  - assert (Hp : at_queue (Bridge.Task (Bridge.message tk0) p) = false).
    { unfold at_queue. cbn [Bridge.at_pc].
      destruct (Bridge.at_pc tk0) as [q| |[u|e0]| |[u|e0]|d l|[v|e0]];
        destruct p as [q'| |[u'|e']| |[u'|e']|d' l'|[v'|e']];
        cbn in Hadv; try contradiction; reflexivity. }
    split.
    + intros t tk Htk. rewrite Ht in Htk.
      destruct (decide (t0 = t)) as [->|Hne].
      * rewrite list_lookup_insert_eq in Htk by (eapply lookup_lt_Some; eauto).
        injection Htk as <-. cbn [Bridge.at_pc].
        specialize (Hq t tk0 Htk0).
        destruct (Bridge.at_pc tk0) as [q| |[u|e0]| |[u|e0]|d l|[v|e0]];
          destruct p as [q'| |[u'|e']| |[u'|e']|d' l'|[v'|e']];
          cbn in Hadv; try contradiction; try exact I;
          try (apply proj1 in Hqu); congruence.
      * rewrite list_lookup_insert_ne in Htk by exact Hne.
        pose proof (Hq t tk Htk) as Hqt.
        destruct (Bridge.at_pc tk0) as [q| |[u|e0]| |[u|e0]|d l|[v|e0]] eqn:Hat0;
          try (rewrite Hqu; exact Hqt).
        destruct Hqu as [Hqu Hset].
        pose proof (Hq t0 tk0 Htk0) as Hq0. rewrite Hat0 in Hq0. subst q.
        destruct (Bridge.at_pc tk) as [q| |[u|e0]| |[u|e0]|d l|[v|e0]] eqn:Hat;
          try exact I;
          try (exfalso; rewrite Hqt in Hset; cbn [Bridge.queue_settled] in Hset;
               unfold Bridge.pc_of in Hset; rewrite Htk in Hset; cbn in Hset;
               rewrite Hat in Hset; discriminate Hset).
        exfalso. apply Hne. apply (Hone t0 t tk0 tk Htk0 Htk); unfold at_queue.
        -- now rewrite Hat0.
        -- now rewrite Hat.
    + intros t1 t2 tk1 tk2 H1 H2 Hw1 Hw2. rewrite Ht in H1, H2.
      destruct (decide (t0 = t1)) as [->|Hne1].
      { rewrite list_lookup_insert_eq in H1 by (eapply lookup_lt_Some; eauto).
        injection H1 as <-. congruence. }
      destruct (decide (t0 = t2)) as [->|Hne2].
      { rewrite list_lookup_insert_eq in H2 by (eapply lookup_lt_Some; eauto).
        injection H2 as <-. congruence. }
      rewrite list_lookup_insert_ne in H1 by exact Hne1.
      rewrite list_lookup_insert_ne in H2 by exact Hne2.
      exact (Hone t1 t2 tk1 tk2 H1 H2 Hw1 Hw2).
Qed.

Lemma filter_seq_one (f : nat -> bool) (a : nat) (n : nat) : forall start,
  (forall x, f x = true -> x = a) ->
  length (List.filter f (seq start n)) <= 1.
Proof.
  induction n as [|n IH]; intros start Hf; [cbn; lia|].
  cbn [seq List.filter]. destruct (f start) eqn:E; [|now apply IH].
  rewrite filter_none; [cbn; lia|].
  intros x Hx. apply in_seq in Hx. destruct (f x) eqn:Ex; [|reflexivity].
  apply Hf in E. apply Hf in Ex. lia.
Qed.

(** X27: the promise chain of [handleRequest] does serialize the calls when
    they are paced: if no call is made while an earlier call still waits
    at line 274, then at any moment at most one call is inside the
    service's [onmessage], and at most one call is past line 274 and not
    yet settled. *)
Theorem paced_calls_are_serialized
    (i : Bridge.Instance) (es : list Bridge.event) (s : Bridge.state) :
  paced es (Bridge.create i) ->
  Bridge.run es (Bridge.create i) = Some s ->
  length (Bridge.delivering s) <= 1
  /\ forall t1 t2 p1 p2,
       Bridge.pc_of t1 s = Some p1 -> Bridge.pc_of t2 s = Some p2 ->
       processing p1 = true -> processing p2 = true -> t1 = t2.
Proof.
  intros Hpaced Hrun.
  assert (Hinv : forall es s0 s1,
            paced es s0 -> Bridge.run es s0 = Some s1 -> in_line s0 -> in_line s1).
  { clear. induction es as [|e es IH]; intros s0 s1 Hp Hrun Hin;
      cbn [Bridge.run] in Hrun.
    - now inversion Hrun; subst.
    - cbn [paced] in Hp. destruct Hp as [Hcall Hrest].
      destruct (Bridge.step e s0) as [s2|] eqn:Hstep; [|discriminate].
      apply (IH s2 s1 Hrest Hrun). apply (step_in_line e s0 s2 Hstep); [|exact Hin].
      intros m ->. exact Hcall. }
  assert (Hin : in_line s).
  { apply (Hinv es (Bridge.create i) s Hpaced Hrun). split.
    - intros t tk H. destruct t; discriminate H.
    - intros t1 t2 tk1 tk2 H. destruct t1; discriminate H. }
  destruct Hin as [Hq _].
  assert (Hproc : forall t p, Bridge.pc_of t s = Some p -> processing p = true ->
                              Bridge.queue s = S t).
  { intros t p Hpc Hp. apply pc_of_Some in Hpc as (tk & Htk & Hat).
    specialize (Hq t tk Htk). rewrite Hat in Hq.
    destruct p as [q| |[u|e0]| |[u|e0]|d l|[v|e0]]; try discriminate Hp; exact Hq. }
  split.
  - unfold Bridge.delivering.
    apply (filter_seq_one _ (pred (Bridge.queue s))).
    intros t Ht. apply in_deliver_true in Ht as (tk & Htk & Hat).
    rewrite (Hproc t Bridge.AwaitHandler); [reflexivity| |reflexivity].
    unfold Bridge.pc_of. rewrite Htk. cbn. now rewrite Hat.
  - intros t1 t2 p1 p2 H1 H2 P1 P2.
    pose proof (Hproc t1 p1 H1 P1). pose proof (Hproc t2 p2 H2 P2). lia.
Qed.

Lemma paced_calls_are_serialized_witness :
  exists s,
    Bridge.run [Bridge.Call (rpcRequest 1); Bridge.Resume 0; Bridge.Assign true false;
                Bridge.ConnectSettles 0 (Resolved VUndefined); Bridge.Continue 0;
                Bridge.Call (rpcRequest 2);
                Bridge.Send (rpcReply 1); Bridge.HandlerSettles 0 (Resolved VUndefined);
                Bridge.Continue 0; Bridge.LoopStep 0;
                Bridge.Resume 1; Bridge.Call (rpcRequest 3); Bridge.Continue 1]
               (Bridge.create (Bridge.Service true false)) = Some s
    /\ Bridge.delivering s = [1]
    /\ length (Bridge.delivering s) <= 1
    /\ forall t1 t2 p1 p2,
         Bridge.pc_of t1 s = Some p1 -> Bridge.pc_of t2 s = Some p2 ->
         processing p1 = true -> processing p2 = true -> t1 = t2.
Proof.
  eexists. split; [vm_compute; reflexivity|]. split; [vm_compute; reflexivity|].
  apply (paced_calls_are_serialized (Bridge.Service true false)
           [Bridge.Call (rpcRequest 1); Bridge.Resume 0; Bridge.Assign true false;
            Bridge.ConnectSettles 0 (Resolved VUndefined); Bridge.Continue 0;
            Bridge.Call (rpcRequest 2);
            Bridge.Send (rpcReply 1); Bridge.HandlerSettles 0 (Resolved VUndefined);
            Bridge.Continue 0; Bridge.LoopStep 0;
            Bridge.Resume 1; Bridge.Call (rpcRequest 3); Bridge.Continue 1]);
    [|vm_compute; reflexivity].
  vm_compute. repeat split.
Defined.




